(** * tinygoize: build classification and go:build annotation rewriting

    A shallow embedding of [tools/tinygoize] (u-root): the build runner
    ([build], [isExcluded], [buildTags]), the annotation rewriter
    ([fixupFileConstraints], [fixupPkgConstraints]) and the job
    orchestrator ([worker], [buildDirs]), with the properties the
    specification states about them.

    Source text is a byte string ([string]); the file system is a finite
    map from paths to contents; external processes, the directory listing
    and Go's parser and printer are parameters of the development. *)

From Stdlib Require Import Ascii String ZArith Lia Permutation DecimalString.
From stdpp Require Import base strings gmap sorting.

Set Default Proof Using "Type".
Open Scope Z_scope.
Open Scope nat_scope.

(** ** Package [strings] (the functions the tool calls) *)

Module Strings.

(** [strings.HasPrefix(s, prefix)] *)
Fixpoint HasPrefix (s prefix : string) {struct prefix} : bool :=
  match prefix with
  | EmptyString => true
  | String p prefix' =>
      match s with
      | EmptyString => false
      | String c s' => Ascii.eqb c p && HasPrefix s' prefix'
      end
  end.

(** [strings.HasSuffix(s, suffix)] *)
Definition HasSuffix (s suffix : string) : bool :=
  HasPrefix (String.rev s) (String.rev suffix).

(** [strings.Contains(s, substr)] *)
Fixpoint Contains (s substr : string) : bool :=
  HasPrefix s substr ||
  match s with
  | EmptyString => false
  | String _ s' => Contains s' substr
  end.

(** The slice expression [s[n:]] for [n <= len(s)]. *)
Fixpoint from (n : nat) (s : string) : string :=
  match n, s with
  | S n', String _ s' => from n' s'
  | _, _ => s
  end.

(** [strings.Split(s, sep)] for a one-byte separator. *)
Fixpoint Split (s : string) (sep : ascii) : list string :=
  match s with
  | EmptyString => [EmptyString]
  | String c s' =>
      if Ascii.eqb c sep then EmptyString :: Split s' sep
      else match Split s' sep with
           | [] => [String c EmptyString]
           | p :: ps => String c p :: ps
           end
  end.

(** [strings.Join(elems, sep)] *)
Fixpoint Join (elems : list string) (sep : string) : string :=
  match elems with
  | [] => EmptyString
  | [e] => e
  | e :: es => e +:+ sep +:+ Join es sep
  end.

End Strings.

(** ** Package [regexp], for the two patterns of the rewriter

    Matching is leftmost-first with greedy operators, as Go's [regexp]
    specifies it; the matcher is a backtracking one in continuation
    style. Repetition is over one-byte classes, which is all the two
    patterns use. *)

Module Regexp.

Inductive class : Type :=
| CByte (c : ascii)      (* a literal byte *)
| CSpace.                (* \s, that is [\t\n\f\r ] *)

Inductive regex : Type :=
| Eps
| One (c : class)
| Dot                     (* . : any character but newline *)
| Cat (r1 r2 : regex)
| Opt (r : regex)         (* r? *)
| Star (c : class)        (* c* *)
| Plus (c : class)        (* c+ *)
| Bot                     (* ^ : beginning of text *)
| Eot.                    (* $ : end of text *)

Definition is_space (c : ascii) : bool :=
  Ascii.eqb c "009" || Ascii.eqb c "010" || Ascii.eqb c "012"
  || Ascii.eqb c "013" || Ascii.eqb c " ".

Definition in_class (k : class) (c : ascii) : bool :=
  match k with
  | CByte b => Ascii.eqb c b
  | CSpace => is_space c
  end.

Definition between (lo hi : nat) (c : ascii) : bool :=
  (lo <=? nat_of_ascii c) && (nat_of_ascii c <=? hi).

Definition continuation (lo hi : nat) (s : string) : bool :=
  match s with
  | String c _ => between lo hi c
  | EmptyString => false
  end.

(** The width [utf8.DecodeRuneInString] reports for the first character
    of a non-empty [s]: the length of a well-formed UTF-8 sequence, and
    1 for a byte that does not start one. *)
Definition runeLen (s : string) : nat :=
  match s with
  | EmptyString => 0
  | String c s1 =>
      let two := between 194 223 c && continuation 128 191 s1 in
      let second3 :=
        (between 224 224 c && continuation 160 191 s1)
        || ((between 225 236 c || between 238 239 c) && continuation 128 191 s1)
        || (between 237 237 c && continuation 128 159 s1) in
      let second4 :=
        (between 240 240 c && continuation 144 191 s1)
        || (between 241 243 c && continuation 128 191 s1)
        || (between 244 244 c && continuation 128 143 s1) in
      let s2 := Strings.from 1 s1 in
      let s3 := Strings.from 2 s1 in
      if two then 2
      else if second3 && continuation 128 191 s2 then 3
      else if second4 && continuation 128 191 s2 && continuation 128 191 s3 then 4
      else 1
  end.

(** Greedy repetition of a one-byte class; [n] counts the bytes the
    match has taken so far. *)
Fixpoint star (k : class) (n : nat) (s : string)
    (cont : nat -> string -> option nat) : option nat :=
  match s with
  | String c s' =>
      if in_class k c then
        match star k (S n) s' cont with
        | Some e => Some e
        | None => cont n s
        end
      else cont n s
  | EmptyString => cont n s
  end.

(** [run r bot n s cont]: match [r] at [s], [n] bytes into the match;
    [bot] says that the match started at the beginning of the text. *)
Fixpoint run (r : regex) (bot : bool) (n : nat) (s : string)
    (cont : nat -> string -> option nat) : option nat :=
  match r with
  | Eps => cont n s
  | One k =>
      match s with
      | String c s' => if in_class k c then cont (S n) s' else None
      | EmptyString => None
      end
  | Dot =>
      match s with
      | String c _ =>
          if Ascii.eqb c "010" then None
          else cont (n + runeLen s) (Strings.from (runeLen s) s)
      | EmptyString => None
      end
  | Cat r1 r2 => run r1 bot n s (fun n' s' => run r2 bot n' s' cont)
  | Opt r1 =>
      match run r1 bot n s cont with
      | Some e => Some e
      | None => cont n s
      end
  | Star k => star k n s cont
  | Plus k =>
      match s with
      | String c s' => if in_class k c then star k (S n) s' cont else None
      | EmptyString => None
      end
  | Bot => if bot && (n =? 0) then cont n s else None
  | Eot => match s with EmptyString => cont n s | _ => None end
  end.

(** The length of the match of [r] that starts at the head of [s]. *)
Definition matchAt (r : regex) (bot : bool) (s : string) : option nat :=
  run r bot 0 s (fun n _ => Some n).

Fixpoint matchFrom (r : regex) (bot : bool) (s : string) : bool :=
  match matchAt r bot s with
  | Some _ => true
  | None =>
      match s with
      | EmptyString => false
      | String _ s' => matchFrom r false s'
      end
  end.

(** [re.MatchString(s)] *)
Definition MatchString (r : regex) (s : string) : bool := matchFrom r true s.

(** The loop of [re.ReplaceAllString]: [skip] bytes of the current
    match are still to be dropped; [abut] says that a match ended at
    this position, where an empty match gets no replacement. *)
Fixpoint replaceFrom (r : regex) (repl : string) (bot abut : bool)
    (skip : nat) (s : string) : string :=
  match skip with
  | S n =>
      match s with
      | EmptyString => EmptyString
      | String _ s' => replaceFrom r repl false true n s'
      end
  | O =>
      match matchAt r bot s with
      | Some (S n) =>
          repl +:+
          match s with
          | EmptyString => EmptyString
          | String _ s' => replaceFrom r repl false true n s'
          end
      | Some O =>
          (if abut then EmptyString else repl) +:+
          match s with
          | EmptyString => EmptyString
          | String c s' => String c (replaceFrom r repl false false 0 s')
          end
      | None =>
          match s with
          | EmptyString => EmptyString
          | String c s' => String c (replaceFrom r repl false false 0 s')
          end
      end
  end.

(** [re.ReplaceAllString(src, repl)] for a [repl] without [$]. *)
Definition ReplaceAllString (r : regex) (src repl : string) : string :=
  replaceFrom r repl true false 0 src.

(** Is [r] free of [^]? *)
Fixpoint noBot (r : regex) : bool :=
  match r with
  | Bot => false
  | Cat r1 r2 => noBot r1 && noBot r2
  | Opt r1 => noBot r1
  | _ => true
  end.

(** A lower bound on the length of what [r] matches. *)
Fixpoint minLen (r : regex) : nat :=
  match r with
  | One _ | Dot | Plus _ => 1
  | Cat r1 r2 => minLen r1 + minLen r2
  | _ => 0
  end.

(** A sequence of sub-expressions, and a literal word. *)
Definition seq (rs : list regex) : regex := foldr Cat Eps rs.

Fixpoint word (w : string) : regex :=
  match w with
  | EmptyString => Eps
  | String c w' => Cat (One (CByte c)) (word w')
  end.

End Regexp.

Import Regexp.

(** White space only. *)
Fixpoint isBlank (t : string) : bool :=
  match t with
  | EmptyString => true
  | String c t' => is_space c && isBlank t'
  end.

(** ** Build runner: [build.go] *)

Record ExitError := { ExitCode : Z }.

(** The [error] values the tool tells apart: a process that ran and
    exited with a failure ([*exec.ExitError]), and any other error, such
    as a binary that could not be started. *)
Inductive error : Type :=
| ErrExit (e : ExitError)
| ErrOther (msg : string).

(** The type assertion of [err] to [*exec.ExitError]. *)
Definition asExitError (err : error) : option ExitError * bool :=
  match err with
  | ErrExit e => (Some e, true)
  | ErrOther _ => (None, false)
  end.

(** An [exec.Cmd]: program, arguments, the variables added to
    [os.Environ()], and the working directory. *)
Record Cmd := {
  Path : string;
  Args : list string;
  Env : list string;
  Dir : string
}.

Module BuildRes.
Record t := {
  err : option ExitError;
  excluded : bool;
  output : string
}.
Definition zero : t := {| err := None; excluded := false; output := "" |}.
End BuildRes.

(** Additional tags required for specific commands. *)
Definition addBuildTags : gmap string string :=
  list_to_map
    [("gzip", "noasm"); ("insmod", "noasm"); ("rmmod", "noasm");
     ("bzimage", "noasm"); ("kconf", "noasm"); ("modprobe", "noasm");
     ("console", "noasm"); ("init", "noasm")].

(** [buildTags]: the tags of the last path element; a missing key of a
    Go map reads as the empty string. *)
Definition buildTags (dir : string) : string :=
  let parts := Strings.Split dir "/" in
  let cmd := List.last parts "" in
  default "" (addBuildTags !! cmd).

(** What the tool sees of its host: the result of running a command to
    completion ([cmd.CombinedOutput()]), the listing
    [filepath.Glob(filepath.Join(dir, "*"))] of a directory ([None] for
    a malformed pattern), and whether [os.WriteFile] succeeds on a path. *)
Record Host := {
  CombinedOutput : Cmd -> string * option error;
  Glob : string -> option (list string);
  writable : string -> bool
}.

Section BuildRunner.
Context (H : Host).

(** [isExcluded]: does [go build -n] report that the constraints
    exclude every file of [dir]? *)
Definition isExcluded (dir : string) : bool :=
  let tags := ["tinygo"; "tinygo.enable"; "purego"; "osusergo";
               "math_big_pure_go"; "gc.precise"; "scheduler.tasks";
               "serial.none"] in
  let c := {| Path := "go";
              Args := ["build"; "-n"; "-tags"; Strings.Join tags ","];
              Env := ["GOOS=linux"; "GOARCH=amd64"];
              Dir := dir |} in
  let out := fst (CombinedOutput H c) in
  Strings.Contains out "build constraints exclude all Go files in".

(** [build]: "tinygo build" in directory [dir]. *)
Definition build (tinygo : string) (dir : string) : BuildRes.t * option error :=
  let tags := ["tinygo.enable"] ++
              (if String.eqb (buildTags dir) "" then [] else [buildTags dir]) in
  let cmd := {| Path := tinygo;
                Args := ["build"; "-tags"; Strings.Join tags ","];
                Env := ["GOOS=linux"; "GOARCH=amd64"];
                Dir := dir |} in
  let '(out, err) := CombinedOutput H cmd in
  let res := {| BuildRes.err := None; BuildRes.excluded := false;
                BuildRes.output := out |} in
  match err with
  | Some e =>
      let '(ee, ok) := asExitError e in
      let res := {| BuildRes.err := ee; BuildRes.excluded := false;
                    BuildRes.output := out |} in
      if negb ok then (res, Some e)
      else if isExcluded dir then
        ({| BuildRes.err := ee; BuildRes.excluded := true;
            BuildRes.output := out |}, None)
      else (res, None)
  | None => (res, None)
  end.

End BuildRunner.

(** The specification's BuildOutcome, read off what [build] returns. *)
Inductive BuildOutcome := Success | Failure | Excluded | Fatal.

#[global] Instance BuildOutcome_eq_dec : EqDecision BuildOutcome.
Proof. solve_decision. Defined.

Definition outcome (r : BuildRes.t * option error) : BuildOutcome :=
  match snd r with
  | Some _ => Fatal
  | None =>
      if BuildRes.excluded (fst r) then Excluded
      else match BuildRes.err (fst r) with
           | Some _ => Failure
           | None => Success
           end
  end.

(** ** Annotation rewriter: [constraints.go] *)

Definition goBuild : string := "//go:build ".
Definition constraint : string := "!tinygo || tinygo.enable".

(** [\(?\s*!tinygo\s+\|\|\s+tinygo.enable\s*\)?(\s+\&\&)?] *)
Definition stripRe : regex :=
  seq [Opt (One (CByte "(")); Star CSpace; word "!tinygo"; Plus CSpace;
       word "||"; Plus CSpace; word "tinygo"; Dot; word "enable";
       Star CSpace; Opt (One (CByte ")"));
       Opt (Cat (Plus CSpace) (word "&&"))].

(** [^\s*//go:build\s*$] *)
Definition bareRe : regex :=
  seq [Bot; Star CSpace; word "//go:build"; Star CSpace; Eot].

(** The part of [go/ast] the rewriter touches: comments, the comment
    groups of a file, and the file; [B] stands for everything else a
    parsed file holds (package clause, declarations, positions). *)
Record Comment := { Slash : Z; Text : string }.
Record CommentGroup := { List : list Comment }.
Record File (B : Type) := { Comments : list CommentGroup; Rest : B }.
Arguments Comments {B} _.
Arguments Rest {B} _.

Definition setText (c : Comment) (t : string) : Comment :=
  {| Slash := Slash c; Text := t |}.

(** How the body of the loop over one comment group is left. *)
Inductive LoopExit : Type :=
| Returned                          (* [return]: constraint up to date *)
| Broke (list' : list Comment)      (* a line was edited, then [break] *)
| Finished.                         (* no //go:build line in the group *)

Definition notBare (c : Comment) : bool :=
  negb (MatchString bareRe (Text c)).

(** The loop [for _, c := range cg.List]; [before] are the comments
    already passed over, [todo] the ones still to visit. *)
Fixpoint fixupList (builds : bool) (before todo : list Comment) : LoopExit :=
  match todo with
  | [] => Finished
  | c :: after =>
      if negb (Strings.HasPrefix (Text c) goBuild) then
        fixupList builds (before ++ [c]) after
      else
        let contains := Strings.Contains (Text c) constraint in
        if (builds && negb contains) || (negb builds && contains) then Returned
        else if builds then
          let c' := setText c (ReplaceAllString stripRe (Text c) "") in
          let list' := before ++ c' :: after in
          if MatchString bareRe (Text c') then Broke (filter notBare list')
          else Broke list'
        else
          let c' := setText c (goBuild +:+ "(" +:+ constraint +:+ ") && (" +:+
                               Strings.from (String.length goBuild) (Text c) +:+ ")") in
          Broke (before ++ c' :: after)
  end.

(** The loop [for _, cg := range f.Comments]: [None] when the function
    returned from inside it, otherwise the comment groups after the loop
    and the value of [goBuildPresent]. *)
Fixpoint fixupGroups (builds : bool) (groups : list CommentGroup)
    (goBuildPresent : bool) : option (list CommentGroup * bool) :=
  match groups with
  | [] => Some ([], goBuildPresent)
  | cg :: groups' =>
      match fixupList builds [] (List cg) with
      | Returned => None
      | Finished =>
          match fixupGroups builds groups' goBuildPresent with
          | Some (gs, p) => Some (cg :: gs, p)
          | None => None
          end
      | Broke list' =>
          match fixupGroups builds groups' true with
          | Some (gs, p) => Some ({| List := list' |} :: gs, p)
          | None => None
          end
      end
  end.

Definition newGoBuild (slash : Z) : CommentGroup :=
  {| List := [ {| Slash := slash; Text := goBuild +:+ constraint |} ] |}.

(** Inserting a fresh //go:build group; [None] is the run-time panic of
    [f.Comments[0].List[0]] on a first group without comments. *)
Definition insertGoBuild (groups : list CommentGroup) : option (list CommentGroup) :=
  match groups with
  | [] => Some [newGoBuild 0]
  | first :: rest =>
      match List first with
      | [] => None
      | c0 :: _ => Some (first :: newGoBuild (Slash c0 + 1) :: rest)
      end
  end.

(** How the edit of the parsed file ends. *)
Inductive Edit (B : Type) : Type :=
| UpToDate                 (* returned from the loop: nothing is printed *)
| Edited (f : File B)
| IndexPanic.
Arguments UpToDate {B}.
Arguments Edited {B} _.
Arguments IndexPanic {B}.

Definition fixupAst {B} (builds : bool) (f : File B) : Edit B :=
  match fixupGroups builds (Comments f) false with
  | None => UpToDate
  | Some (groups, goBuildPresent) =>
      if negb builds && negb goBuildPresent then
        match insertGoBuild groups with
        | Some groups' => Edited {| Comments := groups'; Rest := Rest f |}
        | None => IndexPanic
        end
      else Edited {| Comments := groups; Rest := Rest f |}
  end.

(** [go/parser] and [go/printer]: [ParseFile] with comments ([None] for
    a syntax error) and [printer.Config.Fprint] ([None] for an error). *)
Record GoSyntax := {
  Body : Type;
  ParseFile : string -> option (File Body);
  Fprint : File Body -> option string
}.

(** ** The state the tool runs in *)

(** The calls into the rewriter and to [os.WriteFile], in call order. *)
Inductive Call : Type :=
| CallFixupPkg (dir : string) (builds checkonly : bool)
| CallFixupFile (file : string) (builds checkonly : bool)
| CallWriteFile (file data : string).

Record World := {
  files : gmap string string;
  calls : list Call
}.

(** A computation returns, or ends the process ([log.Fatal]), or panics. *)
Inductive Result (A : Type) : Type :=
| Ret (a : A) (w : World)
| Exit (w : World)
| Panic (w : World).
Arguments Ret {A} _ _.
Arguments Exit {A} _.
Arguments Panic {A} _.

Definition M (A : Type) : Type := World -> Result A.

Definition ret {A} (a : A) : M A := fun w => Ret a w.

Definition bind {A B} (m : M A) (k : A -> M B) : M B :=
  fun w =>
    match m w with
    | Ret a w' => k a w'
    | Exit w' => Exit w'
    | Panic w' => Panic w'
    end.

Definition fatal {A} : M A := fun w => Exit w.
Definition panic {A} : M A := fun w => Panic w.

Definition record (c : Call) : M unit :=
  fun w => Ret tt {| files := files w; calls := calls w ++ [c] |}.

Definition ReadFile (file : string) : M (option string) :=
  fun w => Ret (files w !! file) w.

Definition storeFile (file data : string) : M unit :=
  fun w => Ret tt {| files := <[file := data]> (files w); calls := calls w |}.

Declare Scope tool_scope.
Delimit Scope tool_scope with tool.
Notation "'let*' x ':=' m 'in' k" := (bind m (fun x => k))
  (at level 10, x name, m at level 100, k at level 200) : tool_scope.
Notation "'do' m 'in' k" := (bind m (fun _ => k))
  (at level 10, m at level 100, k at level 200) : tool_scope.
Open Scope tool_scope.

Definition worldOf {A} (r : Result A) : World :=
  match r with
  | Ret _ w => w
  | Exit w => w
  | Panic w => w
  end.

Record Config := {
  pathMD : string;
  tinygo : string;
  nWorkers : Z;
  checkOnly : bool;
  verbose : bool;
  dirs : list string
}.

Module WorkerResult.
Record t := {
  dir : string;
  buildRes : BuildRes.t;
  didWork : bool;
  err : option error
}.
End WorkerResult.

(** Track set of passing, failing, and excluded commands *)
Record BuildStatus := {
  passing : list string;
  failing : list string;
  excluded : list string;
  modified : list string
}.

Definition noStatus : BuildStatus :=
  {| passing := []; failing := []; excluded := []; modified := [] |}.

Section Tool.
Context (G : GoSyntax) (H : Host).

Definition WriteFile (file data : string) : M unit :=
  do record (CallWriteFile file data) in
  if writable H file then storeFile file data else fatal.

(** [fixupFileConstraints]: modifies, adds, or removes the //go:build
    line of [file]. The error result is [nil] on every return. *)
Definition fixupFileConstraints (file : string) (builds checkonly : bool)
    : M (bool * option error) :=
  do record (CallFixupFile file builds checkonly) in
  let* rd := ReadFile file in
  match rd with
  | None => fatal
  | Some b =>
      match ParseFile G b with
      | None => fatal
      | Some f =>
          match fixupAst builds f with
          | UpToDate => ret (false, None)
          | IndexPanic => panic
          | Edited f' =>
              match Fprint G f' with
              | None => fatal
              | Some buf =>
                  if String.eqb b buf then ret (false, None)
                  else if checkonly then ret (true, None)
                  else do WriteFile file buf in ret (true, None)
              end
          end
      end
  end.

(** The loop of [fixupPkgConstraints] over the listed files. *)
Fixpoint fixupFiles (fs : list string) (builds checkonly mustDoWork : bool)
    : M (bool * option error) :=
  match fs with
  | [] => ret (mustDoWork, None)
  | file :: fs' =>
      if negb (Strings.HasSuffix file ".go") then
        fixupFiles fs' builds checkonly mustDoWork
      else
        let* r := fixupFileConstraints file builds checkonly in
        match snd r with
        | Some err2 => ret (mustDoWork, Some err2)
        | None => fixupFiles fs' builds checkonly (fst r || mustDoWork)
        end
  end.

(** [fixupPkgConstraints]: fixup build constraint lines for all .go
    files in [dir]. *)
Definition fixupPkgConstraints (dir : string) (builds checkonly : bool)
    : M (bool * option error) :=
  do record (CallFixupPkg dir builds checkonly) in
  match Glob H dir with
  | None => fatal
  | Some fs => fixupFiles fs builds checkonly false
  end.

(** One turn of the loop of [worker]: the result sent for [dir]. *)
Definition worker (conf : Config) (dir : string) : M WorkerResult.t :=
  let '(br, err) := build H (tinygo conf) dir in
  let* r := (if bool_decide (err = None) && negb (BuildRes.excluded br)
             then fixupPkgConstraints dir (bool_decide (BuildRes.err br = None))
                                      (checkOnly conf)
             else ret (false, err)) in
  ret {| WorkerResult.dir := dir; WorkerResult.buildRes := br;
         WorkerResult.didWork := fst r; WorkerResult.err := snd r |}.

(** The results the collecting loop receives, for workers that finish
    their components in the order [arrival]: it reads up to and
    including the first result that carries an error. The world is
    handed from one of these workers to the next in that order: it holds
    what the workers wrote whose results were read, and nothing of the
    workers whose results are never read, which is [lateWork]. *)
Fixpoint received (conf : Config) (arrival : list string)
    : M (list WorkerResult.t) :=
  match arrival with
  | [] => ret []
  | dir :: arrival' =>
      let* r := worker conf dir in
      match WorkerResult.err r with
      | Some _ => ret [r]
      | None => let* rs := received conf arrival' in ret (r :: rs)
      end
  end.

End Tool.

(** The body of the loop [for result := range results] after the error
    test: one result is filed. *)
Definition classify (status : BuildStatus) (result : WorkerResult.t) : BuildStatus :=
  let d := WorkerResult.dir result in
  let br := WorkerResult.buildRes result in
  let status1 :=
    if BuildRes.excluded br then
      {| passing := passing status; failing := failing status;
         excluded := excluded status ++ [d]; modified := modified status |}
    else if bool_decide (BuildRes.err br <> None) then
      {| passing := passing status; failing := failing status ++ [d];
         excluded := excluded status; modified := modified status |}
    else
      {| passing := passing status ++ [d]; failing := failing status;
         excluded := excluded status; modified := modified status |} in
  if WorkerResult.didWork result then
    {| passing := passing status1; failing := failing status1;
       excluded := excluded status1; modified := modified status1 ++ [d] |}
  else status1.

(** The collecting loop of [buildDirs]. *)
Fixpoint collect (status : BuildStatus) (results : list WorkerResult.t) : BuildStatus :=
  match results with
  | [] => status
  | result :: results' =>
      match WorkerResult.err result with
      | Some _ => status
      | None => collect (classify status result) results'
      end
  end.

(** [buildDirs]: "tinygo build" in each of the directories [dirs conf].
    The workers run concurrently; [arrival] is the order in which their
    results reach the collecting loop, a permutation of [dirs conf]. The
    number of workers (at least one when there is a directory) bounds
    how many builds run at a time and has no part in the results. The
    world returned holds the writes of the workers whose results were
    read; a worker writes before it sends, so after a [break] the files
    may also hold writes of workers whose results are never read:
    [lateWork] and [filesAfter] describe the files as they are then.
    The named result [err] is never assigned. *)
Definition buildDirs (G : GoSyntax) (H : Host) (conf : Config)
    (arrival : list string) : M (BuildStatus * option error) :=
  let* rs := received G H conf arrival in
  ret (collect noStatus rs, None).

(** ** A reference instance of the parameters

    [LineSyntax] reads and prints the Go files whose comments are [//]
    lines in the header: comment groups are runs of adjacent comment
    lines, each closed by a blank line, and the package clause and what
    follows it are kept line by line. The printer writes one blank line
    after every comment group that has comments, and one blank line for
    every run of blank lines. It serves the worked examples. *)

Module LineSyntax.

Definition newline : ascii := "010".

Definition lines (src : string) : list string :=
  let ls := Strings.Split src newline in
  if String.eqb (List.last ls "") "" then removelast ls else ls.

Definition close (cur : list Comment) (groups : list CommentGroup) : list CommentGroup :=
  match cur with
  | [] => groups
  | _ => groups ++ [ {| List := cur |} ]
  end.

Definition plainCode (l : string) : bool :=
  negb (Strings.Contains l "//") && negb (Strings.Contains l "/*").

(** The header: comment groups up to the package clause; [offset] is
    the offset of the line in the file. *)
Fixpoint header (ls : list string) (offset : Z) (cur : list Comment)
    (groups : list CommentGroup) : option (File (list string)) :=
  match ls with
  | [] => None
  | l :: ls' =>
      let next := (offset + Z.of_nat (String.length l) + 1)%Z in
      if Strings.HasPrefix l "//" then
        header ls' next (cur ++ [ {| Slash := (offset + 1)%Z; Text := l |} ]) groups
      else if isBlank l then header ls' next [] (close cur groups)
      else if Strings.HasPrefix l "package " then
        match cur with
        | [] => if forallb plainCode ls
                then Some {| Comments := groups; Rest := ls |}
                else None
        | _ => None
        end
      else None
  end.

Definition parse (src : string) : option (File (list string)) :=
  header (lines src) 0 [] [].

Fixpoint squeeze (blank : bool) (ls : list string) : list string :=
  match ls with
  | [] => []
  | l :: ls' =>
      if isBlank l then
        if blank then squeeze true ls' else EmptyString :: squeeze true ls'
      else l :: squeeze false ls'
  end.

Fixpoint unlines (ls : list string) : string :=
  match ls with
  | [] => EmptyString
  | l :: ls' => l +:+ String newline (unlines ls')
  end.

Definition printGroup (cg : CommentGroup) : list string :=
  match List cg with
  | [] => []
  | cs => map Text cs ++ [EmptyString]
  end.

Definition print (f : File (list string)) : option string :=
  Some (unlines (concat (map printGroup (Comments f)) ++ squeeze false (Rest f))).

Definition syntax : GoSyntax :=
  {| Body := list string; ParseFile := parse; Fprint := print |}.

End LineSyntax.

(** A host with three components: [cmds/ok] builds, [cmds/bad] fails to
    build, [cmds/plan9] is excluded by its constraints; the program
    [tinygo] runs and any other program cannot be started. *)
Module DemoHost.

Definition run (c : Cmd) : string * option error :=
  if String.eqb (Path c) "go" then
    if String.eqb (Dir c) "cmds/plan9"
    then ("package cmds/plan9: build constraints exclude all Go files in cmds/plan9",
          Some (ErrExit {| ExitCode := 1 |}))
    else ("", None)
  else if String.eqb (Path c) "tinygo" then
    if String.eqb (Dir c) "cmds/ok" then ("", None)
    else ("build failed", Some (ErrExit {| ExitCode := 1 |}))
  else ("", Some (ErrOther "executable file not found in $PATH")).

Definition glob (dir : string) : option (list string) :=
  Some [dir +:+ "/README.md"; dir +:+ "/main.go"].

Definition host : Host :=
  {| CombinedOutput := run; Glob := glob; writable := fun _ => true |}.

Definition conf (ds : list string) : Config :=
  {| pathMD := "-"; tinygo := "tinygo"; nWorkers := 0; checkOnly := false;
     verbose := false; dirs := ds |}.

Definition world (fs : list (string * string)) : World :=
  {| files := list_to_map fs; calls := [] |}.

(** A file in the printer's form, without a //go:build line. *)
Definition source : string :=
  LineSyntax.unlines ["// Copyright"; ""; "package main"; ""; "func main() {}"].

(** The same file with a //go:build line that lacks the clause. *)
Definition linuxOnly : string :=
  LineSyntax.unlines ["// Copyright"; ""; "//go:build linux"; "";
                      "package main"; ""; "func main() {}"].

(** A file with //go:build lines in two comment groups. *)
Definition twoGroups : string :=
  LineSyntax.unlines ["//go:build linux"; ""; "//go:build amd64"; "";
                      "package main"].

(** A file whose //go:build line has the clause after the conjunction. *)
Definition clauseLast : string :=
  LineSyntax.unlines ["//go:build linux && (!tinygo || tinygo.enable)"; "";
                      "package main"].

(** A file whose //go:build line is the clause, and the line twice. *)
Definition clauseOnly : string :=
  LineSyntax.unlines ["// Copyright"; ""; "//go:build !tinygo || tinygo.enable"; "";
                      "package main"].

(** The line the tool writes for a failing build of a linux-only file. *)
Definition conjoined : string :=
  LineSyntax.unlines ["// Copyright"; "";
                      "//go:build (!tinygo || tinygo.enable) && (linux)"; "";
                      "package main"].

Definition clauseTwice : string :=
  LineSyntax.unlines ["//go:build !tinygo || tinygo.enable";
                      "//go:build !tinygo || tinygo.enable"; "";
                      "package main"].

(** The first file with one more blank line after the header. *)
Definition looseSource : string :=
  LineSyntax.unlines ["// Copyright"; ""; ""; "package main"; ""; "func main() {}"].

Definition parsed (src : string) : File (list string) :=
  default {| Comments := []; Rest := [] |} (LineSyntax.parse src).

Definition mainGo : string := "cmds/demo/main.go".

End DemoHost.


(** ** The rest of [main.go]: worker count, tinygo version, [main] *)

(** The number of workers [buildDirs] starts, for [numCPU] the value of
    [runtime.NumCPU()]. *)
Definition workerCount (conf : Config) (numCPU : Z) : Z :=
  let jobs := Z.of_nat (length (dirs conf)) in
  let nWorkers0 := if (nWorkers conf <=? 0)%Z then numCPU else nWorkers conf in
  if (nWorkers0 >? jobs)%Z then jobs else nWorkers0.

(** Library functions and system calls around the report:
    [strings.TrimSpace]; [filepath.Dir]; [filepath.Rel], whose error the
    tool ignores; and whether [os.Create] succeeds on a path. *)
Record Platform := {
  TrimSpace : string -> string;
  DirOf : string -> string;
  Rel : string -> string -> string;
  Create : string -> bool
}.

(** [tinygoVersion]: trimmed output of "tinygo version". *)
Definition tinygoVersion (H : Host) (P : Platform) (tinygo : string)
    : string * option error :=
  let '(out, err) := CombinedOutput H {| Path := tinygo; Args := ["version"];
                                         Env := []; Dir := "" |} in
  match err with
  | Some e => ("", Some e)
  | None => (TrimSpace P out, None)
  end.

(** ** Report: [markdown.go] *)

Definition lf : string := String "010" "".
Definition dquote : string := String "034" "".

(** Lines, each ended by a newline. *)
Fixpoint text (ls : list string) : string :=
  match ls with
  | [] => ""
  | l :: ls' => l +:+ lf +:+ text ls'
  end.

(** [%v] of an [int] that is a length. *)
Definition decimal (n : nat) : string :=
  NilEmpty.string_of_uint (Nat.to_uint n).

(** [sort.Strings]: the increasing arrangement, bytes compared. *)
Definition sortStrings (l : list string) : list string :=
  merge_sort String.le l.

(** What [writeMarkdown] prints before the three lists. *)
Definition preamble (tgVersion : string) : string :=
  text ["---"; ""; "DO NOT EDIT."; "";
        "Generated via `go run tools/tinygoize/main.go`"; "";
        tgVersion; "";
        "---"; "";
        "# Status of u-root + tinygo";
        "This document aims to track the process of enabling all u-root commands";
        "to be built using tinygo. It will be updated as more commands can be built via:";
        "";
        "    u-root> go run tools/tinygoize/* cmds/{core,exp,extra}/*";
        "";
        "Commands that cannot be built with tinygo have a \" +:+ dquote +:+
          "(!tinygo || tinygo.enable)\" +:+ dquote;
        "build constraint. Specify the " +:+ dquote +:+ "tinygo.enable" +:+ dquote +:+
          " build tag to attempt to build";
        "them.";
        "";
        "    tinygo build -tags tinygo.enable cmds/core/ls";
        "";
        "The list below is the result of building each command for Linux, x86_64.";
        "";
        "The necessary additions to tinygo will be tracked in";
        "[#2979](https://github.com/u-root/u-root/issues/2979).";
        "";
        "---";
        "";
        "## Commands Build Status"].

Section Report.
Context (P : Platform) (pathMD : string).

(** [linkText] *)
Definition linkText (dir : string) : string :=
  "[" +:+ dir +:+ "](" +:+ Rel P (DirOf P pathMD) dir +:+ ")".

(** The line [processSet] prints for one directory. *)
Definition itemLine (dir : string) : string :=
  let msg := " - " +:+ linkText dir in
  let tags := buildTags dir in
  (if 0 <? String.length tags then msg +:+ " tags: " +:+ tags else msg) +:+ lf.

(** [processSet] *)
Definition processSet (header : string) (dirs : list string) : string :=
  lf +:+ "### " +:+ header +:+ " (" +:+ decimal (length dirs) +:+ " commands)" +:+ lf
  +:+ (match dirs with [] => "NONE" +:+ lf | _ => "" end)
  +:+ String.concat "" (map itemLine (sortStrings dirs)).

(** [writeMarkdown]: the text written to the report; the error result
    is never assigned. *)
Definition writeMarkdown (tgVersion : string) (status : BuildStatus)
    : string * option error :=
  (preamble tgVersion
   +:+ processSet "EXCLUDED" (excluded status)
   +:+ processSet "FAILING" (failing status)
   +:+ processSet "PASSING" (passing status),
   None).

End Report.

(** ** Workers whose results are never read *)

Section Late.
Context (G : GoSyntax) (H : Host).

(** A worker writes the files of its directory before it sends its
    result, and the collecting loop stops reading at the first result
    with an error; the process may also end while workers are at work.
    [lateTurn conf dir entries] is what such a worker has done when it
    has built [dir] and its loop in [fixupPkgConstraints] has gone
    through the first [entries] entries of the listing. *)
Definition lateTurn (conf : Config) (dir : string) (entries : nat) : M unit :=
  let '(br, err) := build H (tinygo conf) dir in
  if bool_decide (err = None) && negb (BuildRes.excluded br) then
    do record (CallFixupPkg dir (bool_decide (BuildRes.err br = None)) (checkOnly conf)) in
    match Glob H dir with
    | None => fatal
    | Some fs =>
        do fixupFiles G H (take entries fs) (bool_decide (BuildRes.err br = None))
                      (checkOnly conf) false in
        ret tt
    end
  else ret tt.

(** The work of all such workers, one after the other. *)
Fixpoint lateWork (conf : Config) (late : list (string * nat)) : M unit :=
  match late with
  | [] => ret tt
  | (dir, entries) :: late' =>
      do lateTurn conf dir entries in lateWork conf late'
  end.

(** The source files when [buildDirs] returns or the process ends in
    it: what the workers wrote whose results were read, then what the
    workers [late] wrote. *)
Definition filesAfter (conf : Config) (arrival : list string)
    (late : list (string * nat)) (w : World) : gmap string string :=
  files (worldOf (lateWork conf late (worldOf (buildDirs G H conf arrival w)))).

End Late.

(** ** [main] *)

(** Does the report go to a file? *)
Definition toFile (conf : Config) : bool :=
  (0 <? String.length (pathMD conf)) && negb (String.eqb (pathMD conf) "-").

(** [os.Create(conf.pathMD)]: the file is created, or truncated when it
    is there. *)
Definition created (conf : Config) (fs : gmap string string) : gmap string string :=
  if toFile conf then <[pathMD conf := ""]> fs else fs.

(** The report [doc] written through the handle [os.Create] returned:
    from the beginning of the file, over what the file holds by then. *)
Definition written (conf : Config) (doc : string) (fs : gmap string string)
    : gmap string string :=
  if toFile conf
  then <[pathMD conf := doc +:+ Strings.from (String.length doc)
                                  (default "" (fs !! pathMD conf))]> fs
  else fs.

(** How [main] ends: the exit status, the report when one was written,
    and the files as [main] and the workers whose results it read have
    left them; the writes of other workers are [lateWork]. *)
Record Ended := {
  status : Z;
  report : option string;
  sources : gmap string string
}.

(** [main], from the parsed flags [conf] on. [log.Fatal] and
    [os.Exit(1)] end with status 1, a panic with status 2. The file of
    the report is created before the builds start. *)
Definition main (G : GoSyntax) (H : Host) (P : Platform) (conf : Config)
    (arrival : list string) (w : World) : Ended :=
  match tinygoVersion H P (tinygo conf) with
  | (_, Some _) => {| status := 1; report := None; sources := files w |}
  | (tgVersion, None) =>
      if toFile conf && negb (Create P (pathMD conf))
      then {| status := 1; report := None; sources := files w |}
      else
        match buildDirs G H conf arrival
                {| files := created conf (files w); calls := calls w |} with
        | Exit w' => {| status := 1; report := None; sources := files w' |}
        | Panic w' => {| status := 2; report := None; sources := files w' |}
        | Ret (st, Some _) w' => {| status := 1; report := None; sources := files w' |}
        | Ret (st, None) w' =>
            match writeMarkdown P (pathMD conf) tgVersion st with
            | (_, Some _) => {| status := 1; report := None; sources := files w' |}
            | (doc, None) =>
                {| status := match modified st with [] => 0 | _ => 1 end;
                   report := Some doc;
                   sources := written conf doc (files w') |}
            end
        end
  end.
(** ** Vocabulary of the statements *)

(** What [ReplaceAllString] with the strip pattern leaves of a text. *)
Definition strip (t : string) : string := ReplaceAllString stripRe t "".

(** A conditional-build line, as the loop of the rewriter tests it. *)
Definition isAnn (c : Comment) : bool := Strings.HasPrefix (Text c) goBuild.

Definition noAnnotation (groups : list CommentGroup) : Prop :=
  Forall (fun cg => Forall (fun c => isAnn c = false) (List cg)) groups.

(** All comments of the file, in order. *)
Definition allComments (groups : list CommentGroup) : list Comment :=
  concat (map List groups).

(** A text without its leading white space. *)
Fixpoint dropSpace (t : string) : string :=
  match t with
  | String c t' => if is_space c then dropSpace t' else t
  | EmptyString => t
  end.

(** A comment that reads //go:build, with or without an expression: the
    lines the rewriter may edit or drop. Every other comment is a
    non-annotation comment. *)
Definition annotationLike (c : Comment) : bool :=
  Strings.HasPrefix (dropSpace (Text c)) "//go:build".

Definition otherComments (groups : list CommentGroup) : list Comment :=
  filter (fun c => annotationLike c = false) (allComments groups).

(** The first conditional-build line of the file. *)
Definition firstAnnotation (groups : list CommentGroup) : option Comment :=
  List.find isAnn (allComments groups).

(** The rewriter's [desired] of the specification is the negation of
    the argument [builds] of [fixupFileConstraints]. *)
Definition desired (builds : bool) : bool := negb builds.

(** The rewriter calls among [cs]: file, [builds], [checkonly]. *)
Definition fileCalls (cs : list Call) : list (string * bool * bool) :=
  flat_map (fun c => match c with
                     | CallFixupFile f b k => [(f, b, k)]
                     | _ => []
                     end) cs.

Definition pkgCalls (cs : list Call) : list (string * bool * bool) :=
  flat_map (fun c => match c with
                     | CallFixupPkg d b k => [(d, b, k)]
                     | _ => []
                     end) cs.

(** The same calls as the specification words them: file, [desired],
    check-only. *)
Definition editCalls (cs : list Call) : list (string * bool * bool) :=
  map (fun c => (fst (fst c), desired (snd (fst c)), snd c)) (fileCalls cs).

(** The files of [dir] that [fixupPkgConstraints] hands to the rewriter. *)
Definition isGo (f : string) : Prop := Strings.HasSuffix f ".go" = true.

Definition goFiles (H : Host) (dir : string) : list string :=
  filter isGo (default [] (Glob H dir)).

(** [d] is in one of the three sequences and in no other. *)
Definition inExactlyOne (d : string) (st : BuildStatus) : Prop :=
  (In d (passing st) /\ ~ In d (failing st) /\ ~ In d (excluded st))
  \/ (~ In d (passing st) /\ In d (failing st) /\ ~ In d (excluded st))
  \/ (~ In d (passing st) /\ ~ In d (failing st) /\ In d (excluded st)).

(** The sequence of the status that holds the components of an outcome. *)
Definition bucket (o : BuildOutcome) (st : BuildStatus) : list string :=
  match o with
  | Success => passing st
  | Failure => failing st
  | Excluded => excluded st
  | Fatal => []
  end.

(** The outcome a result without error is filed under. *)
Definition filedAs (r : WorkerResult.t) : BuildOutcome :=
  outcome (WorkerResult.buildRes r, None).

(** In write mode on a writable [file] that holds [b], the rewriter
    prints the edited file [f'], reports whether the text differs from
    [b], and leaves the text in [file]. *)
Definition writesBack (G : GoSyntax) (H : Host) (file : string) (builds : bool)
    (w : World) (b : string) (f' : File (Body G)) : Prop :=
  forall out, Fprint G f' = Some out -> writable H file = true ->
    exists w', fixupFileConstraints G H file builds false w
               = Ret (negb (String.eqb b out), None) w'
               /\ files w' = <[file := out]> (files w).

(** The states of the file in which the rewriter has nothing to do: the
    first annotation line agrees with [desired], or there is no
    annotation line, [desired] is false and the file is in the printer's
    form. *)
Definition noopState (G : GoSyntax) (builds : bool) (b : string)
    (f : File (Body G)) : Prop :=
  match firstAnnotation (Comments f) with
  | Some c => Strings.Contains (Text c) constraint = negb builds
  | None => builds = true /\ Fprint G f = Some b
  end.

(** A comment that is no annotation line, or one that agrees with
    [desired], so that the rewriter returns when it meets it. *)
Definition settled (builds : bool) (x : Comment) : Prop :=
  isAnn x = true -> Strings.Contains (Text x) constraint = negb builds.

(** The number of conditional-build lines in the file. *)
Definition annotationCount (groups : list CommentGroup) : nat :=
  length (List.filter isAnn (allComments groups)).

(** The annotation lines of [read] stem from those of [written] and
    have the clause when those have it, and [read] has an annotation
    line when [written] has one. A printer may normalize a //go:build
    line; this is what it has to keep. *)
Definition sameClauseState (written read : list Comment) : Prop :=
  (forall y, In y read -> isAnn y = true ->
     exists x, In x written /\ isAnn x = true
               /\ Strings.Contains (Text x) constraint
                  = Strings.Contains (Text y) constraint)
  /\ (Exists (fun x => isAnn x = true) written ->
      Exists (fun y => isAnn y = true) read).

(** Printing [f1] and parsing the text again gives a file with the
    annotation lines of [f1], in the sense above, that prints to the
    same text. *)
Definition reparses (G : GoSyntax) (f1 : File (Body G)) : Prop :=
  match Fprint G f1 with
  | Some out =>
      match ParseFile G out with
      | Some f2 =>
          sameClauseState (allComments (Comments f1)) (allComments (Comments f2))
          /\ Fprint G f2 = Some out
      | None => False
      end
  | None => True
  end.

(** ** Build constraint expressions *)

(** Modelled from the spec: the expression language of a conditional-build
    line, which is part of Go's library and not of this tool: "a boolean
    expression over named tags combined with &&/|| and optional
    parenthesization", with the negation the managed clause uses. *)
Inductive Expr : Type :=
| TagE (t : string)
| NotE (x : Expr)
| AndE (x y : Expr)
| OrE (x y : Expr).


Definition isTagByte (c : ascii) : bool :=
  let n := nat_of_ascii c in
  ((97 <=? n) && (n <=? 122)) || ((65 <=? n) && (n <=? 90))
  || ((48 <=? n) && (n <=? 57)) || Ascii.eqb c "_" || Ascii.eqb c ".".

Fixpoint allTagBytes (t : string) : bool :=
  match t with
  | EmptyString => true
  | String c t' => isTagByte c && allTagBytes t'
  end.

Definition isTag (t : string) : bool :=
  match t with
  | EmptyString => false
  | _ => allTagBytes t
  end.


(** Modelled from the spec: the text of an expression and the expression
    it stands for; [||] binds weaker than [&&], [!] applies to a tag or a
    parenthesized expression, blanks may surround tags and parentheses. *)
Inductive orExpr : string -> Expr -> Prop :=
| or_and s x : andExpr s x -> orExpr s x
| or_or s1 s2 x y :
    orExpr s1 x -> andExpr s2 y -> orExpr (s1 +:+ "||" +:+ s2) (OrE x y)
with andExpr : string -> Expr -> Prop :=
| and_not s x : notExpr s x -> andExpr s x
| and_and s1 s2 x y :
    andExpr s1 x -> notExpr s2 y -> andExpr (s1 +:+ "&&" +:+ s2) (AndE x y)
with notExpr : string -> Expr -> Prop :=
| not_atom s x : atomExpr s x -> notExpr s x
| not_not l s x :
    isBlank l = true -> atomExpr s x -> notExpr (l +:+ "!" +:+ s) (NotE x)
with atomExpr : string -> Expr -> Prop :=
| atom_tag l t r :
    isBlank l = true -> isTag t = true -> isBlank r = true ->
    atomExpr (l +:+ t +:+ r) (TagE t)
| atom_paren l s r x :
    isBlank l = true -> orExpr s x -> isBlank r = true ->
    atomExpr (l +:+ "(" +:+ s +:+ ")" +:+ r) x.

(** ** Proof steps that recur *)

(** Unfold one run of the rewriter down to the operations on the world. *)
Ltac unfold_rewriter :=
  unfold fixupFileConstraints, WriteFile, bind, record, ReadFile, storeFile,
    ret, fatal, panic; simpl.

(** ** Further vocabulary *)

(** Between two states of the source files only files that satisfy [P]
    differ, and such a file was there before and is there after. *)
Definition onlyChanges (P : string -> Prop) (fs fs' : gmap string string) : Prop :=
  forall path,
    fs' !! path = fs !! path
    \/ (P path /\ is_Some (fs !! path) /\ is_Some (fs' !! path)).

(** The components of [arrival] that come before the first one whose
    build is Fatal. *)
Fixpoint untilFatal (H : Host) (tinygo : string) (arrival : list string) : list string :=
  match arrival with
  | [] => []
  | d :: ds =>
      if decide (outcome (build H tinygo d) = Fatal) then []
      else d :: untilFatal H tinygo ds
  end.

(** The build was attempted and ran: Success or Failure. *)
Definition ranBuild (o : BuildOutcome) : Prop := o = Success \/ o = Failure.

(** The command [build] runs. *)
Definition tinygoCmd (tinygo dir : string) : Cmd :=
  {| Path := tinygo;
     Args := ["build"; "-tags";
              if String.eqb (buildTags dir) "" then "tinygo.enable"
              else "tinygo.enable," +:+ buildTags dir];
     Env := ["GOOS=linux"; "GOARCH=amd64"];
     Dir := dir |}.

(** Does the byte [c] occur in [s]? *)
Fixpoint hasByte (c : ascii) (s : string) : bool :=
  match s with
  | EmptyString => false
  | String x s' => Ascii.eqb x c || hasByte c s'
  end.

(** The files a run over [arrival] may rewrite: the .go files of the
    directories whose build ran. *)
Definition rewritable (H : Host) (tinygo : string) (arrival : list string)
    (path : string) : Prop :=
  exists d, In d arrival /\ ranBuild (outcome (build H tinygo d))
            /\ In path (goFiles H d).


(** Examples for the run as a whole. *)
Module DemoRun.

(** The report goes to a file in the working directory, which can be
    created; links are relative to that directory. *)
Definition platform : Platform :=
  {| TrimSpace := fun s => s; DirOf := fun _ => ".";
     Rel := fun _ target => target; Create := fun _ => true |}.

(** A host that answers "tinygo version", and on which the directory
    "cmds/gone" cannot be entered, so that no command starts there. *)
Definition host : Host :=
  {| CombinedOutput := fun c =>
       if bool_decide (Args c = ["version"])
       then ("tinygo version 0.30.0 linux/amd64", None)
       else if String.eqb (Dir c) "cmds/gone"
       then ("", Some (ErrOther "chdir cmds/gone: no such file or directory"))
       else DemoHost.run c;
     Glob := DemoHost.glob;
     writable := fun _ => true |}.

Definition checkConf (ds : list string) : Config :=
  {| pathMD := "-"; tinygo := "tinygo"; nWorkers := 0; checkOnly := true;
     verbose := false; dirs := ds |}.

(** A run that writes its report to the file TINYGO.md. *)
Definition fileConf (ds : list string) : Config :=
  {| pathMD := "TINYGO.md"; tinygo := "tinygo"; nWorkers := 0; checkOnly := false;
     verbose := false; dirs := ds |}.

(** Two components, the failing one without its //go:build line. *)
Definition tree : World :=
  DemoHost.world [("cmds/ok/main.go", DemoHost.source);
                  ("cmds/bad/main.go", DemoHost.source)].

(** The same components with the files as the tool leaves them. *)
Definition settledTree : World :=
  DemoHost.world
    [("cmds/ok/main.go", DemoHost.source);
     ("cmds/bad/main.go",
      LineSyntax.unlines ["// Copyright"; "";
                          "//go:build !tinygo || tinygo.enable"; "";
                          "package main"; ""; "func main() {}"])].

End DemoRun.

(** What the bare pattern asks of the text after the leading white
    space: //go:build, white space, end of text. *)
Definition afterSpaces (n : nat) (s : string) : option nat :=
  run (seq [word "//go:build"; Star CSpace; Eot]) true n s (fun n' _ => Some n').

(** The same configuration run with the flag -n. *)
Definition asCheck (conf : Config) : Config :=
  {| pathMD := pathMD conf; tinygo := tinygo conf; nWorkers := nWorkers conf;
     checkOnly := true; verbose := verbose conf; dirs := dirs conf |}.

(** Two computations end in the same way, with the same value when
    they return; the worlds they leave may differ. *)
Definition sameAnswer {A} (r1 r2 : Result A) : Prop :=
  match r1, r2 with
  | Ret a _, Ret b _ => a = b
  | Exit _, Exit _ => True
  | Panic _, Panic _ => True
  | _, _ => False
  end.

(** Two states of the source files hold the same text at the paths [l]. *)
Definition agreeOn (l : list string) (fs1 fs2 : gmap string string) : Prop :=
  forall path, In path l -> fs1 !! path = fs2 !! path.

(** The .go files the run may hand to the rewriter. *)
Definition allGoFiles (H : Host) (arrival : list string) : list string :=
  concat (map (goFiles H) arrival).

(** Induction over the four levels of the grammar at once. *)
Scheme orExpr_mut := Minimality for orExpr Sort Prop
  with andExpr_mut := Minimality for andExpr Sort Prop
  with notExpr_mut := Minimality for notExpr Sort Prop
  with atomExpr_mut := Minimality for atomExpr Sort Prop.
Combined Scheme expr_mutind from orExpr_mut, andExpr_mut, notExpr_mut, atomExpr_mut.

(** The last character of [s] that is not white space is the end of an
    operand: a byte of a tag or a closing parenthesis. *)
Definition endsInOperand (s : string) : Prop :=
  exists p c r, s = p +:+ String c r /\ isBlank r = true
                /\ (isTagByte c = true \/ c = ")"%char).
(** * Properties *)

(** ** The collecting loop *)

Lemma collect_app_error status before r after :
  WorkerResult.err r <> None ->
  collect status (before ++ r :: after) = collect status before.
Proof.
  intros Herr. revert status.
  induction before as [|x before IH]; intros status; simpl.
  - destruct (WorkerResult.err r); congruence.
  - destruct (WorkerResult.err x); [reflexivity | apply IH].
Qed.

(** C10: a result that carries an error is filed nowhere, and nothing
    after it is read: collecting [before ++ r :: after] gives the status
    collected from [before] alone, for every status accumulated so far. *)
Theorem collect_stops_at_error status before r after :
  WorkerResult.err r <> None ->
  collect status (before ++ r :: after) = collect status before
  /\ collect status (r :: after) = status.
Proof.
  intros Herr. split.
  - by apply collect_app_error.
  - simpl. destruct (WorkerResult.err r); congruence.
Qed.

(** C10, on three results of which the second carries an error. *)
Lemma collect_stops_at_error_witness :
  let ok := {| WorkerResult.dir := "cmds/ok"; WorkerResult.buildRes := BuildRes.zero;
               WorkerResult.didWork := true; WorkerResult.err := None |} in
  let bad := {| WorkerResult.dir := "cmds/bad"; WorkerResult.buildRes := BuildRes.zero;
                WorkerResult.didWork := true;
                WorkerResult.err := Some (ErrOther "no tinygo") |} in
  collect noStatus ([ok] ++ bad :: [ok]) = collect noStatus [ok]
  /\ collect noStatus (bad :: [ok]) = noStatus.
Proof.
  intros ok bad.
  apply (collect_stops_at_error noStatus [ok] bad [ok]).
  simpl. discriminate.
Defined.

(** ** The rewriter never returns an error, and logs its calls *)

Section ToolFacts.
Context (G : GoSyntax) (H : Host).

Lemma fixupFileConstraints_calls file builds chk w :
  exists ws,
    calls (worldOf (fixupFileConstraints G H file builds chk w))
    = calls w ++ CallFixupFile file builds chk :: ws
    /\ fileCalls ws = [] /\ pkgCalls ws = [].
Proof.
  unfold_rewriter.
  repeat case_match; simpl; simplify_eq;
    try (exists []; rewrite ?app_nil_r; done);
    try (eexists [_]; rewrite <- ?app_assoc; simpl; done).
Qed.

Lemma fixupFileConstraints_err file builds chk w a w' :
  fixupFileConstraints G H file builds chk w = Ret a w' -> snd a = None.
Proof.
  unfold_rewriter.
  repeat case_match; simpl; intros; simplify_eq; done.
Qed.

Lemma fileCalls_app a b : fileCalls (a ++ b) = fileCalls a ++ fileCalls b.
Proof. apply flat_map_app. Qed.

Lemma pkgCalls_app a b : pkgCalls (a ++ b) = pkgCalls a ++ pkgCalls b.
Proof. apply flat_map_app. Qed.

Lemma fixupFiles_calls fs builds chk : forall mdw w,
  exists new k,
    calls (worldOf (fixupFiles G H fs builds chk mdw w)) = calls w ++ new
    /\ pkgCalls new = []
    /\ fileCalls new = map (fun f => (f, builds, chk)) (take k (filter isGo fs))
    /\ (forall a w', fixupFiles G H fs builds chk mdw w = Ret a w' ->
          fileCalls new = map (fun f => (f, builds, chk)) (filter isGo fs)
          /\ snd a = None).
Proof.
  induction fs as [|f fs IH]; intros mdw w; simpl.
  - exists [], 0. rewrite app_nil_r. unfold ret.
    repeat split; intros; simplify_eq; done.
  - destruct (Strings.HasSuffix f ".go") eqn:Hgo; simpl.
    + rewrite filter_cons_True by done.
      unfold bind.
      destruct (fixupFileConstraints_calls f builds chk w) as (ws & Hc & Hf & Hp).
      destruct (fixupFileConstraints G H f builds chk w) as [a w1|w1|w1] eqn:Hrun;
        simpl in Hc.
      * pose proof (fixupFileConstraints_err _ _ _ _ _ _ Hrun) as Ha.
        rewrite Ha.
        destruct (IH (fst a || mdw) w1) as (new & k & Hc' & Hp' & Hf' & Hret).
        exists (CallFixupFile f builds chk :: ws ++ new), (S k).
        split; [rewrite Hc', Hc, <- app_assoc; done|].
        change (pkgCalls (CallFixupFile f builds chk :: ws ++ new))
          with (pkgCalls (ws ++ new)).
        change (fileCalls (CallFixupFile f builds chk :: ws ++ new))
          with ((f, builds, chk) :: fileCalls (ws ++ new)).
        rewrite pkgCalls_app, fileCalls_app, Hp, Hp', Hf, Hf'. simpl.
        split; [done|]. split; [done|].
        intros a' w'' Hr. destruct (Hret _ _ Hr) as [Hall Hn].
        rewrite <- Hall, Hf'. done.
      * exists (CallFixupFile f builds chk :: ws), 1.
        change (pkgCalls (CallFixupFile f builds chk :: ws)) with (pkgCalls ws).
        change (fileCalls (CallFixupFile f builds chk :: ws))
          with ((f, builds, chk) :: fileCalls ws).
        simpl. rewrite Hc, Hp, Hf. done.
      * exists (CallFixupFile f builds chk :: ws), 1.
        change (pkgCalls (CallFixupFile f builds chk :: ws)) with (pkgCalls ws).
        change (fileCalls (CallFixupFile f builds chk :: ws))
          with ((f, builds, chk) :: fileCalls ws).
        simpl. rewrite Hc, Hp, Hf. done.
    + rewrite filter_cons_False by (unfold isGo; congruence).
      apply IH.
Qed.

Lemma fixupPkgConstraints_calls dir builds chk w :
  exists new k,
    calls (worldOf (fixupPkgConstraints G H dir builds chk w))
    = calls w ++ CallFixupPkg dir builds chk :: new
    /\ pkgCalls new = []
    /\ fileCalls new = map (fun f => (f, builds, chk)) (take k (goFiles H dir))
    /\ (forall a w', fixupPkgConstraints G H dir builds chk w = Ret a w' ->
          fileCalls new = map (fun f => (f, builds, chk)) (goFiles H dir)
          /\ snd a = None).
Proof.
  unfold fixupPkgConstraints, goFiles, bind at 1, record. simpl.
  destruct (Glob H dir) as [fs|]; simpl.
  - set (w1 := {| files := files w; calls := calls w ++ [CallFixupPkg dir builds chk] |}).
    destruct (fixupFiles_calls fs builds chk false w1) as (new & k & Hc & Hp & Hf & Hret).
    exists new, k. rewrite Hc. simpl. rewrite <- app_assoc. simpl.
    repeat split; try done; apply (Hret _ _ H0).
  - exists [], 0. unfold fatal. simpl. repeat split; try done.
Qed.

(** What [worker] sends is determined by the build, up to [didWork]. *)
Lemma worker_result conf dir w r w' :
  worker G H conf dir w = Ret r w' ->
  WorkerResult.dir r = dir
  /\ WorkerResult.buildRes r = fst (build H (tinygo conf) dir)
  /\ WorkerResult.err r = snd (build H (tinygo conf) dir).
Proof.
  unfold worker.
  destruct (build H (tinygo conf) dir) as [br err] eqn:Hb. simpl.
  unfold bind.
  destruct (bool_decide (err = None) && negb (BuildRes.excluded br)) eqn:Hc.
  - apply andb_true_iff in Hc as [Herr _]. apply bool_decide_eq_true in Herr.
    destruct (fixupPkgConstraints G H dir _ _ w) as [a w1|w1|w1] eqn:Hrun; try done.
    destruct (fixupPkgConstraints_calls dir
                (bool_decide (BuildRes.err br = None)) (checkOnly conf) w)
      as (new & k & _ & _ & _ & Hret).
    destruct (Hret _ _ Hrun) as [_ Ha].
    unfold ret. intros; simplify_eq. simpl. rewrite Ha. done.
  - unfold ret. intros; simplify_eq. done.
Qed.

End ToolFacts.

(** ** The orchestrator *)

Lemma bucket_classify o st r :
  o <> Fatal ->
  bucket o (classify st r)
  = bucket o st ++ (if decide (filedAs r = o) then [WorkerResult.dir r] else []).
Proof.
  intros Ho. unfold classify, filedAs, outcome. simpl.
  destruct (BuildRes.excluded (WorkerResult.buildRes r)); simpl.
  - destruct (WorkerResult.didWork r), o; simpl;
      repeat case_decide; simplify_eq; rewrite ?app_nil_r; done.
  - destruct (BuildRes.err (WorkerResult.buildRes r)) eqn:He; simpl;
      repeat case_bool_decide; simplify_eq;
      destruct (WorkerResult.didWork r), o; simpl;
      repeat case_decide; simplify_eq; rewrite ?app_nil_r; done.
Qed.

Lemma collect_bucket o rs : forall st,
  o <> Fatal ->
  Forall (fun r => WorkerResult.err r = None) rs ->
  bucket o (collect st rs)
  = bucket o st ++ map WorkerResult.dir (filter (fun r => filedAs r = o) rs).
Proof.
  induction rs as [|r rs IH]; intros st Ho Hok; simpl.
  - by rewrite app_nil_r.
  - inversion Hok as [|? ? Hr Hrs]; subst. rewrite Hr.
    rewrite IH by done. rewrite bucket_classify by done.
    rewrite <- app_assoc. f_equal.
    rewrite filter_cons. case_decide; done.
Qed.

Section Orchestrator.
Context (G : GoSyntax) (H : Host).

Lemma received_results conf arrival : forall w rs w',
  Forall (fun d => outcome (build H (tinygo conf) d) <> Fatal) arrival ->
  received G H conf arrival w = Ret rs w' ->
  map WorkerResult.dir rs = arrival
  /\ Forall (fun r => WorkerResult.err r = None
                      /\ filedAs r = outcome (build H (tinygo conf) (WorkerResult.dir r))) rs.
Proof.
  induction arrival as [|d ds IH]; intros w rs w' Hok; simpl.
  - unfold ret. intros; simplify_eq. done.
  - inversion Hok as [|? ? Hd Hds]; subst.
    unfold bind.
    destruct (worker G H conf d w) as [r w1|w1|w1] eqn:Hw; try done.
    destruct (worker_result G H conf d w r w1 Hw) as (Hdir & Hres & Herr).
    assert (snd (build H (tinygo conf) d) = None) as Hnone.
    { unfold outcome in Hd. destruct (snd (build H (tinygo conf) d)); done. }
    rewrite Herr, Hnone.
    destruct (received G H conf ds w1) as [rs1 w2|w2|w2] eqn:Hr; try done.
    destruct (IH _ _ _ Hds Hr) as [Hmap Hall].
    unfold ret. intros; simplify_eq. simpl. split; [by f_equal|].
    constructor; [|done]. split; [congruence|].
    unfold filedAs. rewrite Hres.
    destruct (build H (tinygo conf) (WorkerResult.dir r)) as [br e].
    simpl in *. by subst.
Qed.

(** C1 (the code departs from it): [buildDirs] returns a nil error
    whatever the builds did. With a tinygo binary that cannot be
    started the build of the only component is Fatal, and the run
    returns the empty status and no error. *)
Theorem buildDirs_error_always_nil :
  (forall conf arrival w,
      match buildDirs G H conf arrival w with
      | Ret (_, e) _ => e = None
      | _ => True
      end)
  /\ (let conf := {| pathMD := "-"; tinygo := "no-such-tinygo"; nWorkers := 0;
                     checkOnly := false; verbose := false; dirs := ["cmds/ok"] |} in
      let w := DemoHost.world [] in
      outcome (build DemoHost.host (tinygo conf) "cmds/ok") = Fatal
      /\ buildDirs LineSyntax.syntax DemoHost.host conf ["cmds/ok"] w
         = Ret (noStatus, None) w).
Proof.
  split.
  - intros conf arrival w. unfold buildDirs, bind, ret.
    destruct (received G H conf arrival w); done.
  - vm_compute. done.
Qed.

(** C2: when no build is Fatal and the run returns, every component
    of the input is in exactly one of passing, failing and excluded,
    and it occurs in the three together as often as in the input. *)
Theorem buildDirs_classifies_each_once conf arrival w st e w' d :
  Permutation arrival (dirs conf) ->
  Forall (fun d => outcome (build H (tinygo conf) d) <> Fatal) (dirs conf) ->
  buildDirs G H conf arrival w = Ret (st, e) w' ->
  In d (dirs conf) ->
  inExactlyOne d st
  /\ count_occ string_dec (passing st ++ failing st ++ excluded st) d
     = count_occ string_dec (dirs conf) d.
Proof.
  intros Hperm Hok Hrun Hin.
  assert (Forall (fun d => outcome (build H (tinygo conf) d) <> Fatal) arrival) as Hok'.
  { rewrite Forall_forall in *. intros x Hx. apply Hok.
    rewrite <- list_elem_of_In in *. by rewrite <- Hperm. }
  unfold buildDirs, bind, ret in Hrun.
  destruct (received G H conf arrival w) as [rs w1|w1|w1] eqn:Hr; try done.
  simplify_eq.
  destruct (received_results conf arrival w rs w' Hok' Hr) as [Hmap Hall].
  assert (Forall (fun r => WorkerResult.err r = None) rs) as Herr.
  { eapply Forall_impl; [exact Hall|]. by intros r [? ?]. }
  assert (forall o, o <> Fatal ->
            bucket o (collect noStatus rs)
            = filter (fun x => outcome (build H (tinygo conf) x) = o) arrival) as Hb.
  { intros o Ho. rewrite collect_bucket by done.
    replace (bucket o noStatus) with (@nil string) by (by destruct o).
    simpl. rewrite <- Hmap. clear -Hall.
    induction Hall as [|r rs [_ Hr] _ IH]; [done|].
    change (map WorkerResult.dir (r :: rs))
      with (WorkerResult.dir r :: map WorkerResult.dir rs).
    rewrite !filter_cons, <- Hr, <- IH. case_decide; done. }
  assert (Success <> Fatal /\ Failure <> Fatal /\ Excluded <> Fatal)
    as (Hs1 & Hs2 & Hs3) by done.
  pose proof (Hb Success Hs1) as Hp.
  pose proof (Hb Failure Hs2) as Hf.
  pose proof (Hb Excluded Hs3) as Hx.
  simpl in Hp, Hf, Hx.
  assert (In d arrival) as Hin'.
  { rewrite <- list_elem_of_In in *. by rewrite Hperm. }
  assert (outcome (build H (tinygo conf) d) <> Fatal) as Hd.
  { rewrite Forall_forall in Hok. apply Hok. by apply list_elem_of_In. }
  split.
  - unfold inExactlyOne. rewrite Hp, Hf, Hx.
    assert (forall o, In d (filter (fun x => outcome (build H (tinygo conf) x) = o) arrival)
                      <-> outcome (build H (tinygo conf) d) = o) as Hiff.
    { intros o. rewrite <- list_elem_of_In, list_elem_of_filter, list_elem_of_In.
      tauto. }
    rewrite !Hiff.
    destruct (outcome (build H (tinygo conf) d)); [| | |done].
    + left. repeat split; discriminate.
    + right. left. repeat split; discriminate.
    + right. right. repeat split; discriminate.
  - rewrite Hp, Hf, Hx.
    pose proof (proj1 (Permutation_count_occ string_dec _ _) Hperm d) as Hcnt.
    rewrite <- Hcnt. clear -Hok'.
    induction Hok' as [|x xs Hx _ IH]; [done|].
    rewrite !filter_cons. rewrite !count_occ_app in IH.
    destruct (outcome (build H (tinygo conf) x));
      repeat case_decide; simplify_eq;
      rewrite !count_occ_app; simpl;
      destruct (string_dec x d); lia.
Qed.

End Orchestrator.

(** ** The worker *)

Section Worker.
Context (G : GoSyntax) (H : Host).

(** C9: what one turn of the worker calls, by the outcome of the
    build. On Success and Failure it calls [fixupPkgConstraints] once,
    and the rewriter on the .go files of the directory in order, with
    [desired] true exactly for Failure: on all of them when the turn
    completes, on a first part of them when the rewriter ends the
    process. On Excluded and Fatal it calls nothing and leaves the
    files as they are. *)
Theorem worker_edits_by_outcome conf dir w :
  let o := outcome (build H (tinygo conf) dir) in
  let r := worker G H conf dir w in
  exists new,
    calls (worldOf r) = calls w ++ new
    /\ match o with
       | Success | Failure =>
           pkgCalls new = [(dir, bool_decide (o = Success), checkOnly conf)]
           /\ (exists k,
                 editCalls new
                 = map (fun f => (f, bool_decide (o = Failure), checkOnly conf))
                       (take k (goFiles H dir)))
           /\ (forall a w', r = Ret a w' ->
                 editCalls new
                 = map (fun f => (f, bool_decide (o = Failure), checkOnly conf))
                       (goFiles H dir))
       | Excluded | Fatal => new = [] /\ files (worldOf r) = files w
       end.
Proof.
  intros o r. subst o r. unfold worker, outcome.
  destruct (build H (tinygo conf) dir) as [br err]. simpl.
  destruct err as [e|]; simpl.
  { exists []. rewrite app_nil_r. unfold bind, ret. simpl. done. }
  destruct (BuildRes.excluded br); simpl.
  { exists []. rewrite app_nil_r. unfold bind, ret. simpl. done. }
  set (builds := bool_decide (BuildRes.err br = None)).
  destruct (fixupPkgConstraints_calls G H dir builds (checkOnly conf) w)
    as (new & k & Hc & Hp & Hf & Hret).
  exists (CallFixupPkg dir builds (checkOnly conf) :: new).
  assert (calls (worldOf (bind (fixupPkgConstraints G H dir builds (checkOnly conf))
            (fun r => ret {| WorkerResult.dir := dir; WorkerResult.buildRes := br;
                             WorkerResult.didWork := fst r;
                             WorkerResult.err := snd r |}) w))
          = calls w ++ CallFixupPkg dir builds (checkOnly conf) :: new) as Hcalls.
  { unfold bind, ret.
    destruct (fixupPkgConstraints G H dir builds (checkOnly conf) w); exact Hc. }
  assert (forall b : bool,
            map (fun c : string * bool * bool =>
                   (fst (fst c), desired (snd (fst c)), snd c))
                (map (fun f : string => (f, b, checkOnly conf)) (goFiles H dir))
            = map (fun f => (f, negb b, checkOnly conf)) (goFiles H dir)) as Hmap.
  { intros b. rewrite map_map. done. }
  assert (forall (b : bool) n,
            map (fun c : string * bool * bool =>
                   (fst (fst c), desired (snd (fst c)), snd c))
                (map (fun f : string => (f, b, checkOnly conf)) (take n (goFiles H dir)))
            = map (fun f => (f, negb b, checkOnly conf)) (take n (goFiles H dir)))
    as Hmapk.
  { intros b n. rewrite map_map. done. }
  assert (forall a w',
            bind (fixupPkgConstraints G H dir builds (checkOnly conf))
              (fun r => ret {| WorkerResult.dir := dir; WorkerResult.buildRes := br;
                               WorkerResult.didWork := fst r;
                               WorkerResult.err := snd r |}) w = Ret a w' ->
            fileCalls new = map (fun f => (f, builds, checkOnly conf)) (goFiles H dir))
    as Hall.
  { intros a w'. unfold bind, ret.
    destruct (fixupPkgConstraints G H dir builds (checkOnly conf) w) eqn:Hrun;
      [|done..].
    intros _. by destruct (Hret _ _ eq_refl). }
  split; [exact Hcalls|].
  unfold editCalls.
  change (fileCalls (CallFixupPkg dir builds (checkOnly conf) :: new))
    with (fileCalls new).
  change (pkgCalls (CallFixupPkg dir builds (checkOnly conf) :: new))
    with ((dir, builds, checkOnly conf) :: pkgCalls new).
  rewrite Hp, Hf.
  subst builds.
  destruct (BuildRes.err br) as [ee|].
  - split; [reflexivity|]. split.
    + exists k. exact (Hmapk false k).
    + intros a w' Hr. rewrite <- Hf, (Hall _ _ Hr). exact (Hmap false).
  - split; [reflexivity|]. split.
    + exists k. exact (Hmapk true k).
    + intros a w' Hr. rewrite <- Hf, (Hall _ _ Hr). exact (Hmap true).
Qed.

End Worker.

(** C2, on the demonstration host: three components, arriving in another
    order than they were given. *)
Lemma buildDirs_classifies_each_once_witness :
  inExactlyOne "cmds/bad"
    {| passing := ["cmds/ok"]; failing := ["cmds/bad"];
       excluded := ["cmds/plan9"]; modified := ["cmds/bad"] |}
  /\ count_occ string_dec (["cmds/ok"] ++ ["cmds/bad"] ++ ["cmds/plan9"]) "cmds/bad"
     = count_occ string_dec ["cmds/ok"; "cmds/bad"; "cmds/plan9"] "cmds/bad".
Proof.
  refine (buildDirs_classifies_each_once LineSyntax.syntax DemoHost.host
            (DemoHost.conf ["cmds/ok"; "cmds/bad"; "cmds/plan9"])
            ["cmds/bad"; "cmds/ok"; "cmds/plan9"]
            (DemoHost.world [("cmds/ok/main.go", DemoHost.source);
                             ("cmds/bad/main.go", DemoHost.source)])
            {| passing := ["cmds/ok"]; failing := ["cmds/bad"];
               excluded := ["cmds/plan9"]; modified := ["cmds/bad"] |}
            None
            (worldOf (buildDirs LineSyntax.syntax DemoHost.host
                        (DemoHost.conf ["cmds/ok"; "cmds/bad"; "cmds/plan9"])
                        ["cmds/bad"; "cmds/ok"; "cmds/plan9"]
                        (DemoHost.world [("cmds/ok/main.go", DemoHost.source);
                                         ("cmds/bad/main.go", DemoHost.source)])))
            "cmds/bad" _ _ _ _).
  - apply perm_swap.
  - repeat constructor; vm_compute; discriminate.
  - vm_compute. reflexivity.
  - simpl. tauto.
Defined.

(** ** The two patterns *)

Lemma star_ext k n s cont cont' :
  (forall n' s', cont n' s' = cont' n' s') ->
  star k n s cont = star k n s cont'.
Proof.
  intros Hext. revert n.
  induction s as [|c s IH]; intros n; simpl; [apply Hext|].
  rewrite (IH (S n)), Hext. reflexivity.
Qed.

(** A pattern without [^] matches the same way wherever the match starts. *)
Lemma run_noBot r : forall b b' n s cont cont',
  noBot r = true ->
  (forall n' s', cont n' s' = cont' n' s') ->
  run r b n s cont = run r b' n s cont'.
Proof.
  induction r as [| k | | r1 IH1 r2 IH2 | r1 IH1 | k | k | |];
    intros b b' n s cont cont' Hnb Hext; simpl in *; try discriminate.
  - apply Hext.
  - destruct s as [|c s]; [reflexivity|]. rewrite Hext. reflexivity.
  - destruct s as [|c s]; [reflexivity|]. rewrite Hext. reflexivity.
  - apply andb_true_iff in Hnb as [H1 H2].
    apply IH1; [exact H1|]. intros n' s'. apply IH2; assumption.
  - rewrite (IH1 b b' n s cont cont' Hnb Hext), Hext. reflexivity.
  - apply star_ext. exact Hext.
  - destruct s as [|c s]; [reflexivity|].
    rewrite (star_ext k (S n) s cont cont' Hext). reflexivity.
  - destruct s; [apply Hext | reflexivity].
Qed.

Lemma star_progress k s : forall n cont e,
  star k n s cont = Some e ->
  exists n' s', n <= n' /\ cont n' s' = Some e.
Proof.
  induction s as [|c s IH]; intros n cont e; simpl.
  - intros Hc. exists n, EmptyString. split; [lia | exact Hc].
  - destruct (in_class k c).
    + destruct (star k (S n) s cont) as [e'|] eqn:Hs.
      * intros He. injection He as <-.
        destruct (IH _ _ _ Hs) as (n' & s' & Hle & Hc).
        exists n', s'. split; [lia | exact Hc].
      * intros Hc. exists n, (String c s). split; [lia | exact Hc].
    + intros Hc. exists n, (String c s). split; [lia | exact Hc].
Qed.

Lemma runeLen_pos c s : 1 <= runeLen (String c s).
Proof. unfold runeLen. repeat case_match; lia. Qed.

(** A match ends where its continuation accepts, at least [minLen r]
    bytes after it started. *)
Lemma run_minLen r : forall b n s cont e,
  run r b n s cont = Some e ->
  exists n' s', n + minLen r <= n' /\ cont n' s' = Some e.
Proof.
  induction r as [| k | | r1 IH1 r2 IH2 | r1 IH1 | k | k | |];
    intros b n s cont e; simpl.
  - intros Hc. exists n, s. split; [lia | exact Hc].
  - destruct s as [|c s]; [discriminate|].
    destruct (in_class k c); [|discriminate].
    intros Hc. exists (S n), s. split; [lia | exact Hc].
  - destruct s as [|c s]; [discriminate|].
    destruct (Ascii.eqb c "010"); [discriminate|].
    intros Hc. eexists _, _. split; [|exact Hc].
    pose proof (runeLen_pos c s). simpl minLen. lia.
  - intros Hr. destruct (IH1 _ _ _ _ _ Hr) as (n1 & s1 & Hle1 & Hr2).
    destruct (IH2 _ _ _ _ _ Hr2) as (n2 & s2 & Hle2 & Hc).
    exists n2, s2. split; [lia | exact Hc].
  - destruct (run r1 b n s cont) as [e'|] eqn:Hr.
    + intros He. injection He as <-.
      destruct (IH1 _ _ _ _ _ Hr) as (n1 & s1 & Hle1 & Hc).
      exists n1, s1. split; [lia | exact Hc].
    + intros Hc. exists n, s. split; [lia | exact Hc].
  - intros Hs. destruct (star_progress _ _ _ _ _ Hs) as (n' & s' & Hle & Hc).
    exists n', s'. split; [lia | exact Hc].
  - destruct s as [|c s]; [discriminate|].
    destruct (in_class k c); [|discriminate].
    intros Hs. destruct (star_progress _ _ _ _ _ Hs) as (n' & s' & Hle & Hc).
    exists n', s'. split; [lia | exact Hc].
  - destruct (b && (n =? 0)); [|discriminate].
    intros Hc. exists n, s. split; [lia | exact Hc].
  - destruct s; [|discriminate].
    intros Hc. exists n, EmptyString. split; [lia | exact Hc].
Qed.

(** The strip pattern needs its clause, so it never matches the empty text. *)
Lemma stripRe_nonempty b s : matchAt stripRe b s <> Some 0.
Proof.
  unfold matchAt. intros Hr.
  apply run_minLen in Hr as (n' & s' & Hle & He).
  injection He as ->. vm_compute in Hle. lia.
Qed.

Lemma matchAt_strip_noBot b b' s : matchAt stripRe b s = matchAt stripRe b' s.
Proof. unfold matchAt. apply run_noBot; reflexivity. Qed.

(** Stripping goes on in the same way after a match and away from the
    beginning of the text. *)
Lemma replaceFrom_strip s : forall b a b' a' skip,
  replaceFrom stripRe "" b a skip s = replaceFrom stripRe "" b' a' skip s.
Proof.
  induction s as [|c s IH]; intros b a b' a' skip.
  - destruct skip as [|n]; cbn [replaceFrom]; [|reflexivity].
    rewrite (matchAt_strip_noBot b b').
    destruct (matchAt stripRe b' "") as [[|n]|] eqn:Hm; try reflexivity.
    exfalso. exact (stripRe_nonempty _ _ Hm).
  - destruct skip as [|n]; cbn [replaceFrom]; [|apply IH].
    rewrite (matchAt_strip_noBot b b').
    destruct (matchAt stripRe b' (String c s)) as [[|n]|] eqn:Hm.
    + exfalso. exact (stripRe_nonempty _ _ Hm).
    + reflexivity.
    + reflexivity.
Qed.

Lemma replaceFrom_is_strip b a s : replaceFrom stripRe "" b a 0 s = strip s.
Proof. apply replaceFrom_strip. Qed.

(** An annotation line keeps its //go:build under stripping; what follows
    is the stripped remainder. *)
Lemma strip_goBuild E :
  strip (goBuild +:+ E) = "//go:build" +:+ strip (" " +:+ E).
Proof.
  rewrite <- (replaceFrom_is_strip false false (" " +:+ E)). reflexivity.
Qed.

(** The shape the tool writes: the clause in parentheses, then [&&]. *)
Lemma strip_leading_clause rest :
  strip (goBuild +:+ "(" +:+ constraint +:+ ") &&" +:+ rest) = goBuild +:+ strip rest.
Proof.
  rewrite <- (replaceFrom_is_strip false true rest). reflexivity.
Qed.

(** The clause alone. *)
Lemma strip_exact_clause : strip (goBuild +:+ constraint) = "//go:build".
Proof. reflexivity. Qed.

(** The bare pattern: //go:build and white space, nothing else. *)
Lemma star_space_eot n ws :
  star CSpace n ws (fun n' s' => match s' with
                                 | EmptyString => Some n'
                                 | String _ _ => None
                                 end)
  = if isBlank ws then Some (n + String.length ws) else None.
Proof.
  revert n. induction ws as [|c ws IH]; intros n; simpl.
  - f_equal. lia.
  - rewrite IH. destruct (is_space c); simpl; [|reflexivity].
    destruct (isBlank ws); [f_equal; lia | reflexivity].
Qed.

Lemma matchFrom_unfold r b s :
  matchFrom r b s
  = match matchAt r b s with
    | Some _ => true
    | None => match s with
              | EmptyString => false
              | String _ s' => matchFrom r false s'
              end
    end.
Proof. destruct s; reflexivity. Qed.

Lemma matchFrom_bare_later t : matchFrom bareRe false t = false.
Proof. induction t as [|c t IH]; simpl; [reflexivity | exact IH]. Qed.

Lemma bare_goBuild ws :
  MatchString bareRe ("//go:build" +:+ ws) = isBlank ws.
Proof.
  unfold MatchString. rewrite matchFrom_unfold.
  replace (matchAt bareRe true ("//go:build" +:+ ws))
    with (star CSpace 10 ws (fun n' s' => match s' with
                                          | EmptyString => Some n'
                                          | String _ _ => None
                                          end)) by reflexivity.
  rewrite star_space_eot. destruct (isBlank ws); [reflexivity|].
  apply matchFrom_bare_later.
Qed.

Lemma run_word_prefix w : forall b n s cont,
  run (word w) b n s cont <> None -> Strings.HasPrefix s w = true.
Proof.
  induction w as [|c w IH]; intros b n s cont; simpl; [reflexivity|].
  destruct s as [|ch s]; [congruence|].
  destruct (Ascii.eqb ch c); [|congruence].
  simpl. apply IH.
Qed.

Lemma star_space_goBuild (cont : nat -> string -> option nat) :
  (forall n s, cont n s <> None -> Strings.HasPrefix s "//go:build" = true) ->
  forall t n, star CSpace n t cont <> None ->
              Strings.HasPrefix (dropSpace t) "//go:build" = true.
Proof.
  intros Hcont. induction t as [|ch t IH]; intros n.
  - simpl. apply Hcont.
  - cbn [star dropSpace in_class].
    destruct (is_space ch) eqn:Hsp.
    + destruct (star CSpace (S n) t cont) eqn:Hs.
      * intros _. apply (IH (S n)). rewrite Hs. discriminate.
      * intros Hk. apply Hcont in Hk. simpl in Hk.
        destruct (Ascii.eqb ch "/") eqn:Hsl; [|discriminate].
        apply Ascii.eqb_eq in Hsl. subst ch. discriminate.
    + apply Hcont.
Qed.

(** Only a comment that reads //go:build matches the bare pattern. *)
Lemma bare_annotationLike c :
  MatchString bareRe (Text c) = true -> annotationLike c = true.
Proof.
  unfold annotationLike, MatchString. rewrite matchFrom_unfold.
  destruct (matchAt bareRe true (Text c)) eqn:Hm.
  - intros _.
    apply (star_space_goBuild
             (fun n' s' => run (word "//go:build") true n' s'
                             (fun n1 s1 => run (seq [Star CSpace; Eot]) true n1 s1
                                             (fun n0 _ => Some n0)))
             ltac:(intros n0 s0; apply run_word_prefix) (Text c) 0).
    unfold matchAt in Hm.
    change (run bareRe true 0 (Text c) (fun n _ => Some n))
      with (star CSpace 0 (Text c)
              (fun n' s' => run (word "//go:build") true n' s'
                              (fun n1 s1 => run (seq [Star CSpace; Eot]) true n1 s1
                                              (fun n0 _ => Some n0)))) in Hm.
    rewrite Hm. discriminate.
  - destruct (Text c); [discriminate|]. rewrite matchFrom_bare_later. discriminate.
Qed.

(** ** The loops of the rewriter *)

Lemma fixupList_skip builds pre : forall before todo,
  Forall (fun c => isAnn c = false) pre ->
  fixupList builds before (pre ++ todo) = fixupList builds (before ++ pre) todo.
Proof.
  induction pre as [|c pre IH]; intros before todo Hpre.
  - by rewrite app_nil_r.
  - inversion Hpre as [|? ? Hc Hrest]; subst.
    rewrite <- app_comm_cons. cbn [fixupList].
    unfold isAnn in Hc. rewrite Hc. cbn [negb].
    rewrite IH by done. by rewrite <- app_assoc.
Qed.

Lemma fixupList_none builds todo before :
  Forall (fun c => isAnn c = false) todo ->
  fixupList builds before todo = Finished.
Proof.
  intros Hno. rewrite <- (app_nil_r todo).
  rewrite fixupList_skip by done. reflexivity.
Qed.

(** A group without annotation is passed over; the loop goes on. *)
Lemma fixupGroups_none builds groups : forall present,
  noAnnotation groups ->
  fixupGroups builds groups present = Some (groups, present).
Proof.
  induction groups as [|cg groups IH]; intros present Hno; simpl; [done|].
  inversion Hno as [|? ? Hcg Hrest]; subst.
  rewrite fixupList_none by done. by rewrite IH.
Qed.

Lemma fixupGroups_app builds before : forall groups present,
  noAnnotation before ->
  fixupGroups builds (before ++ groups) present
  = match fixupGroups builds groups present with
    | Some (gs, p) => Some (before ++ gs, p)
    | None => None
    end.
Proof.
  induction before as [|cg before IH]; intros groups present Hno; simpl.
  - by destruct (fixupGroups builds groups present) as [[? ?]|].
  - inversion Hno as [|? ? Hcg Hrest]; subst.
    rewrite fixupList_none by done. rewrite IH by done.
    by destruct (fixupGroups builds groups present) as [[? ?]|].
Qed.

(** The first annotation line of a group, reached after [pre]. *)
Lemma fixupList_first builds pre c post :
  Forall (fun c => isAnn c = false) pre ->
  isAnn c = true ->
  fixupList builds [] (pre ++ c :: post)
  = let contains := Strings.Contains (Text c) constraint in
    if (builds && negb contains) || (negb builds && contains) then Returned
    else if builds then
      if MatchString bareRe (strip (Text c))
      then Broke (filter notBare (pre ++ setText c (strip (Text c)) :: post))
      else Broke (pre ++ setText c (strip (Text c)) :: post)
    else Broke (pre ++ setText c (goBuild +:+ "(" +:+ constraint +:+ ") && (" +:+
                                  Strings.from (String.length goBuild) (Text c) +:+ ")")
                    :: post).
Proof.
  intros Hpre Hc. rewrite fixupList_skip by done. cbn [fixupList app].
  unfold isAnn in Hc. rewrite Hc. reflexivity.
Qed.

Lemma from_goBuild E : Strings.from (String.length goBuild) (goBuild +:+ E) = E.
Proof. reflexivity. Qed.

Lemma isAnn_goBuild c E : Text c = goBuild +:+ E -> isAnn c = true.
Proof. unfold isAnn. intros ->. reflexivity. Qed.

(** ** From the edited file to the file on disk *)

Lemma fixupFile_upToDate G H file builds chk w b f :
  files w !! file = Some b ->
  ParseFile G b = Some f ->
  fixupAst builds f = UpToDate ->
  fixupFileConstraints G H file builds chk w
  = Ret (false, None)
        {| files := files w; calls := calls w ++ [CallFixupFile file builds chk] |}.
Proof.
  intros Hb Hf He.
  unfold_rewriter. rewrite Hb, Hf, He. reflexivity.
Qed.

Lemma fixupFile_unchanged G H file builds chk w b f f' :
  files w !! file = Some b ->
  ParseFile G b = Some f ->
  fixupAst builds f = Edited f' ->
  Fprint G f' = Some b ->
  fixupFileConstraints G H file builds chk w
  = Ret (false, None)
        {| files := files w; calls := calls w ++ [CallFixupFile file builds chk] |}.
Proof.
  intros Hb Hf He Hp.
  unfold_rewriter. rewrite Hb, Hf, He, Hp, String.eqb_refl. reflexivity.
Qed.

Lemma fixupFile_changed G H file builds w b f f' out :
  files w !! file = Some b ->
  ParseFile G b = Some f ->
  fixupAst builds f = Edited f' ->
  Fprint G f' = Some out ->
  out <> b ->
  writable H file = true ->
  fixupFileConstraints G H file builds false w
  = Ret (true, None)
        {| files := <[file := out]> (files w);
           calls := calls w ++ [CallFixupFile file builds false; CallWriteFile file out] |}.
Proof.
  intros Hb Hf He Hp Hne Hw.
  unfold_rewriter. rewrite Hb, Hf, He, Hp, Hw.
  destruct (String.eqb b out) eqn:Heq.
  - apply String.eqb_eq in Heq. congruence.
  - simpl. rewrite <- app_assoc. reflexivity.
Qed.

Lemma fixupFile_writesBack G H file builds w b f f' :
  files w !! file = Some b ->
  ParseFile G b = Some f ->
  fixupAst builds f = Edited f' ->
  writesBack G H file builds w b f'.
Proof.
  intros Hb Hf He out Hp Hw.
  destruct (String.eqb b out) eqn:Heq.
  - apply String.eqb_eq in Heq. subst out.
    eexists. split; [by eapply fixupFile_unchanged|].
    simpl. symmetry. by apply insert_id.
  - eexists. split.
    + eapply fixupFile_changed; try done.
      intros ->. by rewrite String.eqb_refl in Heq.
    + reflexivity.
Qed.

(** ** Inserting, conjoining and stripping *)



Section Edits.
Context (G : GoSyntax) (H : Host).

(** C8: without a //go:build line and with [desired] true, the file gets
    a new comment group that holds the line with exactly the clause: right
    after the first comment group when there is one, as the only group
    otherwise; in write mode the printed file is what the file then holds. *)
Theorem fixup_inserts_annotation file w b (f : File (Body G)) :
  files w !! file = Some b ->
  ParseFile G b = Some f ->
  noAnnotation (Comments f) ->
  match Comments f with
  | [] =>
      let line := {| Slash := 0; Text := "//go:build !tinygo || tinygo.enable" |} in
      let f' := {| Comments := [ {| List := [line] |} ]; Rest := Rest f |} in
      fixupAst false f = Edited f' /\ writesBack G H file false w b f'
  | first :: rest =>
      match List first with
      | c0 :: _ =>
          let line := {| Slash := Slash c0 + 1;
                         Text := "//go:build !tinygo || tinygo.enable" |} in
          let f' := {| Comments := first :: {| List := [line] |} :: rest;
                       Rest := Rest f |} in
          fixupAst false f = Edited f' /\ writesBack G H file false w b f'
      | [] => fixupAst false f = IndexPanic
      end
  end.
Proof.
  intros Hb Hf Hno.
  assert (fixupAst false f
          = match insertGoBuild (Comments f) with
            | Some groups' => Edited {| Comments := groups'; Rest := Rest f |}
            | None => IndexPanic
            end) as Hast.
  { unfold fixupAst. rewrite fixupGroups_none by done. reflexivity. }
  destruct (Comments f) as [|first rest] eqn:Hcs; simpl in Hast.
  - split; [exact Hast|]. by eapply fixupFile_writesBack.
  - destruct (List first) as [|c0 cs] eqn:Hl; [exact Hast|].
    split; [exact Hast|]. by eapply fixupFile_writesBack.
Qed.


(** The rows of the table that end in [return]: the first annotation
    line of the file agrees with [desired]. *)
Lemma fixupGroups_returns builds groups : forall present c,
  firstAnnotation groups = Some c ->
  Strings.Contains (Text c) constraint = negb builds ->
  fixupGroups builds groups present = None.
Proof.
  induction groups as [|cg groups IH]; intros present c; [discriminate|].
  unfold firstAnnotation, allComments. cbn [map concat fixupGroups].
  intros Hfind Hcontains.
  destruct (List.find isAnn (List cg)) as [c1|] eqn:Hc1.
  - apply find_some in Hc1 as Hc1'. destruct Hc1' as [Hin Hann].
    assert (exists pre post, List cg = pre ++ c1 :: post
                             /\ Forall (fun x => isAnn x = false) pre)
      as (pre & post & Hsplit & Hpre).
    { clear -Hc1. induction (List cg) as [|x xs IHx]; [discriminate|].
      simpl in Hc1. destruct (isAnn x) eqn:Hx.
      - injection Hc1 as ->. exists [], xs. split; [done | constructor].
      - destruct (IHx Hc1) as (pre & post & -> & Hpre).
        exists (x :: pre), post. split; [done | by constructor]. }
    assert (c = c1) as ->.
    { rewrite Hsplit in Hfind. clear -Hfind Hpre Hann.
      induction Hpre as [|x pre Hx _ IHp]; simpl in Hfind.
      - rewrite Hann in Hfind. congruence.
      - rewrite Hx in Hfind. by apply IHp. }
    rewrite Hsplit, fixupList_first by done. cbn zeta. rewrite Hcontains.
    by destruct builds.
  - assert (Forall (fun x => isAnn x = false) (List cg)) as Hno.
    { apply Forall_forall. intros x Hx. apply list_elem_of_In in Hx.
      apply (find_none _ _ Hc1 x Hx). }
    rewrite fixupList_none by done.
    assert (List.find isAnn (concat (map List groups)) = Some c) as Hrest.
    { clear -Hfind Hno. induction Hno as [|x xs Hx _ IHx]; [exact Hfind|].
      simpl in Hfind. rewrite Hx in Hfind. by apply IHx. }
    by rewrite (IH present c Hrest Hcontains).
Qed.

End Edits.

(** C8, on a file with a copyright header and no //go:build line. *)
Lemma fixup_inserts_annotation_witness :
  let w := DemoHost.world [(DemoHost.mainGo, DemoHost.source)] in
  exists f',
    fixupAst false (DemoHost.parsed DemoHost.source) = Edited f'
    /\ writesBack LineSyntax.syntax DemoHost.host DemoHost.mainGo false w
         DemoHost.source f'
    /\ map (fun cg => map Text (List cg)) (Comments f')
       = [["// Copyright"]; ["//go:build !tinygo || tinygo.enable"]].
Proof.
  intros w.
  pose proof (fixup_inserts_annotation LineSyntax.syntax DemoHost.host
                DemoHost.mainGo w DemoHost.source
                (DemoHost.parsed DemoHost.source) eq_refl eq_refl
                ltac:(repeat constructor)) as Hw.
  destruct Hw as [Hast Hback].
  eexists. split; [exact Hast|]. split; [exact Hback|]. reflexivity.
Defined.


(** ** More than one //go:build line *)

(** C6 (the code departs from it): [break] leaves the loop over one
    comment group only, so the first //go:build line of every later
    group is edited as well: with [desired] true both lines of a file
    with two such groups are conjoined with the clause and written back;
    and a later group whose line already has the clause ends the function
    before the first line, which lacks it, is written. *)
Theorem later_groups_are_edited_too :
  (let f := DemoHost.parsed DemoHost.twoGroups in
   map (fun cg => map Text (List cg)) (Comments f)
   = [["//go:build linux"]; ["//go:build amd64"]]
   /\ exists f',
       fixupAst false f = Edited f'
       /\ map (fun cg => map Text (List cg)) (Comments f')
          = [["//go:build (!tinygo || tinygo.enable) && (linux)"];
             ["//go:build (!tinygo || tinygo.enable) && (amd64)"]])
  /\ (exists w',
        fixupFileConstraints LineSyntax.syntax DemoHost.host DemoHost.mainGo false false
          (DemoHost.world [(DemoHost.mainGo, DemoHost.twoGroups)])
        = Ret (true, None) w'
        /\ files w' !! DemoHost.mainGo
           = Some (LineSyntax.unlines
                     ["//go:build (!tinygo || tinygo.enable) && (linux)"; "";
                      "//go:build (!tinygo || tinygo.enable) && (amd64)"; "";
                      "package main"]))
  /\ fixupAst false
       {| Comments := [ {| List := [ {| Slash := 1; Text := "//go:build linux" |} ] |};
                        {| List := [ {| Slash := 19;
                                        Text := "//go:build !tinygo || tinygo.enable" |} ] |} ];
          Rest := ["package main"] |}
     = UpToDate.
Proof.
  split; [|split].
  - split; [reflexivity|]. eexists. split; reflexivity.
  - eexists. split; [vm_compute; reflexivity|]. vm_compute. reflexivity.
  - reflexivity.
Qed.

(** ** What an edit leaves alone *)

Lemma HasPrefix_split p : forall t,
  Strings.HasPrefix t p = true -> exists E, t = p +:+ E.
Proof.
  induction p as [|c p IH]; intros t; simpl.
  - intros _. by exists t.
  - destruct t as [|ch t]; [discriminate|].
    intros Hp. apply andb_true_iff in Hp as [Hc Ht].
    apply Ascii.eqb_eq in Hc. subst ch.
    destruct (IH t Ht) as [E ->]. by exists E.
Qed.

Lemma isAnn_text c : isAnn c = true -> exists E, Text c = goBuild +:+ E.
Proof. apply HasPrefix_split. Qed.

Lemma annotationLike_goBuild c x :
  Text c = "//go:build" +:+ x -> annotationLike c = true.
Proof. unfold annotationLike. intros ->. reflexivity. Qed.

Lemma filter_other_notBare (l : list Comment) :
  filter (fun c => annotationLike c = false) (filter notBare l)
  = filter (fun c => annotationLike c = false) l.
Proof.
  induction l as [|x l IH]; [reflexivity|].
  rewrite (filter_cons notBare). case_decide as Hnb.
  - rewrite !filter_cons, IH. reflexivity.
  - rewrite IH, filter_cons_False; [reflexivity|].
    unfold notBare in Hnb. apply negb_prop_classical in Hnb.
    apply Is_true_true in Hnb. rewrite (bare_annotationLike _ Hnb). discriminate.
Qed.

Lemma fixupList_frame builds todo : forall before list',
  fixupList builds before todo = Broke list' ->
  filter (fun c => annotationLike c = false) list'
  = filter (fun c => annotationLike c = false) (before ++ todo).
Proof.
  induction todo as [|c after IH]; intros before list'; [discriminate|].
  cbn [fixupList].
  destruct (Strings.HasPrefix (Text c) goBuild) eqn:Hann; cbn [negb].
  2:{ intros Hr. rewrite (IH _ _ Hr), <- app_assoc. reflexivity. }
  destruct (isAnn_text c Hann) as [E HE].
  assert (annotationLike c = true) as Hc
    by exact (annotationLike_goBuild c (" " +:+ E) HE).
  assert (forall x, filter (fun c => annotationLike c = false)
                      (before ++ setText c ("//go:build" +:+ x) :: after)
                    = filter (fun c => annotationLike c = false) (before ++ c :: after))
    as Hsame.
  { intros x. rewrite !filter_app, !filter_cons_False; [reflexivity| |].
    - rewrite Hc. discriminate.
    - rewrite (annotationLike_goBuild (setText c ("//go:build" +:+ x)) x eq_refl).
      discriminate. }
  destruct (_ || _); [discriminate|].
  destruct builds.
  - rewrite HE. fold (strip (goBuild +:+ E)). rewrite strip_goBuild.
    destruct (MatchString bareRe _); intros Hr; injection Hr as <-.
    + rewrite filter_other_notBare. apply Hsame.
    + apply Hsame.
  - intros Hr. injection Hr as <-. apply (Hsame (" (" +:+ _)).
Qed.

Lemma fixupGroups_frame builds groups : forall present groups' present',
  fixupGroups builds groups present = Some (groups', present') ->
  otherComments groups' = otherComments groups.
Proof.
  unfold otherComments, allComments.
  induction groups as [|cg groups IH]; intros present groups' present'; simpl.
  - intros Hr. by injection Hr as <- <-.
  - destruct (fixupList builds [] (List cg)) as [|list'|] eqn:Hl; [discriminate| |].
    + destruct (fixupGroups builds groups true) as [[gs p]|] eqn:Hg; [|discriminate].
      intros Hr. injection Hr as <- <-. simpl.
      rewrite !filter_app, (IH _ _ _ Hg), (fixupList_frame _ _ _ _ Hl). reflexivity.
    + destruct (fixupGroups builds groups present) as [[gs p]|] eqn:Hg; [|discriminate].
      intros Hr. injection Hr as <- <-. simpl.
      rewrite !filter_app, (IH _ _ _ Hg). reflexivity.
Qed.

Lemma insertGoBuild_frame groups groups' :
  insertGoBuild groups = Some groups' ->
  otherComments groups' = otherComments groups.
Proof.
  unfold insertGoBuild, otherComments, allComments.
  destruct groups as [|first rest].
  - intros Hr. by injection Hr as <-.
  - destruct (List first) as [|c0 cs] eqn:Hf; [discriminate|].
    intros Hr. injection Hr as <-. simpl.
    rewrite !filter_app. reflexivity.
Qed.

(** An edit keeps everything but the comments, and in the comments
    every one that is not a //go:build line, in order. *)
Lemma fixupAst_frame B builds (f f' : File B) :
  fixupAst builds f = Edited f' ->
  Rest f' = Rest f /\ otherComments (Comments f') = otherComments (Comments f).
Proof.
  unfold fixupAst.
  destruct (fixupGroups builds (Comments f) false) as [[gs p]|] eqn:Hg; [|discriminate].
  destruct (negb builds && negb p).
  - destruct (insertGoBuild gs) as [gs'|] eqn:Hi; [|discriminate].
    intros Hr. injection Hr as <-. simpl. split; [reflexivity|].
    by rewrite (insertGoBuild_frame _ _ Hi), (fixupGroups_frame _ _ _ _ _ Hg).
  - intros Hr. injection Hr as <-. simpl. split; [reflexivity|].
    by rewrite (fixupGroups_frame _ _ _ _ _ Hg).
Qed.

Lemma firstAnnotation_none groups :
  firstAnnotation groups = None -> noAnnotation groups.
Proof.
  unfold firstAnnotation, allComments, noAnnotation.
  induction groups as [|cg groups IH]; intros Hfind; [constructor|].
  simpl in Hfind.
  assert (forall x, In x (List cg ++ concat (map List groups)) -> isAnn x = false) as Hall.
  { intros x Hx. apply (find_none _ _ Hfind x Hx). }
  constructor.
  - apply Forall_forall. intros x Hx. apply Hall, in_or_app. left.
    by apply list_elem_of_In.
  - apply IH. destruct (List.find isAnn (concat (map List groups))) as [c|] eqn:Hc;
      [|reflexivity].
    apply find_some in Hc as [Hin Hann].
    rewrite (Hall c) in Hann; [discriminate|]. apply in_or_app. by right.
Qed.

Lemma fixupAst_untouched B (f : File B) :
  noAnnotation (Comments f) -> fixupAst true f = Edited f.
Proof.
  intros Hno. unfold fixupAst. rewrite fixupGroups_none by done.
  by destruct f.
Qed.

(** C4 as stated fails: a file without a //go:build line whose build
    succeeds is printed anew; when it was not in the printer's form the
    rewriter reports a change and writes the printed text over it. *)
Lemma noop_row_rewrites_loose_file :
  firstAnnotation (Comments (DemoHost.parsed DemoHost.looseSource)) = None
  /\ exists w',
       fixupFileConstraints LineSyntax.syntax DemoHost.host DemoHost.mainGo true false
         (DemoHost.world [(DemoHost.mainGo, DemoHost.looseSource)])
       = Ret (true, None) w'
       /\ files w' !! DemoHost.mainGo = Some DemoHost.source
       /\ DemoHost.source <> DemoHost.looseSource.
Proof.
  split; [reflexivity|].
  eexists. split; [vm_compute; reflexivity|].
  split; [vm_compute; reflexivity|]. discriminate.
Qed.

Section Frame.
Context (G : GoSyntax) (H : Host).

(** C4, amended: when the first annotation line agrees with [desired],
    or when there is none, [desired] is false and the file is in the
    printer's form, the rewriter reports no change, writes nothing and
    leaves the files as they are. Without annotation line and with
    [desired] false the file is printed as parsed: in write mode the
    printed text is what the file then holds, and a change is reported
    when it differs. When the rewriter edits, the edited file has the
    package clause and declarations of the parsed one, and every comment
    that does not read //go:build, in order; the layout is the printer's. *)
Theorem fixup_noop_and_frame file builds chk w b (f : File (Body G)) :
  files w !! file = Some b ->
  ParseFile G b = Some f ->
  (noopState G builds b f ->
   fixupFileConstraints G H file builds chk w
   = Ret (false, None)
         {| files := files w; calls := calls w ++ [CallFixupFile file builds chk] |})
  /\ (firstAnnotation (Comments f) = None -> writesBack G H file true w b f)
  /\ (forall f', fixupAst builds f = Edited f' ->
        Rest f' = Rest f
        /\ otherComments (Comments f') = otherComments (Comments f)).
Proof.
  intros Hb Hf. split; [|split].
  - unfold noopState.
    destruct (firstAnnotation (Comments f)) as [c|] eqn:Hfirst.
    + intros Hc. eapply fixupFile_upToDate; try done.
      unfold fixupAst. by rewrite (fixupGroups_returns builds _ false c Hfirst Hc).
    + intros [-> Hp]. eapply fixupFile_unchanged; try done.
      apply fixupAst_untouched. by apply firstAnnotation_none.
  - intros Hnone. eapply fixupFile_writesBack; try done.
    apply fixupAst_untouched. by apply firstAnnotation_none.
  - intros f'. apply fixupAst_frame.
Qed.

End Frame.

(** C4, amended, on a file in the printer's form without a //go:build
    line, for a build that succeeds. *)
Lemma fixup_noop_and_frame_witness :
  let w := DemoHost.world [(DemoHost.mainGo, DemoHost.source)] in
  let f := DemoHost.parsed DemoHost.source in
  fixupFileConstraints LineSyntax.syntax DemoHost.host DemoHost.mainGo true false w
  = Ret (false, None)
        {| files := files w; calls := [CallFixupFile DemoHost.mainGo true false] |}
  /\ writesBack LineSyntax.syntax DemoHost.host DemoHost.mainGo true w DemoHost.source f
  /\ Rest f = Rest f
  /\ otherComments (Comments f) = otherComments (Comments f).
Proof.
  intros w f.
  destruct (fixup_noop_and_frame LineSyntax.syntax DemoHost.host DemoHost.mainGo
              true false w DemoHost.source f eq_refl eq_refl)
    as (Hnoop & Hprint & Hframe).
  split; [|split].
  - apply Hnoop. split; reflexivity.
  - apply Hprint. reflexivity.
  - apply (Hframe f). reflexivity.
Defined.

(** ** Applying the rewriter twice *)

(** C3 as stated fails: of two equal //go:build lines in one comment
    group the first application drops the first and leaves the second;
    the second application drops that one, reports a change again, and
    leaves another text in the file. *)
Lemma second_application_changes_again :
  exists w1 w2,
    fixupFileConstraints LineSyntax.syntax DemoHost.host DemoHost.mainGo true false
      (DemoHost.world [(DemoHost.mainGo, DemoHost.clauseTwice)])
    = Ret (true, None) w1
    /\ fixupFileConstraints LineSyntax.syntax DemoHost.host DemoHost.mainGo true false w1
       = Ret (true, None) w2
    /\ files w1 !! DemoHost.mainGo
       = Some (LineSyntax.unlines ["//go:build !tinygo || tinygo.enable"; "";
                                   "package main"])
    /\ files w2 !! DemoHost.mainGo = Some (LineSyntax.unlines ["package main"]).
Proof.
  eexists _, _. split; [vm_compute; reflexivity|].
  split; [vm_compute; reflexivity|].
  split; vm_compute; reflexivity.
Qed.

Lemma count_zero_noAnn (l : list Comment) :
  length (List.filter isAnn l) = 0 -> Forall (fun c => isAnn c = false) l.
Proof.
  induction l as [|x l IH]; simpl; [constructor|].
  destruct (isAnn x) eqn:Hx; simpl; [discriminate|].
  intros Hl. constructor; [exact Hx | by apply IH].
Qed.

Lemma annotationCount_cons cg groups :
  annotationCount (cg :: groups)
  = length (List.filter isAnn (List cg)) + annotationCount groups.
Proof.
  unfold annotationCount, allComments. simpl.
  by rewrite List.filter_app, length_app.
Qed.

Lemma annotationCount_zero groups :
  annotationCount groups = 0 -> noAnnotation groups.
Proof.
  induction groups as [|cg groups IH]; [constructor|].
  rewrite annotationCount_cons. intros Hc.
  constructor; [apply count_zero_noAnn; lia | apply IH; lia].
Qed.

Lemma noAnnotation_all groups :
  noAnnotation groups -> Forall (fun c => isAnn c = false) (allComments groups).
Proof.
  unfold allComments. induction 1 as [|cg groups Hcg _ IH]; simpl; [constructor|].
  apply Forall_app. by split.
Qed.

Lemma fixupList_finished builds todo : forall before,
  fixupList builds before todo = Finished ->
  Forall (fun c => isAnn c = false) todo.
Proof.
  induction todo as [|c after IH]; intros before; [constructor|].
  cbn [fixupList].
  destruct (Strings.HasPrefix (Text c) goBuild) eqn:Hann; cbn [negb].
  - destruct (_ || _); [discriminate|]. destruct builds; [|discriminate].
    destruct (MatchString _ _); discriminate.
  - intros Hr. constructor; [exact Hann | by eapply IH].
Qed.

Lemma conjoined_contains x :
  Strings.Contains (goBuild +:+ "(" +:+ constraint +:+ ") && (" +:+ x) constraint = true.
Proof. reflexivity. Qed.

Section Twice.
Context (builds : bool).

Lemma settled_notAnn l : Forall (fun c => isAnn c = false) l -> Forall (settled builds) l.
Proof.
  intros Hl. eapply Forall_impl; [exact Hl|].
  intros x Hx Hann. congruence.
Qed.

Lemma fixupList_settles todo : forall before list',
  fixupList builds before todo = Broke list' ->
  Forall (fun c => isAnn c = false) before ->
  length (List.filter isAnn todo) <= 1 ->
  (builds = true -> forall c, In c todo -> isAnn c = true ->
                    Strings.Contains (strip (Text c)) constraint = false) ->
  Forall (settled builds) list'
  /\ (builds = false -> Exists (fun x => isAnn x = true) list')
  /\ 1 <= length (List.filter isAnn todo).
Proof.
  induction todo as [|c after IH]; intros before list'; [discriminate|].
  cbn [fixupList List.filter].
  change (isAnn c) with (Strings.HasPrefix (Text c) goBuild).
  destruct (Strings.HasPrefix (Text c) goBuild) eqn:Hann; cbn [negb].
  2:{ intros Hr Hbefore Hcount Hstrip.
      apply (IH _ _ Hr); [|exact Hcount|].
      - apply Forall_app. split; [exact Hbefore|]. by constructor.
      - intros Hb x Hx. apply (Hstrip Hb). by right. }
  intros Hr Hbefore Hcount Hstrip. simpl in Hcount.
  assert (Forall (fun c => isAnn c = false) after) as Hafter
    by (apply count_zero_noAnn; lia).
  split; [|split; [|simpl; lia]].
  - assert (forall c', settled builds c' -> Forall (settled builds) (before ++ c' :: after)) as Hall.
    { intros c' Hc'. apply Forall_app. split; [by apply settled_notAnn|].
      constructor; [exact Hc' | by apply settled_notAnn]. }
    destruct (_ || _) eqn:Hret; [discriminate|].
    destruct builds eqn:Hb.
    + assert (Forall (settled true) (before ++ setText c (strip (Text c)) :: after)) as HL.
      { apply Hall. intros _. cbn [Text setText negb].
        apply (Hstrip eq_refl c); [by left | exact Hann]. }
      fold (strip (Text c)) in Hr.
      destruct (MatchString bareRe (Text (setText c (strip (Text c)))));
        injection Hr as <-; [|exact HL].
      apply Forall_forall. intros x Hx. apply list_elem_of_filter in Hx as [_ Hx].
      rewrite Forall_forall in HL. by apply HL.
    + injection Hr as <-. apply Hall. intros _. cbn [Text setText negb].
      apply conjoined_contains.
  - intros Hb. subst builds.
    destruct (_ || _) eqn:Hret; [discriminate|].
    injection Hr as <-. apply Exists_app. right. constructor. reflexivity.
Qed.

Lemma fixupGroups_settles groups : forall present groups' present',
  fixupGroups builds groups present = Some (groups', present') ->
  annotationCount groups <= 1 ->
  (builds = true -> forall c, In c (allComments groups) -> isAnn c = true ->
                    Strings.Contains (strip (Text c)) constraint = false) ->
  Forall (settled builds) (allComments groups')
  /\ ((present' = present /\ groups' = groups /\ noAnnotation groups)
      \/ (present' = true
          /\ (builds = false -> Exists (fun x => isAnn x = true) (allComments groups')))).
Proof.
  induction groups as [|cg groups IH]; intros present groups' present'.
  - simpl. intros Hr _ _. injection Hr as <- <-.
    split; [constructor|]. left. repeat split. constructor.
  - cbn [fixupGroups]. rewrite annotationCount_cons. intros Hr Hcount Hstrip.
    assert (forall c, In c (List cg) -> In c (allComments (cg :: groups))) as Hin1.
    { intros c Hc. unfold allComments. simpl. apply in_or_app. by left. }
    assert (forall c, In c (allComments groups) -> In c (allComments (cg :: groups)))
      as Hin2.
    { intros c Hc. unfold allComments. simpl. apply in_or_app. by right. }
    destruct (fixupList builds [] (List cg)) as [|list'|] eqn:Hl; [discriminate| |].
    + destruct (fixupList_settles _ _ _ Hl) as (Hok & Hex & Hone);
        [constructor | lia | by eauto |].
      assert (noAnnotation groups) as Hno by (apply annotationCount_zero; lia).
      rewrite fixupGroups_none in Hr by done. injection Hr as <- <-.
      split.
      * unfold allComments. simpl. apply Forall_app. split; [exact Hok|].
        by apply settled_notAnn, noAnnotation_all.
      * right. split; [reflexivity|]. intros Hb.
        unfold allComments. simpl. apply Exists_app. left. by apply Hex.
    + apply fixupList_finished in Hl.
      destruct (fixupGroups builds groups present) as [[gs p]|] eqn:Hg; [|discriminate].
      injection Hr as <- <-.
      destruct (IH _ _ _ Hg) as (Hok & Hcase); [lia | by eauto |].
      split.
      * unfold allComments. simpl. apply Forall_app. split; [|exact Hok].
        by apply settled_notAnn.
      * destruct Hcase as [(-> & -> & Hno) | (-> & Hex)].
        -- left. repeat split. by constructor.
        -- right. split; [reflexivity|]. intros Hb.
           unfold allComments. simpl. apply Exists_app. right. by apply Hex.
Qed.

(** After an edit of a file with at most one annotation line, every
    annotation line agrees with [desired], and there is one when
    [desired] is true. *)
Lemma fixupAst_settles B (f f1 : File B) :
  fixupAst builds f = Edited f1 ->
  annotationCount (Comments f) <= 1 ->
  (builds = true -> forall c, In c (allComments (Comments f)) -> isAnn c = true ->
                    Strings.Contains (strip (Text c)) constraint = false) ->
  Forall (settled builds) (allComments (Comments f1))
  /\ (builds = false -> Exists (fun x => isAnn x = true) (allComments (Comments f1))).
Proof.
  unfold fixupAst. intros Hr Hcount Hstrip.
  destruct (fixupGroups builds (Comments f) false) as [[gs p]|] eqn:Hg; [|discriminate].
  destruct (fixupGroups_settles _ _ _ _ Hg Hcount Hstrip) as (Hok & Hcase).
  destruct (negb builds && negb p) eqn:Hins.
  - apply andb_true_iff in Hins as [Hb Hp].
    apply negb_true_iff in Hb, Hp. subst p.
    destruct Hcase as [(_ & -> & Hno) | (Hp & _)]; [|discriminate].
    apply noAnnotation_all in Hno as Hall.
    unfold insertGoBuild in Hr.
    destruct (Comments f) as [|first rest] eqn:Hcs.
    + injection Hr as <-. simpl. split.
      * constructor; [|constructor]. intros _. rewrite Hb. reflexivity.
      * intros _. constructor. reflexivity.
    + destruct (List first) as [|c0 cs] eqn:Hf; [discriminate|].
      injection Hr as <-. unfold allComments in *. simpl in *. rewrite Hf in Hall.
      rewrite Hf. split.
      * apply Forall_app in Hall as [H1 H2].
        apply Forall_app. split; [by apply settled_notAnn|].
        constructor; [|by apply settled_notAnn].
        intros _. rewrite Hb. reflexivity.
      * intros _. apply Exists_app. right. constructor. reflexivity.
  - injection Hr as <-. simpl. split; [exact Hok|].
    intros Hb. subst builds. simpl in Hins.
    destruct Hcase as [(-> & _) | (_ & Hex)]; [discriminate | by apply Hex].
Qed.

(** On such comments the rewriter returns at once, or finds nothing. *)
Lemma settled_edit_is_trivial B (f2 : File B) :
  Forall (settled builds) (allComments (Comments f2)) ->
  (builds = false -> Exists (fun x => isAnn x = true) (allComments (Comments f2))) ->
  fixupAst builds f2 = UpToDate \/ fixupAst builds f2 = Edited f2.
Proof.
  intros Hok Hex.
  destruct (firstAnnotation (Comments f2)) as [c|] eqn:Hfirst.
  - left. unfold fixupAst.
    apply find_some in Hfirst as Hc. destruct Hc as [Hin Hann].
    rewrite Forall_forall in Hok.
    rewrite (fixupGroups_returns builds _ false c Hfirst); [reflexivity|].
    apply Hok; [by apply list_elem_of_In | exact Hann].
  - right. apply firstAnnotation_none in Hfirst as Hno.
    destruct builds eqn:Hb; [by apply fixupAst_untouched|].
    exfalso. specialize (Hex eq_refl). apply Exists_exists in Hex as (x & Hx & Hann).
    apply noAnnotation_all in Hno. rewrite Forall_forall in Hno.
    rewrite (Hno x Hx) in Hann. discriminate.
Qed.

Lemma settled_read (written read : list Comment) :
  sameClauseState written read ->
  Forall (settled builds) written -> Forall (settled builds) read.
Proof.
  intros [Hstem _] Hw. apply Forall_forall. intros y Hy Hann.
  destruct (Hstem y (proj1 (list_elem_of_In _ _) Hy) Hann) as (x & Hx & Hxann & Hsame).
  rewrite Forall_forall in Hw. rewrite <- Hsame.
  apply Hw; [by apply list_elem_of_In | exact Hxann].
Qed.

End Twice.

Section Idempotence.
Context (G : GoSyntax) (H : Host).

(** C3, amended: in write mode, for a file with at most one annotation
    line, where stripping the clause from that line leaves no further
    clause in it, and whose edited form the parser reads back from the
    printed text with annotation lines in the same clause state: when
    the first application
    returns, the second returns too, reports no change and leaves the
    files as the first left them. *)
Theorem fixup_twice_is_stable file builds w b (f : File (Body G)) changed err w1 :
  files w !! file = Some b ->
  ParseFile G b = Some f ->
  annotationCount (Comments f) <= 1 ->
  (builds = true -> forall c, In c (allComments (Comments f)) -> isAnn c = true ->
                    Strings.Contains (strip (Text c)) constraint = false) ->
  (forall f1, fixupAst builds f = Edited f1 -> reparses G f1) ->
  fixupFileConstraints G H file builds false w = Ret (changed, err) w1 ->
  exists w2,
    fixupFileConstraints G H file builds false w1 = Ret (false, None) w2
    /\ files w2 = files w1.
Proof.
  intros Hb Hf Hcount Hstrip Hre Hrun.
  destruct (fixupAst builds f) as [|f1|] eqn:Hast.
  - rewrite (fixupFile_upToDate G H file builds false w b f Hb Hf Hast) in Hrun.
    injection Hrun as <- <- <-.
    eexists. split; [by eapply fixupFile_upToDate | reflexivity].
  - destruct (Fprint G f1) as [out|] eqn:Hp.
    2:{ revert Hrun. unfold_rewriter. rewrite Hb, Hf, Hast, Hp. discriminate. }
    destruct (String.eqb b out) eqn:Heq.
    + apply String.eqb_eq in Heq. subst out.
      rewrite (fixupFile_unchanged G H file builds false w b f f1 Hb Hf Hast Hp) in Hrun.
      injection Hrun as <- <- <-.
      eexists. split; [by eapply fixupFile_unchanged | reflexivity].
    + assert (out <> b) as Hne by (intros ->; by rewrite String.eqb_refl in Heq).
      destruct (writable H file) eqn:Hw.
      2:{ revert Hrun. unfold_rewriter. rewrite Hb, Hf, Hast, Hp, Heq, Hw.
          discriminate. }
      rewrite (fixupFile_changed G H file builds w b f f1 out Hb Hf Hast Hp Hne Hw)
        in Hrun.
      injection Hrun as <- <- <-.
      specialize (Hre f1 eq_refl). unfold reparses in Hre. rewrite Hp in Hre.
      destruct (ParseFile G out) as [f2|] eqn:Hf2; [|contradiction].
      destruct Hre as [Hstate Hp2].
      destruct (fixupAst_settles builds _ f f1 Hast Hcount Hstrip) as [Hok Hex].
      assert (fixupAst builds f2 = UpToDate \/ fixupAst builds f2 = Edited f2) as Hsecond.
      { apply settled_edit_is_trivial.
        - by apply (settled_read builds _ _ Hstate).
        - intros Hbf. by apply (proj2 Hstate), Hex. }
      assert (files {| files := <[file := out]> (files w);
                       calls := calls w ++ [CallFixupFile file builds false;
                                            CallWriteFile file out] |} !! file
              = Some out) as Hb1 by (simpl; apply lookup_insert_eq).
      destruct Hsecond as [Hup | Hsame].
      * eexists. split; [by eapply fixupFile_upToDate | reflexivity].
      * eexists. split; [by eapply fixupFile_unchanged | reflexivity].
  - revert Hrun. unfold_rewriter. rewrite Hb, Hf, Hast. discriminate.
Qed.

End Idempotence.

(** C3, amended, on the line the tool writes, for a build that now
    succeeds: the first application strips the clause, the second finds
    the line without it and returns. *)
Lemma fixup_twice_is_stable_witness :
  let w := DemoHost.world [(DemoHost.mainGo, DemoHost.conjoined)] in
  let w1 := worldOf (fixupFileConstraints LineSyntax.syntax DemoHost.host
                       DemoHost.mainGo true false w) in
  files w1 !! DemoHost.mainGo
  = Some (LineSyntax.unlines ["// Copyright"; ""; "//go:build  (linux)"; "";
                              "package main"])
  /\ exists w2,
       fixupFileConstraints LineSyntax.syntax DemoHost.host DemoHost.mainGo true false w1
       = Ret (false, None) w2
       /\ files w2 = files w1.
Proof.
  intros w w1. split; [vm_compute; reflexivity|].
  apply (fixup_twice_is_stable LineSyntax.syntax DemoHost.host DemoHost.mainGo true
           w DemoHost.conjoined (DemoHost.parsed DemoHost.conjoined) true None w1).
  - reflexivity.
  - reflexivity.
  - vm_compute. lia.
  - intros _ c Hin Hann.
    destruct Hin as [<-|[<-|[]]]; [discriminate Hann | vm_compute; reflexivity].
  - intros f1 Hf1. vm_compute in Hf1. injection Hf1 as <-.
    unfold reparses.
    change (Fprint LineSyntax.syntax) with LineSyntax.print.
    change (ParseFile LineSyntax.syntax) with LineSyntax.parse.
    split; [|vm_compute; reflexivity].
    split.
    + intros y Hy Hann. exists y. repeat split; [exact Hy | exact Hann].
    + intros Hex. exact Hex.
  - vm_compute. reflexivity.
Defined.

(** * Further properties *)

(** ** What a run does to the source files *)

Lemma onlyChanges_refl P fs : onlyChanges P fs fs.
Proof. intros path. by left. Qed.

Lemma onlyChanges_trans P fs1 fs2 fs3 :
  onlyChanges P fs1 fs2 -> onlyChanges P fs2 fs3 -> onlyChanges P fs1 fs3.
Proof.
  intros H12 H23 path.
  destruct (H12 path) as [E12 | (HP & Hs1 & Hs2)];
    destruct (H23 path) as [E23 | (HP' & Hs2' & Hs3)].
  - left. congruence.
  - right. rewrite <- E12. done.
  - right. rewrite E23. done.
  - right. done.
Qed.

Lemma onlyChanges_weaken (P Q : string -> Prop) fs fs' :
  (forall path, P path -> Q path) -> onlyChanges P fs fs' -> onlyChanges Q fs fs'.
Proof.
  intros HPQ Hc path. destruct (Hc path) as [E | (HP & Hs)]; [by left|].
  right. split; [by apply HPQ | done].
Qed.

Lemma onlyChanges_eq P (fs fs' : gmap string string) :
  fs' = fs -> onlyChanges P fs fs'.
Proof. intros ->. apply onlyChanges_refl. Qed.

Section Effects.
Context (G : GoSyntax) (H : Host).

(** One call of the rewriter leaves the files as they are, or, in write
    mode, reports a change and replaces the text of its file. *)
Lemma fixupFile_effect file builds chk w :
  files (worldOf (fixupFileConstraints G H file builds chk w)) = files w
  \/ (chk = false /\ is_Some (files w !! file)
      /\ exists buf w',
           fixupFileConstraints G H file builds chk w = Ret (true, None) w'
           /\ files w' = <[file := buf]> (files w)).
Proof.
  unfold_rewriter.
  destruct (files w !! file) as [b|] eqn:Hb; [|by left].
  destruct (ParseFile G b) as [f|]; [|by left].
  destruct (fixupAst builds f) as [|f'|]; [by left| |by left].
  destruct (Fprint G f') as [buf|]; [|by left].
  destruct (String.eqb b buf); [by left|].
  destruct chk; [by left|]. simpl.
  destruct (writable H file); [|by left].
  right. split; [done|]. split; [done|]. eexists _, _. split; reflexivity.
Qed.

Lemma fixupFile_onlyChanges file builds chk w :
  onlyChanges (eq file) (files w)
    (files (worldOf (fixupFileConstraints G H file builds chk w))).
Proof.
  destruct (fixupFile_effect file builds chk w)
    as [E | (_ & Hs & buf & w' & Hr & Hw)]; [by apply onlyChanges_eq|].
  rewrite Hr. simpl. rewrite Hw. intros path.
  destruct (decide (file = path)) as [<-|Hne].
  - right. split; [done|]. split; [done|]. rewrite lookup_insert_eq. by eexists.
  - left. by rewrite lookup_insert_ne.
Qed.

Lemma fixupFile_false file builds chk w a w' :
  fixupFileConstraints G H file builds chk w = Ret a w' ->
  fst a = false \/ chk = true -> files w' = files w.
Proof.
  intros Hr Hcase.
  destruct (fixupFile_effect file builds chk w)
    as [E | (Hchk & _ & buf & w1 & Hr1 & _)].
  - by rewrite Hr in E.
  - rewrite Hr in Hr1. injection Hr1 as -> ->.
    destruct Hcase as [Hf | Hc]; [discriminate | congruence].
Qed.

Lemma fixupFile_checkOnly file builds w :
  files (worldOf (fixupFileConstraints G H file builds true w)) = files w.
Proof.
  destruct (fixupFile_effect file builds true w) as [E | (Hchk & _)];
    [exact E | discriminate].
Qed.

Lemma fixupFiles_effect fs builds chk : forall mdw w,
  onlyChanges (fun path => In path (filter isGo fs)) (files w)
    (files (worldOf (fixupFiles G H fs builds chk mdw w)))
  /\ (chk = true -> files (worldOf (fixupFiles G H fs builds chk mdw w)) = files w)
  /\ (forall a w', fixupFiles G H fs builds chk mdw w = Ret a w' -> fst a = false ->
        mdw = false /\ files w' = files w).
Proof.
  induction fs as [|f fs IH]; intros mdw w.
  - simpl. split; [apply onlyChanges_refl|]. split; [done|].
    unfold ret. intros a w' Hr Ha. by simplify_eq.
  - cbn [fixupFiles].
    destruct (Strings.HasSuffix f ".go") eqn:Hgo; cbn [negb].
    2:{ rewrite filter_cons_False by (unfold isGo; congruence). apply IH. }
    rewrite filter_cons_True by done.
    pose proof (fixupFile_onlyChanges f builds chk w) as Hone.
    pose proof (fixupFile_checkOnly f builds w) as Hchk.
    unfold bind.
    destruct (fixupFileConstraints G H f builds chk w) as [a w1|w1|w1] eqn:Hrun;
      simpl in Hone.
    + rewrite (fixupFileConstraints_err _ _ _ _ _ _ _ _ Hrun).
      destruct (IH (fst a || mdw) w1) as (Hrest & Hcrest & Hfalse).
      split; [|split].
      * eapply onlyChanges_trans.
        -- eapply onlyChanges_weaken; [|exact Hone]. intros path <-. by left.
        -- eapply onlyChanges_weaken; [|exact Hrest]. intros path Hp. by right.
      * intros ->. rewrite Hrun in Hchk. simpl in Hchk.
        rewrite (Hcrest eq_refl). exact Hchk.
      * intros a' w' Hr Ha. destruct (Hfalse _ _ Hr Ha) as [Hor Hw].
        apply orb_false_iff in Hor as [Hfa ->]. split; [done|].
        rewrite Hw. eapply fixupFile_false; [exact Hrun | by left].
    + simpl. split; [|split].
      * eapply onlyChanges_weaken; [|exact Hone]. intros path <-. by left.
      * intros ->. by rewrite Hrun in Hchk.
      * intros a w' Hr. discriminate.
    + simpl. split; [|split].
      * eapply onlyChanges_weaken; [|exact Hone]. intros path <-. by left.
      * intros ->. by rewrite Hrun in Hchk.
      * intros a w' Hr. discriminate.
Qed.

Lemma fixupPkg_effect dir builds chk w :
  onlyChanges (fun path => In path (goFiles H dir)) (files w)
    (files (worldOf (fixupPkgConstraints G H dir builds chk w)))
  /\ (chk = true -> files (worldOf (fixupPkgConstraints G H dir builds chk w)) = files w)
  /\ (forall a w', fixupPkgConstraints G H dir builds chk w = Ret a w' ->
        fst a = false -> files w' = files w).
Proof.
  unfold fixupPkgConstraints, goFiles, bind, record. simpl.
  destruct (Glob H dir) as [fs|]; simpl.
  - set (w1 := {| files := files w; calls := calls w ++ [CallFixupPkg dir builds chk] |}).
    destruct (fixupFiles_effect fs builds chk false w1) as (Hc & Hchk & Hfalse).
    split; [exact Hc|]. split; [exact Hchk|].
    intros a w' Hr Ha. by destruct (Hfalse _ _ Hr Ha).
  - unfold fatal. simpl. split; [apply onlyChanges_refl|]. split; [done|].
    intros a w' Hr. discriminate.
Qed.

(** One turn of the worker: it rewrites .go files of its directory only,
    and only after a build that ran; nothing in check-only mode; nothing
    when it reports no work. *)
Lemma worker_effect conf dir w :
  onlyChanges (fun path => ranBuild (outcome (build H (tinygo conf) dir))
                           /\ In path (goFiles H dir))
    (files w) (files (worldOf (worker G H conf dir w)))
  /\ (checkOnly conf = true -> files (worldOf (worker G H conf dir w)) = files w)
  /\ (forall r w', worker G H conf dir w = Ret r w' ->
        WorkerResult.didWork r = false -> files w' = files w)
  /\ (forall r w', worker G H conf dir w = Ret r w' ->
        WorkerResult.didWork r = true ->
        ranBuild (outcome (build H (tinygo conf) dir))).
Proof.
  unfold worker, outcome, ranBuild.
  destruct (build H (tinygo conf) dir) as [br err]. simpl.
  destruct err as [e|]; simpl.
  { unfold bind, ret. simpl. split; [apply onlyChanges_refl|]. split; [done|].
    split; intros r w' Hr; simplify_eq; done. }
  destruct (BuildRes.excluded br); simpl.
  { unfold bind, ret. simpl. split; [apply onlyChanges_refl|]. split; [done|].
    split; intros r w' Hr; simplify_eq; done. }
  set (builds := bool_decide (BuildRes.err br = None)).
  destruct (fixupPkg_effect dir builds (checkOnly conf) w) as (Hc & Hchk & Hfalse).
  assert (ranBuild (match BuildRes.err br with Some _ => Failure | None => Success end))
    as Hran by (unfold ranBuild; destruct (BuildRes.err br); auto).
  unfold bind, ret.
  destruct (fixupPkgConstraints G H dir builds (checkOnly conf) w) as [a w1|w1|w1] eqn:Hrun;
    simpl in *.
  - split; [|split; [exact Hchk|split]].
    + eapply onlyChanges_weaken; [|exact Hc]. intros path Hp. by split.
    + intros r w' Hr Hd. simplify_eq. simpl in Hd. by apply (Hfalse a w').
    + intros r w' Hr Hd. exact Hran.
  - split; [|split; [exact Hchk|split]]; try (intros r w' Hr; discriminate).
    eapply onlyChanges_weaken; [|exact Hc]. intros path Hp. by split.
  - split; [|split; [exact Hchk|split]]; try (intros r w' Hr; discriminate).
    eapply onlyChanges_weaken; [|exact Hc]. intros path Hp. by split.
Qed.

Lemma filter_take_incl (k : nat) (fs : list string) path :
  In path (filter isGo (take k fs)) -> In path (filter isGo fs).
Proof.
  rewrite <- !list_elem_of_In, !list_elem_of_filter.
  intros [Hgo Hin]. split; [done|]. by apply (subseteq_take k fs).
Qed.

(** The work of a worker whose result is never read: as for a worker
    whose result is read, on the part of the listing it got to. *)
Lemma lateTurn_effect conf dir entries w :
  onlyChanges (fun path => ranBuild (outcome (build H (tinygo conf) dir))
                           /\ In path (goFiles H dir))
    (files w) (files (worldOf (lateTurn G H conf dir entries w)))
  /\ (checkOnly conf = true ->
      files (worldOf (lateTurn G H conf dir entries w)) = files w).
Proof.
  unfold lateTurn, outcome, ranBuild, goFiles.
  destruct (build H (tinygo conf) dir) as [br err]. simpl.
  destruct err as [e|]; simpl; [split; [apply onlyChanges_refl | done]|].
  destruct (BuildRes.excluded br); simpl; [split; [apply onlyChanges_refl | done]|].
  assert (ranBuild (match BuildRes.err br with Some _ => Failure | None => Success end))
    as Hran by (unfold ranBuild; destruct (BuildRes.err br); auto).
  unfold bind, record. simpl.
  destruct (Glob H dir) as [fs|]; simpl; [|split; [apply onlyChanges_refl | done]].
  set (builds := bool_decide (BuildRes.err br = None)).
  set (w1 := {| files := files w;
                calls := calls w ++ [CallFixupPkg dir builds (checkOnly conf)] |}).
  destruct (fixupFiles_effect (take entries fs) builds (checkOnly conf) false w1)
    as (Hc & Hchk & _).
  assert (files (worldOf
                   match fixupFiles G H (take entries fs) builds (checkOnly conf) false w1
                   with
                   | Ret _ w' => ret () w'
                   | Exit w' => Exit w'
                   | Panic w' => Panic w'
                   end)
          = files (worldOf (fixupFiles G H (take entries fs) builds
                              (checkOnly conf) false w1))) as ->.
  { by destruct (fixupFiles G H (take entries fs) builds (checkOnly conf) false w1). }
  split; [|exact Hchk].
  eapply onlyChanges_weaken; [|exact Hc]. intros path Hp.
  split; [exact Hran | exact (filter_take_incl entries fs path Hp)].
Qed.

Lemma lateWork_effect conf late : forall w,
  onlyChanges (rewritable H (tinygo conf) (map fst late)) (files w)
    (files (worldOf (lateWork G H conf late w)))
  /\ (checkOnly conf = true ->
      files (worldOf (lateWork G H conf late w)) = files w).
Proof.
  induction late as [|[dir entries] late IH]; intros w.
  - simpl. split; [apply onlyChanges_refl | done].
  - cbn [lateWork map fst]. unfold bind.
    destruct (lateTurn_effect conf dir entries w) as (Hc & Hchk).
    assert (onlyChanges (rewritable H (tinygo conf) (dir :: map fst late)) (files w)
              (files (worldOf (lateTurn G H conf dir entries w)))) as Hc'.
    { eapply onlyChanges_weaken; [|exact Hc]. intros path [Hran Hin].
      exists dir. split; [by left | done]. }
    destruct (lateTurn G H conf dir entries w) as [[] w1|w1|w1]; simpl in *;
      [|by split..].
    destruct (IH w1) as (Hrest & Hcrest). split.
    + eapply onlyChanges_trans; [exact Hc'|].
      eapply onlyChanges_weaken; [|exact Hrest].
      intros path (d & Hin & Hp). exists d. split; [by right | done].
    + intros Hck. rewrite (Hcrest Hck). by apply Hchk.
Qed.

End Effects.

(** ** The collecting loop, also when a build aborts the run *)

Lemma outcome_Fatal_iff (r : BuildRes.t * option error) :
  outcome r = Fatal <-> snd r <> None.
Proof.
  unfold outcome. destruct (snd r); [done|].
  destruct (BuildRes.excluded (fst r)); [done|].
  destruct (BuildRes.err (fst r)); done.
Qed.

Lemma classify_modified st r :
  modified (classify st r)
  = modified st ++ (if WorkerResult.didWork r then [WorkerResult.dir r] else []).
Proof.
  unfold classify. repeat case_match; simpl; by rewrite ?app_nil_r.
Qed.

Lemma collect_modified_grows rs : forall st,
  exists l, modified (collect st rs) = modified st ++ l.
Proof.
  induction rs as [|r rs IH]; intros st; simpl.
  - exists []. by rewrite app_nil_r.
  - destruct (WorkerResult.err r); [exists []; by rewrite app_nil_r|].
    destruct (IH (classify st r)) as [l ->].
    rewrite classify_modified, <- app_assoc. by eexists.
Qed.

Lemma collect_modified rs : forall st,
  Forall (fun r => WorkerResult.err r = None) rs ->
  modified (collect st rs)
  = modified st ++ map WorkerResult.dir (filter (fun r => WorkerResult.didWork r = true) rs).
Proof.
  induction rs as [|r rs IH]; intros st Hok; simpl.
  - by rewrite app_nil_r.
  - inversion Hok as [|? ? Hr Hrs]; subst. rewrite Hr, IH by done.
    rewrite classify_modified.
    destruct (WorkerResult.didWork r) eqn:Hd.
    + rewrite filter_cons_True by done. simpl. by rewrite <- app_assoc.
    + rewrite filter_cons_False by (rewrite Hd; done). by rewrite app_nil_r.
Qed.

Lemma filter_filedAs o (f : string -> BuildOutcome) (rs : list WorkerResult.t) :
  Forall (fun r => filedAs r = f (WorkerResult.dir r)) rs ->
  map WorkerResult.dir (filter (fun r => filedAs r = o) rs)
  = filter (fun d => f d = o) (map WorkerResult.dir rs).
Proof.
  induction 1 as [|r rs Hr Hrs IH]; [done|]. simpl.
  destruct (decide (filedAs r = o)) as [Ho|Ho].
  - rewrite !filter_cons_True by congruence. simpl. by rewrite IH.
  - rewrite !filter_cons_False by congruence. exact IH.
Qed.

Section Collecting.
Context (G : GoSyntax) (H : Host).

(** The results that reach the status are those of the components that
    arrive before the first aborted build. *)
Lemma received_untilFatal conf arrival : forall w rs w',
  received G H conf arrival w = Ret rs w' ->
  exists oks,
    (forall st, collect st rs = collect st oks)
    /\ map WorkerResult.dir oks = untilFatal H (tinygo conf) arrival
    /\ Forall (fun r =>
         WorkerResult.err r = None
         /\ filedAs r = outcome (build H (tinygo conf) (WorkerResult.dir r))
         /\ (WorkerResult.didWork r = true ->
             ranBuild (outcome (build H (tinygo conf) (WorkerResult.dir r))))) oks.
Proof.
  induction arrival as [|d ds IH]; intros w rs w' Hrun.
  - unfold received, ret in Hrun. simplify_eq. exists []. by repeat split.
  - cbn [received] in Hrun. unfold bind in Hrun.
    destruct (worker G H conf d w) as [r w1|w1|w1] eqn:Hw; try discriminate.
    destruct (worker_result G H conf d w r w1 Hw) as (Hdir & Hbr & Herr).
    destruct (worker_effect G H conf d w) as (_ & _ & _ & Hran).
    specialize (Hran r w1 Hw).
    cbn [untilFatal].
    destruct (WorkerResult.err r) as [e|] eqn:He.
    + unfold ret in Hrun. simplify_eq. exists []. split; [|split].
      * intros st. simpl. by rewrite He.
      * rewrite decide_True; [done|]. apply outcome_Fatal_iff. congruence.
      * constructor.
    + destruct (received G H conf ds w1) as [rs1 w2|w2|w2] eqn:Hrec; try discriminate.
      unfold ret in Hrun. simplify_eq.
      destruct (IH _ _ _ Hrec) as (oks & Hcol & Hmap & Hall).
      exists (r :: oks). split; [|split].
      * intros st. simpl. rewrite He. apply Hcol.
      * rewrite decide_False; [simpl; by rewrite Hmap|].
        rewrite outcome_Fatal_iff, <- Herr. intros Hn. by apply Hn.
      * constructor; [|exact Hall]. split; [done|]. split; [|exact Hran].
        unfold filedAs. rewrite Hbr.
        destruct (build H (tinygo conf) (WorkerResult.dir r)) as [br err] eqn:Hb.
        simpl in *. by subst.
Qed.

Lemma received_effect conf arrival : forall w,
  onlyChanges (rewritable H (tinygo conf) arrival) (files w)
    (files (worldOf (received G H conf arrival w)))
  /\ (checkOnly conf = true ->
      files (worldOf (received G H conf arrival w)) = files w)
  /\ (forall rs w' st, received G H conf arrival w = Ret rs w' ->
        modified (collect st rs) = modified st -> files w' = files w).
Proof.
  induction arrival as [|d ds IH]; intros w.
  - simpl. split; [apply onlyChanges_refl|]. split; [done|].
    unfold ret. intros rs w' st Hr _. by simplify_eq.
  - cbn [received]. unfold bind.
    destruct (worker_effect G H conf d w) as (Hc & Hchk & Hfalse & _).
    assert (onlyChanges (rewritable H (tinygo conf) (d :: ds)) (files w)
              (files (worldOf (worker G H conf d w)))) as Hc'.
    { eapply onlyChanges_weaken; [|exact Hc]. intros path [Hran Hin].
      exists d. split; [by left|done]. }
    destruct (worker G H conf d w) as [r w1|w1|w1] eqn:Hw; simpl in *;
      [|split; [done|split; [done|intros; discriminate]]..].
    destruct (WorkerResult.err r) as [e|] eqn:He.
    + simpl. split; [done|]. split; [done|].
      unfold ret. intros rs w' st Hr _. simplify_eq.
      apply (Hfalse r w' eq_refl).
      destruct (worker_effect G H conf d w) as (_ & _ & _ & Hran).
      destruct (WorkerResult.didWork r) eqn:Hd; [|done].
      destruct (worker_result G H conf d w r w' Hw) as (_ & _ & Herr).
      destruct (Hran r w' Hw Hd) as [Ho | Ho];
        pose proof (proj2 (outcome_Fatal_iff (build H (tinygo conf) d))) as Hf;
        rewrite Ho in Hf; exfalso;
        (assert (snd (build H (tinygo conf) d) <> None) as Hne by congruence);
        specialize (Hf Hne); discriminate.
    + destruct (IH w1) as (Hrest & Hcrest & Hfrest).
      destruct (received G H conf ds w1) as [rs1 w2|w2|w2] eqn:Hrec; simpl in *.
      * split; [|split].
        -- eapply onlyChanges_trans; [exact Hc'|].
           eapply onlyChanges_weaken; [|exact Hrest].
           intros path (d' & Hin & Hp). exists d'. split; [by right|done].
        -- intros Hck. rewrite (Hcrest Hck). by apply Hchk.
        -- unfold ret. intros rs w' st Hr Hm. simplify_eq.
           simpl in Hm. rewrite He in Hm.
           destruct (collect_modified_grows rs1 (classify st r)) as [l Hl].
           rewrite Hl, classify_modified, <- app_assoc in Hm.
           assert ((if WorkerResult.didWork r then [WorkerResult.dir r] else []) ++ l = [])
             as Hnil.
           { apply (app_inv_head (modified st)). by rewrite app_nil_r. }
           apply app_eq_nil in Hnil as [Hd ->].
           destruct (WorkerResult.didWork r) eqn:Hdw; [discriminate|].
           rewrite (Hfrest rs1 w' (classify st r) eq_refl).
           ++ by apply (Hfalse r w1).
           ++ by rewrite Hl, app_nil_r.
      * split; [|split; [|intros; discriminate]].
        -- eapply onlyChanges_trans; [exact Hc'|].
           eapply onlyChanges_weaken; [|exact Hrest].
           intros path (d' & Hin & Hp). exists d'. split; [by right|done].
        -- intros Hck. rewrite (Hcrest Hck). by apply Hchk.
      * split; [|split; [|intros; discriminate]].
        -- eapply onlyChanges_trans; [exact Hc'|].
           eapply onlyChanges_weaken; [|exact Hrest].
           intros path (d' & Hin & Hp). exists d'. split; [by right|done].
        -- intros Hck. rewrite (Hcrest Hck). by apply Hchk.
Qed.

End Collecting.

(** ** The run as a whole: [buildDirs] and [main] *)

Lemma untilFatal_incl H tinygo arrival d :
  In d (untilFatal H tinygo arrival) ->
  In d arrival /\ outcome (build H tinygo d) <> Fatal.
Proof.
  induction arrival as [|a ds IH]; simpl; [done|].
  destruct (decide (outcome (build H tinygo a) = Fatal)); [done|].
  intros [<- | Hin]; [by split; [left|]|].
  destruct (IH Hin). split; [by right | done].
Qed.

Lemma untilFatal_app_fatal H tinygo pre d post :
  outcome (build H tinygo d) = Fatal ->
  untilFatal H tinygo (pre ++ d :: post) = untilFatal H tinygo pre.
Proof.
  intros Hd. induction pre as [|a pre IH]; simpl.
  - by rewrite decide_True.
  - by rewrite IH.
Qed.

Section Run.
Context (G : GoSyntax) (H : Host).

Lemma buildDirs_effect conf arrival w :
  onlyChanges (rewritable H (tinygo conf) arrival) (files w)
    (files (worldOf (buildDirs G H conf arrival w)))
  /\ (checkOnly conf = true ->
      files (worldOf (buildDirs G H conf arrival w)) = files w)
  /\ (forall st e w', buildDirs G H conf arrival w = Ret (st, e) w' ->
        modified st = [] -> files w' = files w).
Proof.
  destruct (received_effect G H conf arrival w) as (Hc & Hchk & Hnone).
  unfold buildDirs, bind, ret.
  destruct (received G H conf arrival w) as [rs w1|w1|w1]; simpl in *;
    [|split; [done|split; [done|intros; discriminate]]..].
  split; [done|]. split; [done|].
  intros st e w' Hr Hm. simplify_eq. by apply (Hnone rs w' noStatus).
Qed.

Lemma created_other conf fs path :
  path <> pathMD conf -> created conf fs !! path = fs !! path.
Proof.
  intros Hne. unfold created. destruct (toFile conf); [|done].
  by rewrite lookup_insert_ne.
Qed.

Lemma written_other conf doc fs path :
  path <> pathMD conf -> written conf doc fs !! path = fs !! path.
Proof.
  intros Hne. unfold written. destruct (toFile conf); [|done].
  by rewrite lookup_insert_ne.
Qed.

(** The files [main] leaves are those it found, or those [buildDirs]
    left of the files after [os.Create], with or without the report. *)
Lemma main_sources P conf arrival w :
  let w0 := {| files := created conf (files w); calls := calls w |} in
  sources (main G H P conf arrival w) = files w
  \/ sources (main G H P conf arrival w)
     = files (worldOf (buildDirs G H conf arrival w0))
  \/ exists doc,
       sources (main G H P conf arrival w)
       = written conf doc (files (worldOf (buildDirs G H conf arrival w0))).
Proof.
  intros w0. unfold main. fold w0.
  destruct (tinygoVersion H P (tinygo conf)) as [v [e|]]; [by left|].
  case_match; [by left|].
  destruct (buildDirs G H conf arrival w0) as [[st [e|]] w'|w'|w']; simpl;
    try (by right; left).
  right; right. by eexists.
Qed.

Lemma main_sources_other P conf arrival w path :
  path <> pathMD conf ->
  sources (main G H P conf arrival w) !! path = files w !! path
  \/ (rewritable H (tinygo conf) arrival path
      /\ is_Some (files w !! path)
      /\ is_Some (sources (main G H P conf arrival w) !! path)).
Proof.
  intros Hne.
  set (w0 := {| files := created conf (files w); calls := calls w |}).
  destruct (buildDirs_effect conf arrival w0) as (Hc & _ & _).
  assert (files (worldOf (buildDirs G H conf arrival w0)) !! path = files w !! path
          \/ (rewritable H (tinygo conf) arrival path
              /\ is_Some (files w !! path)
              /\ is_Some (files (worldOf (buildDirs G H conf arrival w0)) !! path)))
    as Hb.
  { destruct (Hc path) as [Heq | (Hp & Hs & Hs')]; simpl in *.
    - left. by rewrite Heq, created_other.
    - right. by rewrite created_other in Hs. }
  destruct (main_sources P conf arrival w) as [-> | [-> | [doc ->]]];
    [by left | exact Hb |].
  by rewrite written_other.
Qed.

(** X1: in check-only mode no worker changes a source file, whether
    its result is read or not and however the run ends; after [main]
    every file but the one named for the report is as it was, and all
    are when the report goes to the standard output. *)
Theorem checkOnly_keeps_sources P conf arrival late w :
  checkOnly conf = true ->
  filesAfter G H conf arrival late w = files w
  /\ (forall path, path <> pathMD conf ->
        sources (main G H P conf arrival w) !! path = files w !! path)
  /\ (toFile conf = false -> sources (main G H P conf arrival w) = files w).
Proof.
  intros Hck.
  assert (forall w1, files (worldOf (buildDirs G H conf arrival w1)) = files w1) as Hb.
  { intros w1. destruct (buildDirs_effect conf arrival w1) as (_ & Hchk & _).
    by apply Hchk. }
  split; [|split].
  - unfold filesAfter.
    destruct (lateWork_effect G H conf late (worldOf (buildDirs G H conf arrival w)))
      as (_ & Hlate).
    by rewrite (Hlate Hck), Hb.
  - intros path Hne.
    destruct (main_sources P conf arrival w) as [-> | [-> | [doc ->]]]; [done| |].
    + rewrite Hb. simpl. by apply created_other.
    + rewrite written_other, Hb by done. simpl. by apply created_other.
  - intros Hto.
    destruct (main_sources P conf arrival w) as [-> | [-> | [doc ->]]]; [done| |].
    + rewrite Hb. unfold created. simpl. by rewrite Hto.
    + unfold written. rewrite Hto, Hb. unfold created. simpl. by rewrite Hto.
Qed.

(** X2: however the run ends, the only source files that differ after
    it are .go files listed for a directory whose build ran (Success or
    Failure), be the result of its worker read or not; such a file was
    there before and is there after. After [main] the same holds of
    every file but the one named for the report: no other file is
    created or removed. *)
Theorem run_rewrites_only_go_files_of_built_dirs P conf arrival late w :
  onlyChanges (rewritable H (tinygo conf) (arrival ++ map fst late)) (files w)
    (filesAfter G H conf arrival late w)
  /\ (forall path, path <> pathMD conf ->
        sources (main G H P conf arrival w) !! path = files w !! path
        \/ (rewritable H (tinygo conf) arrival path
            /\ is_Some (files w !! path)
            /\ is_Some (sources (main G H P conf arrival w) !! path)))
  /\ (forall path, path <> pathMD conf ->
        is_Some (sources (main G H P conf arrival w) !! path)
        <-> is_Some (files w !! path)).
Proof.
  split; [|split].
  - unfold filesAfter.
    destruct (buildDirs_effect conf arrival w) as (Hc & _ & _).
    destruct (lateWork_effect G H conf late (worldOf (buildDirs G H conf arrival w)))
      as (Hlate & _).
    eapply onlyChanges_trans.
    + eapply onlyChanges_weaken; [|exact Hc].
      intros path (d & Hin & Hp). exists d. split; [|done].
      apply in_or_app. by left.
    + eapply onlyChanges_weaken; [|exact Hlate].
      intros path (d & Hin & Hp). exists d. split; [|done].
      apply in_or_app. by right.
  - intros path Hne. by apply main_sources_other.
  - intros path Hne.
    destruct (main_sources_other P conf arrival w path Hne) as [-> | (_ & ? & ?)];
      tauto.
Qed.

(** X3: when no build aborts, the result of every worker is read; a
    run that then returns with an empty [modified] has left every
    source file as it was. *)
Theorem unmodified_run_keeps_sources conf arrival w st e w' :
  Forall (fun d => outcome (build H (tinygo conf) d) <> Fatal) arrival ->
  buildDirs G H conf arrival w = Ret (st, e) w' ->
  modified st = [] ->
  files w' = files w.
Proof.
  intros _. destruct (buildDirs_effect conf arrival w) as (_ & _ & Hnone). apply Hnone.
Qed.

Lemma buildDirs_bucket conf arrival w st e w' o :
  buildDirs G H conf arrival w = Ret (st, e) w' ->
  o <> Fatal ->
  bucket o st
  = filter (fun d => outcome (build H (tinygo conf) d) = o)
           (untilFatal H (tinygo conf) arrival).
Proof.
  unfold buildDirs, bind, ret. intros Hrun Ho.
  destruct (received G H conf arrival w) as [rs w1|w1|w1] eqn:Hrec; try discriminate.
  simplify_eq.
  destruct (received_untilFatal G H conf arrival w rs w' Hrec)
    as (oks & Hcol & Hmap & Hall).
  rewrite Hcol, collect_bucket; [|done|].
  - rewrite <- Hmap, <- filter_filedAs; [by destruct o|].
    eapply Forall_impl; [exact Hall|]. by intros r (_ & Hf & _).
  - eapply Forall_impl; [exact Hall|]. by intros r (He & _).
Qed.

(** X4: the three sequences of the status are the components that
    arrive before the first aborted build, each under the outcome of
    its build and in the order of arrival. *)
Theorem status_follows_arrival conf arrival w st e w' :
  buildDirs G H conf arrival w = Ret (st, e) w' ->
  let ran := untilFatal H (tinygo conf) arrival in
  passing st = filter (fun d => outcome (build H (tinygo conf) d) = Success) ran
  /\ failing st = filter (fun d => outcome (build H (tinygo conf) d) = Failure) ran
  /\ excluded st = filter (fun d => outcome (build H (tinygo conf) d) = Excluded) ran.
Proof.
  intros Hrun.
  split; [exact (buildDirs_bucket _ _ _ _ _ _ Success Hrun ltac:(done))|].
  split; [exact (buildDirs_bucket _ _ _ _ _ _ Failure Hrun ltac:(done))|].
  exact (buildDirs_bucket _ _ _ _ _ _ Excluded Hrun ltac:(done)).
Qed.

(** X5: a component in [modified] arrived before the first aborted
    build, its build ran, and it is filed as passing or failing and not
    as excluded. *)
Theorem modified_were_built conf arrival w st e w' d :
  buildDirs G H conf arrival w = Ret (st, e) w' ->
  In d (modified st) ->
  In d (untilFatal H (tinygo conf) arrival)
  /\ ranBuild (outcome (build H (tinygo conf) d))
  /\ (In d (passing st) \/ In d (failing st))
  /\ ~ In d (excluded st).
Proof.
  unfold buildDirs, bind, ret. intros Hrun Hin.
  destruct (received G H conf arrival w) as [rs w1|w1|w1] eqn:Hrec; try discriminate.
  simplify_eq.
  destruct (received_untilFatal G H conf arrival w rs w' Hrec)
    as (oks & Hcol & Hmap & Hall).
  rewrite Hcol in *.
  assert (Forall (fun r => WorkerResult.err r = None) oks) as Herr.
  { eapply Forall_impl; [exact Hall|]. by intros r (He & _). }
  assert (Forall (fun r => filedAs r
                           = outcome (build H (tinygo conf) (WorkerResult.dir r))) oks)
    as Hfiled.
  { eapply Forall_impl; [exact Hall|]. by intros r (_ & Hf & _). }
  rewrite collect_modified in Hin by done. simpl in Hin.
  apply in_map_iff in Hin as (r & <- & Hr).
  apply list_elem_of_In, list_elem_of_filter in Hr as [Hdw Hr].
  pose proof (proj1 (Forall_forall _ _) Hall r Hr) as (_ & Hf & Hran).
  specialize (Hran Hdw).
  assert (In (WorkerResult.dir r) (untilFatal H (tinygo conf) arrival)) as Huf.
  { rewrite <- Hmap. apply in_map. by apply list_elem_of_In. }
  split; [exact Huf|]. split; [exact Hran|].
  assert (forall o, o <> Fatal ->
            (In (WorkerResult.dir r) (bucket o (collect noStatus oks))
             <-> outcome (build H (tinygo conf) (WorkerResult.dir r)) = o)) as Hb.
  { intros o Ho. rewrite collect_bucket by done.
    rewrite (filter_filedAs o (fun d => outcome (build H (tinygo conf) d))) by done.
    rewrite Hmap.
    assert (bucket o noStatus = []) as -> by (by destruct o). cbn [app].
    rewrite <- list_elem_of_In, list_elem_of_filter, list_elem_of_In. tauto. }
  split.
  - destruct Hran as [Ho | Ho].
    + left. by apply (Hb Success).
    + right. by apply (Hb Failure).
  - intros Hex. apply (Hb Excluded) in Hex; [|done].
    destruct Hran as [Ho | Ho]; congruence.
Qed.

Lemma buildDirs_truncated conf pre d post w :
  outcome (build H (tinygo conf) d) = Fatal ->
  buildDirs G H conf (pre ++ d :: post) w = buildDirs G H conf pre w.
Proof.
  intros Hd.
  assert (forall st w,
            bind (received G H conf (pre ++ d :: post))
                 (fun rs => ret (collect st rs, @None error)) w
            = bind (received G H conf pre)
                   (fun rs => ret (collect st rs, @None error)) w) as Hgen;
    [|apply Hgen].
  clear w. induction pre as [|a pre IH]; intros st w.
  - cbn [app received]. unfold bind, ret.
    assert (worker G H conf d w
            = Ret {| WorkerResult.dir := d;
                     WorkerResult.buildRes := fst (build H (tinygo conf) d);
                     WorkerResult.didWork := false;
                     WorkerResult.err := snd (build H (tinygo conf) d) |} w) as Hw.
    { apply outcome_Fatal_iff in Hd. unfold worker, bind, ret.
      destruct (build H (tinygo conf) d) as [br [err|]]; [done|].
      by destruct Hd. }
    rewrite Hw. simpl.
    apply outcome_Fatal_iff in Hd.
    destruct (snd (build H (tinygo conf) d)); [done | by destruct Hd].
  - cbn [app received]. unfold bind.
    destruct (worker G H conf a w) as [r w1|w1|w1]; try done.
    destruct (WorkerResult.err r) eqn:He; [done|].
    specialize (IH (classify st r) w1). unfold bind, ret in IH.
    destruct (received G H conf (pre ++ d :: post) w1) as [rs w2|w2|w2];
      destruct (received G H conf pre w1) as [rs' w2'|w2'|w2'];
      unfold ret in *; try discriminate; try done.
    cbn [collect]. rewrite He. exact IH.
Qed.

(** X6: a build that cannot start ends the collecting silently: when
    the run returns, it returns no error and the status that the run
    over the components that arrived before returns, so that no
    component that arrives only later is in any of the lists. *)
Theorem aborted_build_truncates_run conf pre d post w st e w' :
  outcome (build H (tinygo conf) d) = Fatal ->
  buildDirs G H conf (pre ++ d :: post) w = Ret (st, e) w' ->
  e = None
  /\ (exists w'', buildDirs G H conf pre w = Ret (st, None) w'')
  /\ forall x, In x (passing st ++ failing st ++ excluded st ++ modified st) ->
               In x pre.
Proof.
  intros Hd Hrun. rewrite (buildDirs_truncated conf pre d post w Hd) in Hrun.
  assert (e = None) as ->.
  { revert Hrun. unfold buildDirs, bind, ret.
    destruct (received G H conf pre w); intros Hr; by simplify_eq. }
  split; [done|]. split; [by exists w'|].
  assert (forall o x, o <> Fatal -> In x (bucket o st) -> In x pre) as Hb.
  { intros o x Ho Hx.
    rewrite (buildDirs_bucket conf pre w st None w' o Hrun Ho) in Hx.
    apply list_elem_of_In, list_elem_of_filter in Hx as [_ Hx].
    by apply list_elem_of_In, untilFatal_incl in Hx as [Hx _]. }
  intros x Hx. repeat (apply in_app_or in Hx as [Hx | Hx]).
  - by apply (Hb Success).
  - by apply (Hb Failure).
  - by apply (Hb Excluded).
  - revert Hrun Hx. unfold buildDirs, bind, ret.
    destruct (received G H conf pre w) as [rs w1|w1|w1] eqn:Hrec; try discriminate.
    intros Hr Hx. simplify_eq.
    destruct (received_untilFatal G H conf pre w rs w' Hrec)
      as (oks & Hcol & Hmap & Hall).
    rewrite Hcol, collect_modified in Hx.
    2:{ eapply Forall_impl; [exact Hall|]. by intros r (He & _). }
    simpl in Hx. apply in_map_iff in Hx as (r & <- & Hr).
    apply list_elem_of_In, list_elem_of_filter in Hr as [_ Hr].
    assert (In (WorkerResult.dir r) (untilFatal H (tinygo conf) pre)) as Huf.
    { rewrite <- Hmap. apply in_map. by apply list_elem_of_In. }
    by apply untilFatal_incl in Huf as [? _].
Qed.

(** X7: exit status 0 means that [buildDirs] returned with an empty
    [modified] and that the report was written from its status; when
    in addition no build aborted, every file but the one named for the
    report is as it was. *)
Theorem main_status_zero P conf arrival w :
  status (main G H P conf arrival w) = 0%Z ->
  exists st w',
    buildDirs G H conf arrival {| files := created conf (files w); calls := calls w |}
    = Ret (st, None) w'
    /\ modified st = []
    /\ report (main G H P conf arrival w)
       = Some (fst (writeMarkdown P (pathMD conf)
                      (fst (tinygoVersion H P (tinygo conf))) st))
    /\ (Forall (fun d => outcome (build H (tinygo conf) d) <> Fatal) arrival ->
        forall path, path <> pathMD conf ->
          sources (main G H P conf arrival w) !! path = files w !! path).
Proof.
  set (w0 := {| files := created conf (files w); calls := calls w |}).
  destruct (buildDirs_effect conf arrival w0) as (_ & _ & Hnone).
  unfold main. fold w0.
  destruct (tinygoVersion H P (tinygo conf)) as [v [e|]]; [done|].
  case_match; [done|].
  destruct (buildDirs G H conf arrival w0) as [[st [e|]] w'|w'|w']; try done.
  simpl. destruct (modified st) eqn:Hm; [|done]. intros _.
  exists st, w'. split; [done|]. split; [done|]. split; [done|].
  intros _ path Hne.
  rewrite written_other, (Hnone st None w' eq_refl Hm) by done.
  simpl. by apply created_other.
Qed.

End Run.

Lemma checkOnly_keeps_sources_witness :
  let conf := DemoRun.checkConf ["cmds/bad"; "cmds/gone"; "cmds/worse"] in
  filesAfter LineSyntax.syntax DemoRun.host conf ["cmds/bad"; "cmds/gone"; "cmds/worse"]
    [("cmds/worse", 2)] DemoRun.tree
  = files DemoRun.tree
  /\ (forall path, path <> pathMD conf ->
        sources (main LineSyntax.syntax DemoRun.host DemoRun.platform conf
                   ["cmds/bad"; "cmds/gone"; "cmds/worse"] DemoRun.tree) !! path
        = files DemoRun.tree !! path)
  /\ (toFile conf = false ->
      sources (main LineSyntax.syntax DemoRun.host DemoRun.platform conf
                 ["cmds/bad"; "cmds/gone"; "cmds/worse"] DemoRun.tree)
      = files DemoRun.tree).
Proof.
  exact (checkOnly_keeps_sources LineSyntax.syntax DemoRun.host DemoRun.platform
           (DemoRun.checkConf ["cmds/bad"; "cmds/gone"; "cmds/worse"])
           ["cmds/bad"; "cmds/gone"; "cmds/worse"] [("cmds/worse", 2)]
           DemoRun.tree eq_refl).
Defined.

Lemma unmodified_run_keeps_sources_witness :
  files (worldOf (buildDirs LineSyntax.syntax DemoRun.host
                    (DemoHost.conf ["cmds/ok"; "cmds/bad"]) ["cmds/bad"; "cmds/ok"]
                    DemoRun.settledTree))
  = files DemoRun.settledTree.
Proof.
  refine (unmodified_run_keeps_sources LineSyntax.syntax DemoRun.host
            (DemoHost.conf ["cmds/ok"; "cmds/bad"]) ["cmds/bad"; "cmds/ok"]
            DemoRun.settledTree
            {| passing := ["cmds/ok"]; failing := ["cmds/bad"];
               excluded := []; modified := [] |}
            None _ _ _ _).
  - repeat constructor; vm_compute; discriminate.
  - vm_compute. reflexivity.
  - reflexivity.
Defined.

(** After a [break] the premise of X3 matters: the build in
    "cmds/gone" aborts and is read first, the run returns an empty
    status, and the worker of "cmds/bad", whose result is never read,
    has rewritten its file. *)
Example late_worker_writes_unreported :
  let conf := DemoHost.conf ["cmds/gone"; "cmds/bad"] in
  buildDirs LineSyntax.syntax DemoRun.host conf ["cmds/gone"; "cmds/bad"] DemoRun.tree
  = Ret (noStatus, None) DemoRun.tree
  /\ filesAfter LineSyntax.syntax DemoRun.host conf ["cmds/gone"; "cmds/bad"]
       [("cmds/bad", 2)] DemoRun.tree
     = files DemoRun.settledTree
  /\ files DemoRun.settledTree <> files DemoRun.tree.
Proof.
  split; [vm_compute; reflexivity|]. split; [vm_compute; reflexivity|].
  intros Heq. apply (f_equal (fun fs => fs !! "cmds/bad/main.go")) in Heq.
  vm_compute in Heq. discriminate.
Qed.

Lemma status_follows_arrival_witness :
  let st := {| passing := []; failing := ["cmds/bad"];
               excluded := []; modified := ["cmds/bad"] |} in
  let ran := untilFatal DemoRun.host "tinygo" ["cmds/bad"; "cmds/gone"; "cmds/ok"] in
  passing st
  = filter (fun d => outcome (build DemoRun.host "tinygo" d) = Success) ran
  /\ failing st
     = filter (fun d => outcome (build DemoRun.host "tinygo" d) = Failure) ran
  /\ excluded st
     = filter (fun d => outcome (build DemoRun.host "tinygo" d) = Excluded) ran.
Proof.
  refine (status_follows_arrival LineSyntax.syntax DemoRun.host
            (DemoHost.conf ["cmds/ok"; "cmds/bad"; "cmds/gone"])
            ["cmds/bad"; "cmds/gone"; "cmds/ok"] DemoRun.tree
            {| passing := []; failing := ["cmds/bad"];
               excluded := []; modified := ["cmds/bad"] |}
            None
            (worldOf (buildDirs LineSyntax.syntax DemoRun.host
                        (DemoHost.conf ["cmds/ok"; "cmds/bad"; "cmds/gone"])
                        ["cmds/bad"; "cmds/gone"; "cmds/ok"] DemoRun.tree)) _).
  vm_compute. reflexivity.
Defined.

Lemma modified_were_built_witness :
  let st := {| passing := ["cmds/ok"]; failing := ["cmds/bad"];
               excluded := ["cmds/plan9"]; modified := ["cmds/bad"] |} in
  In "cmds/bad" (untilFatal DemoRun.host "tinygo" ["cmds/plan9"; "cmds/bad"; "cmds/ok"])
  /\ ranBuild (outcome (build DemoRun.host "tinygo" "cmds/bad"))
  /\ (In "cmds/bad" (passing st) \/ In "cmds/bad" (failing st))
  /\ ~ In "cmds/bad" (excluded st).
Proof.
  refine (modified_were_built LineSyntax.syntax DemoRun.host
            (DemoHost.conf ["cmds/ok"; "cmds/bad"; "cmds/plan9"])
            ["cmds/plan9"; "cmds/bad"; "cmds/ok"] DemoRun.tree
            {| passing := ["cmds/ok"]; failing := ["cmds/bad"];
               excluded := ["cmds/plan9"]; modified := ["cmds/bad"] |}
            None
            (worldOf (buildDirs LineSyntax.syntax DemoRun.host
                        (DemoHost.conf ["cmds/ok"; "cmds/bad"; "cmds/plan9"])
                        ["cmds/plan9"; "cmds/bad"; "cmds/ok"] DemoRun.tree))
            "cmds/bad" _ _).
  - vm_compute. reflexivity.
  - simpl. tauto.
Defined.

Lemma aborted_build_truncates_run_witness :
  let conf := DemoHost.conf ["cmds/ok"; "cmds/bad"; "cmds/gone"] in
  let st := {| passing := []; failing := ["cmds/bad"];
               excluded := []; modified := ["cmds/bad"] |} in
  @None error = None
  /\ (exists w'', buildDirs LineSyntax.syntax DemoRun.host conf ["cmds/bad"] DemoRun.tree
                  = Ret (st, None) w'')
  /\ forall x, In x (passing st ++ failing st ++ excluded st ++ modified st) ->
               In x ["cmds/bad"].
Proof.
  refine (aborted_build_truncates_run LineSyntax.syntax DemoRun.host
            (DemoHost.conf ["cmds/ok"; "cmds/bad"; "cmds/gone"])
            ["cmds/bad"] "cmds/gone" ["cmds/ok"] DemoRun.tree
            {| passing := []; failing := ["cmds/bad"];
               excluded := []; modified := ["cmds/bad"] |}
            None
            (worldOf (buildDirs LineSyntax.syntax DemoRun.host
                        (DemoHost.conf ["cmds/ok"; "cmds/bad"; "cmds/gone"])
                        (["cmds/bad"] ++ "cmds/gone" :: ["cmds/ok"]) DemoRun.tree))
            _ _).
  - vm_compute. reflexivity.
  - vm_compute. reflexivity.
Defined.

Lemma main_status_zero_witness :
  let conf := DemoRun.fileConf ["cmds/ok"; "cmds/bad"] in
  let run := main LineSyntax.syntax DemoRun.host DemoRun.platform conf
               ["cmds/bad"; "cmds/ok"] DemoRun.settledTree in
  exists st w',
    buildDirs LineSyntax.syntax DemoRun.host conf ["cmds/bad"; "cmds/ok"]
      {| files := created conf (files DemoRun.settledTree);
         calls := calls DemoRun.settledTree |}
    = Ret (st, None) w'
    /\ modified st = []
    /\ report run
       = Some (fst (writeMarkdown DemoRun.platform (pathMD conf)
                      (fst (tinygoVersion DemoRun.host DemoRun.platform
                              (tinygo conf))) st))
    /\ (Forall (fun d => outcome (build DemoRun.host (tinygo conf) d) <> Fatal)
               ["cmds/bad"; "cmds/ok"] ->
        forall path, path <> pathMD conf ->
          sources run !! path = files DemoRun.settledTree !! path).
Proof.
  refine (main_status_zero LineSyntax.syntax DemoRun.host DemoRun.platform
            (DemoRun.fileConf ["cmds/ok"; "cmds/bad"]) ["cmds/bad"; "cmds/ok"]
            DemoRun.settledTree _).
  vm_compute. reflexivity.
Defined.

(** ** The report and the worker count *)

Lemma sortStrings_Permutation l1 l2 :
  Permutation l1 l2 -> sortStrings l1 = sortStrings l2.
Proof.
  intros Hp. unfold sortStrings.
  apply (Sorted_unique String.le); try apply Sorted_merge_sort; try apply _.
  by rewrite !merge_sort_Permutation.
Qed.

Lemma untilFatal_all H tinygo arrival :
  Forall (fun d => outcome (build H tinygo d) <> Fatal) arrival ->
  untilFatal H tinygo arrival = arrival.
Proof.
  induction 1 as [|d ds Hd _ IH]; simpl; [done|].
  by rewrite decide_False, IH.
Qed.

Section ReportFacts.
Context (P : Platform) (pathMD : string).

Lemma processSet_Permutation header l1 l2 :
  Permutation l1 l2 -> processSet P pathMD header l1 = processSet P pathMD header l2.
Proof.
  intros Hp. unfold processSet.
  rewrite (sortStrings_Permutation l1 l2 Hp), (Permutation_length Hp).
  destruct l1 as [|x l1], l2 as [|y l2]; try done.
  - by apply Permutation_nil_cons in Hp.
  - symmetry in Hp. by apply Permutation_nil_cons in Hp.
Qed.

End ReportFacts.

Section ReportOfRun.
Context (G : GoSyntax) (H : Host) (P : Platform).

(** X8: the report depends on the outcomes of the builds alone: two
    runs over the same components, none of whose builds aborts, write
    the same report whatever the order in which the results arrive and
    whatever the source files hold. *)
Theorem report_independent_of_arrival conf a1 a2 w1 w2 st1 st2 e1 e2 w1' w2' version :
  Permutation a1 a2 ->
  Forall (fun d => outcome (build H (tinygo conf) d) <> Fatal) a1 ->
  buildDirs G H conf a1 w1 = Ret (st1, e1) w1' ->
  buildDirs G H conf a2 w2 = Ret (st2, e2) w2' ->
  writeMarkdown P (pathMD conf) version st1
  = writeMarkdown P (pathMD conf) version st2.
Proof.
  intros Hp Hok H1 H2.
  assert (Forall (fun d => outcome (build H (tinygo conf) d) <> Fatal) a2) as Hok2.
  { apply Forall_forall. intros d Hd. rewrite <- Hp in Hd.
    by apply (proj1 (Forall_forall _ _) Hok). }
  assert (forall o, o <> Fatal -> Permutation (bucket o st1) (bucket o st2)) as Hb.
  { intros o Ho.
    rewrite (buildDirs_bucket G H _ _ _ _ _ _ o H1 Ho),
            (buildDirs_bucket G H _ _ _ _ _ _ o H2 Ho).
    rewrite !untilFatal_all by done. by rewrite Hp. }
  unfold writeMarkdown. f_equal.
  rewrite (processSet_Permutation P _ "EXCLUDED" _ _ (Hb Excluded ltac:(done))).
  rewrite (processSet_Permutation P _ "FAILING" _ _ (Hb Failure ltac:(done))).
  by rewrite (processSet_Permutation P _ "PASSING" _ _ (Hb Success ltac:(done))).
Qed.

End ReportOfRun.

(** X9: on a machine with a processor, the number of workers is at
    most the number of directories, and at least one when there is a
    directory to build, whatever the flag asks for. *)
Theorem workerCount_bounds conf numCPU :
  (1 <= numCPU)%Z ->
  (Z.min 1 (Z.of_nat (length (dirs conf))) <= workerCount conf numCPU
   <= Z.of_nat (length (dirs conf)))%Z.
Proof.
  intros Hcpu. unfold workerCount.
  set (jobs := Z.of_nat (length (dirs conf))).
  assert (0 <= jobs)%Z as Hjobs by (unfold jobs; lia).
  destruct (Z.leb_spec (nWorkers conf) 0) as [Hn | Hn];
    [destruct (Z.gtb_spec numCPU jobs) | destruct (Z.gtb_spec (nWorkers conf) jobs)];
    lia.
Qed.

Lemma report_independent_of_arrival_witness :
  writeMarkdown DemoRun.platform "-" "tinygo version 0.30.0"
    {| passing := ["cmds/ok"]; failing := ["cmds/worse"; "cmds/bad"];
       excluded := []; modified := ["cmds/worse"] |}
  = writeMarkdown DemoRun.platform "-" "tinygo version 0.30.0"
      {| passing := ["cmds/ok"]; failing := ["cmds/bad"; "cmds/worse"];
         excluded := []; modified := ["cmds/bad"; "cmds/worse"] |}.
Proof.
  refine (report_independent_of_arrival LineSyntax.syntax DemoRun.host DemoRun.platform
            (DemoHost.conf ["cmds/ok"; "cmds/bad"; "cmds/worse"])
            ["cmds/worse"; "cmds/ok"; "cmds/bad"]
            ["cmds/ok"; "cmds/bad"; "cmds/worse"]
            (DemoHost.world [("cmds/ok/main.go", DemoHost.source);
                             ("cmds/bad/main.go", DemoHost.conjoined);
                             ("cmds/worse/main.go", DemoHost.source)])
            (DemoHost.world [("cmds/ok/main.go", DemoHost.source);
                             ("cmds/bad/main.go", DemoHost.source);
                             ("cmds/worse/main.go", DemoHost.linuxOnly)])
            {| passing := ["cmds/ok"]; failing := ["cmds/worse"; "cmds/bad"];
               excluded := []; modified := ["cmds/worse"] |}
            {| passing := ["cmds/ok"]; failing := ["cmds/bad"; "cmds/worse"];
               excluded := []; modified := ["cmds/bad"; "cmds/worse"] |}
            None None
            (worldOf (buildDirs LineSyntax.syntax DemoRun.host
                        (DemoHost.conf ["cmds/ok"; "cmds/bad"; "cmds/worse"])
                        ["cmds/worse"; "cmds/ok"; "cmds/bad"]
                        (DemoHost.world [("cmds/ok/main.go", DemoHost.source);
                                         ("cmds/bad/main.go", DemoHost.conjoined);
                                         ("cmds/worse/main.go", DemoHost.source)])))
            (worldOf (buildDirs LineSyntax.syntax DemoRun.host
                        (DemoHost.conf ["cmds/ok"; "cmds/bad"; "cmds/worse"])
                        ["cmds/ok"; "cmds/bad"; "cmds/worse"]
                        (DemoHost.world [("cmds/ok/main.go", DemoHost.source);
                                         ("cmds/bad/main.go", DemoHost.source);
                                         ("cmds/worse/main.go", DemoHost.linuxOnly)])))
            "tinygo version 0.30.0" _ _ _ _).
  - exact (Permutation_cons_app ["cmds/ok"; "cmds/bad"] [] "cmds/worse"
             (Permutation_refl _)).
  - repeat constructor; vm_compute; discriminate.
  - vm_compute. reflexivity.
  - vm_compute. reflexivity.
Defined.

Lemma workerCount_bounds_witness :
  (Z.min 1 (Z.of_nat (length ["cmds/ok"; "cmds/bad"]))
   <= workerCount (DemoHost.conf ["cmds/ok"; "cmds/bad"]) 8
   <= Z.of_nat (length ["cmds/ok"; "cmds/bad"]))%Z.
Proof.
  apply (workerCount_bounds (DemoHost.conf ["cmds/ok"; "cmds/bad"]) 8). lia.
Defined.

(** ** The build runner *)

Lemma Split_nonempty s sep : Strings.Split s sep <> [].
Proof.
  destruct s as [|c s]; simpl; [done|].
  destruct (Ascii.eqb c sep); [done|]. by destruct (Strings.Split s sep).
Qed.

Lemma Split_app a b sep :
  Strings.Split (a +:+ String sep b) sep = Strings.Split a sep ++ Strings.Split b sep.
Proof.
  induction a as [|c a IH]; simpl.
  - by rewrite Ascii.eqb_refl.
  - rewrite IH. destruct (Ascii.eqb c sep); [done|].
    pose proof (Split_nonempty a sep). by destruct (Strings.Split a sep).
Qed.

Lemma Split_whole s sep : hasByte sep s = false -> Strings.Split s sep = [s].
Proof.
  induction s as [|c s IH]; simpl; [done|].
  intros [Hc Hs]%orb_false_iff. by rewrite Hc, (IH Hs).
Qed.

Lemma last_app_nonempty {A} (l1 l2 : list A) d :
  l2 <> [] -> List.last (l1 ++ l2) d = List.last l2 d.
Proof.
  intros Hne. induction l1 as [|x l1 IH]; [done|].
  simpl. rewrite IH. destruct (l1 ++ l2) eqn:Happ; [|done].
  by apply app_eq_nil in Happ as [_ ?].
Qed.

Lemma addBuildTags_values :
  map_Forall (fun _ v => v = "noasm") addBuildTags.
Proof.
  apply map_Forall_to_list. vm_compute. repeat constructor.
Qed.

(** X10: the tags of a directory are those of the last element of its
    path, whatever comes before it; a path that ends in a slash has no
    tags; and the only tags ever added are "noasm". *)
Theorem buildTags_of_last_element dir name :
  hasByte "/" name = false ->
  buildTags (dir +:+ "/" +:+ name) = default "" (addBuildTags !! name)
  /\ buildTags name = default "" (addBuildTags !! name)
  /\ buildTags (dir +:+ "/") = ""
  /\ (buildTags name = "" \/ buildTags name = "noasm").
Proof.
  intros Hname.
  assert (buildTags name = default "" (addBuildTags !! name)) as Hn.
  { unfold buildTags. by rewrite (Split_whole _ _ Hname). }
  assert (forall s, hasByte "/" s = false ->
            buildTags (dir +:+ "/" +:+ s) = default "" (addBuildTags !! s)) as Hd.
  { intros s Hs. unfold buildTags.
    change (dir +:+ "/" +:+ s) with (dir +:+ String "/" s).
    rewrite Split_app, last_app_nonempty by apply Split_nonempty.
    by rewrite (Split_whole _ _ Hs). }
  split; [by apply Hd|]. split; [exact Hn|]. split.
  - replace (dir +:+ "/") with (dir +:+ "/" +:+ "") by done.
    by rewrite Hd.
  - rewrite Hn. destruct (addBuildTags !! name) as [v|] eqn:Hv; [|by left].
    right. exact (addBuildTags_values _ _ Hv).
Qed.

Lemma buildTags_of_last_element_witness :
  buildTags ("cmds/core" +:+ "/" +:+ "gzip") = default "" (addBuildTags !! "gzip")
  /\ buildTags "gzip" = default "" (addBuildTags !! "gzip")
  /\ buildTags ("cmds/core" +:+ "/") = ""
  /\ (buildTags "gzip" = "" \/ buildTags "gzip" = "noasm").
Proof.
  exact (buildTags_of_last_element "cmds/core" "gzip" eq_refl).
Defined.

(** X11: the outcome of [build] is decided by how the one tinygo
    command ends: Success when it reports no error; Fatal when it could
    not be run to an exit status; otherwise Excluded or Failure, by what
    "go build -n" prints for the directory. The output kept is that of
    the tinygo command. *)
Theorem build_outcome_by_command H tinygo dir :
  let r := CombinedOutput H (tinygoCmd tinygo dir) in
  outcome (build H tinygo dir)
  = match snd r with
    | None => Success
    | Some (ErrExit _) => if isExcluded H dir then Excluded else Failure
    | Some (ErrOther _) => Fatal
    end
  /\ BuildRes.output (fst (build H tinygo dir)) = fst r.
Proof.
  assert (build H tinygo dir
          = let '(out, err) := CombinedOutput H (tinygoCmd tinygo dir) in
            match err with
            | Some e =>
                let '(ee, ok) := asExitError e in
                let res := {| BuildRes.err := ee; BuildRes.excluded := false;
                              BuildRes.output := out |} in
                if negb ok then (res, Some e)
                else if isExcluded H dir then
                  ({| BuildRes.err := ee; BuildRes.excluded := true;
                      BuildRes.output := out |}, None)
                else (res, None)
            | None => ({| BuildRes.err := None; BuildRes.excluded := false;
                          BuildRes.output := out |}, None)
            end) as ->.
  { unfold build, tinygoCmd. by destruct (String.eqb (buildTags dir) ""). }
  destruct (CombinedOutput H (tinygoCmd tinygo dir)) as [out [[x|msg]|]]; simpl;
    [|done..].
  by destruct (isExcluded H dir).
Qed.

(** ** The two patterns *)

Lemma hasByte_app c a b : hasByte c (a +:+ b) = hasByte c a || hasByte c b.
Proof. induction a as [|x a IH]; simpl; [done|]. by rewrite IH, orb_assoc. Qed.

Lemma HasPrefix_hasByte c p s :
  Strings.HasPrefix s (String c p) = true -> hasByte c s = true.
Proof.
  destruct s as [|x s]; simpl; [done|].
  intros [Hx _]%andb_true_iff. by rewrite Hx.
Qed.

Lemma Contains_hasByte c p s :
  Strings.Contains s (String c p) = true -> hasByte c s = true.
Proof.
  induction s as [|x s IH]; [done|].
  cbn [Strings.Contains]. intros [Hp | Hc]%orb_true_iff.
  - by apply (HasPrefix_hasByte c p).
  - simpl. rewrite (IH Hc). apply orb_true_r.
Qed.

Lemma star_hasByte c k s : forall n (cont : nat -> string -> option nat),
  (forall n' s', cont n' s' <> None -> hasByte c s' = true) ->
  star k n s cont <> None -> hasByte c s = true.
Proof.
  induction s as [|x s IH]; intros n cont Hcont; simpl; [apply Hcont|].
  destruct (in_class k x); [|apply Hcont].
  destruct (star k (S n) s cont) eqn:Hs.
  - intros _. rewrite (IH (S n) cont Hcont); [apply orb_true_r | congruence].
  - apply Hcont.
Qed.

Lemma run_opt_star_word c w k1 k2 rest b n s cont :
  run (Cat (Opt (One k1)) (Cat (Star k2) (Cat (word (String c w)) rest))) b n s cont
  <> None ->
  hasByte c s = true.
Proof.
  cbn [run].
  set (K := fun (n' : nat) (s' : string) =>
              run (One (CByte c)) b n' s'
                (fun n1 s1 => run (word w) b n1 s1
                                (fun n2 s2 => run rest b n2 s2 cont))).
  assert (forall n' s', K n' s' <> None -> hasByte c s' = true) as HK.
  { intros n' s'. unfold K. cbn [run in_class].
    destruct s' as [|x s']; [done|]. simpl.
    destruct (Ascii.eqb x c); [done|]. by intros []. }
  change (match
            match s with
            | String x s' => if in_class k1 x then star k2 (S n) s' K else None
            | EmptyString => None
            end
          with
          | Some e => Some e
          | None => star k2 n s K
          end <> None -> hasByte c s = true).
  destruct s as [|x s].
  - by apply (star_hasByte c k2 "" n K).
  - destruct (in_class k1 x).
    + destruct (star k2 (S n) s K) eqn:Hs.
      * intros _. simpl. rewrite (star_hasByte c k2 s (S n) K HK); [|by rewrite Hs].
        apply orb_true_r.
      * by apply (star_hasByte c k2 _ n K).
    + by apply (star_hasByte c k2 _ n K).
Qed.

(** The strip pattern matches nowhere in a text without [!]. *)
Lemma stripRe_needs_bang b s : hasByte "!" s = false -> matchAt stripRe b s = None.
Proof.
  intros Hs. destruct (matchAt stripRe b s) as [e|] eqn:Hm; [|done].
  exfalso.
  assert (hasByte "!" s = true); [|congruence].
  apply (run_opt_star_word "!" "tinygo" (CByte "(") CSpace
           (seq [Plus CSpace; word "||"; Plus CSpace; word "tinygo";
                 Dot; word "enable"; Star CSpace; Opt (One (CByte ")"));
                 Opt (Cat (Plus CSpace) (word "&&"))])
           b 0 s (fun n _ => Some n)).
  change (matchAt stripRe b s <> None). by rewrite Hm.
Qed.

Lemma strip_no_bang s : hasByte "!" s = false -> strip s = s.
Proof.
  intros Hs.
  assert (forall b a, replaceFrom stripRe "" b a 0 s = s) as Hgen; [|apply Hgen].
  induction s as [|x s IH]; intros b a; cbn [replaceFrom].
  - by rewrite stripRe_needs_bang.
  - rewrite stripRe_needs_bang by done.
    simpl in Hs. apply orb_false_iff in Hs as [_ Hs]. by rewrite IH.
Qed.

(** Conjoining the clause and stripping it again leaves the expression
    in parentheses, after one more space. *)
Lemma strip_conjoined E :
  hasByte "!" E = false ->
  strip (goBuild +:+ "(" +:+ constraint +:+ ") && (" +:+ E +:+ ")")
  = "//go:build  (" +:+ E +:+ ")".
Proof.
  intros HE.
  change (goBuild +:+ "(" +:+ constraint +:+ ") && (" +:+ E +:+ ")")
    with (goBuild +:+ "(" +:+ constraint +:+ ") &&" +:+ (" (" +:+ E +:+ ")")).
  rewrite strip_leading_clause, strip_no_bang; [done|].
  rewrite !hasByte_app, HE. reflexivity.
Qed.

Lemma afterSpaces_goBuild n r :
  afterSpaces n ("//go:build" +:+ r)
  = if isBlank r then Some (10 + n + String.length r) else None.
Proof.
  change (afterSpaces n ("//go:build" +:+ r))
    with (star CSpace (10 + n) r (fun n' s' => match s' with
                                               | EmptyString => Some n'
                                               | String _ _ => None
                                               end)).
  apply star_space_eot.
Qed.

Lemma afterSpaces_spec n s :
  afterSpaces n s <> None
  <-> exists r, s = "//go:build" +:+ r /\ isBlank r = true.
Proof.
  split.
  - intros Hr.
    pose proof (run_word_prefix "//go:build" true n s
                  (fun n' s' => run (seq [Star CSpace; Eot]) true n' s'
                                  (fun n2 _ => Some n2)) Hr) as Hp.
    apply HasPrefix_split in Hp as [r ->]. exists r. split; [done|].
    rewrite afterSpaces_goBuild in Hr. by destruct (isBlank r).
  - intros (r & -> & Hb). by rewrite afterSpaces_goBuild, Hb.
Qed.

Lemma star_afterSpaces t : forall n,
  star CSpace n t afterSpaces <> None
  <-> exists l r, t = l +:+ "//go:build" +:+ r /\ isBlank l = true /\ isBlank r = true.
Proof.
  induction t as [|c t IH]; intros n; cbn [star].
  - rewrite afterSpaces_spec. split.
    + intros (r & Hr & _). discriminate.
    + intros (l & r & Ht & _). by destruct l.
  - cbn [in_class]. destruct (is_space c) eqn:Hc.
    + split.
      * destruct (star CSpace (S n) t afterSpaces) eqn:Hs.
        -- intros _. destruct (proj1 (IH (S n))) as (l & r & -> & Hl & Hr);
             [by rewrite Hs|].
           exists (String c l), r. split; [done|]. split; [|done].
           simpl. by rewrite Hc, Hl.
        -- intros (r & Hr & _)%afterSpaces_spec.
           injection Hr as -> _. discriminate.
      * intros (l & r & Ht & Hl & Hr).
        destruct l as [|x l]; [injection Ht as -> _; discriminate|].
        injection Ht as -> ->. simpl in Hl. apply andb_true_iff in Hl as [_ Hl].
        destruct (star CSpace (S n) (l +:+ "//go:build" +:+ r) afterSpaces) eqn:Hs;
          [done|].
        exfalso. apply (proj2 (IH (S n))); [|exact Hs]. by exists l, r.
    + rewrite afterSpaces_spec. split.
      * intros (r & -> & Hr). by exists "", r.
      * intros (l & r & Ht & Hl & Hr).
        destruct l as [|x l]; [by exists r|].
        injection Ht as -> _. simpl in Hl. by rewrite Hc in Hl.
Qed.

(** X12: the bare pattern matches exactly the texts that read
    //go:build between white space. *)
Theorem bareRe_matches_exactly t :
  MatchString bareRe t = true
  <-> exists l r, t = l +:+ "//go:build" +:+ r
                  /\ isBlank l = true /\ isBlank r = true.
Proof.
  rewrite <- (star_afterSpaces t 0).
  unfold MatchString. rewrite matchFrom_unfold.
  change (matchAt bareRe true t) with (star CSpace 0 t afterSpaces).
  destruct (star CSpace 0 t afterSpaces) eqn:Hs; [done|].
  split; [|done]. destruct t as [|c t]; [done|].
  by rewrite matchFrom_bare_later.
Qed.

(** ** Stripping the clause *)

Lemma append_assoc a b c : (a +:+ b) +:+ c = a +:+ (b +:+ c).
Proof.
  induction a as [|x a IH]; [done|].
  change (String x ((a +:+ b) +:+ c) = String x (a +:+ (b +:+ c))). by rewrite IH.
Qed.

Lemma star_space_prefix c (cont : nat -> string -> option nat) :
  is_space c = false ->
  (forall n s, cont n s <> None -> Strings.HasPrefix s (String c "") = true) ->
  forall t n, star CSpace n t cont <> None ->
              Strings.HasPrefix (dropSpace t) (String c "") = true.
Proof.
  intros Hc Hcont. induction t as [|ch t IH]; intros n; cbn [star dropSpace].
  - apply Hcont.
  - cbn [in_class]. destruct (is_space ch) eqn:Hch; [|apply Hcont].
    destruct (star CSpace (S n) t cont) eqn:Hs.
    + intros _. apply (IH (S n)). by rewrite Hs.
    + intros Hk. apply Hcont in Hk. simpl in Hk.
      apply andb_true_iff in Hk as [Hk _]. apply Ascii.eqb_eq in Hk. congruence.
Qed.

(** Where the strip pattern matches, the text reads [!] after white
    space, or after one byte and white space. *)
Lemma stripRe_starts b s :
  matchAt stripRe b s <> None ->
  Strings.HasPrefix (dropSpace s) "!" = true
  \/ exists x s', s = String x s' /\ Strings.HasPrefix (dropSpace s') "!" = true.
Proof.
  set (rest := seq [Plus CSpace; word "||"; Plus CSpace; word "tinygo";
                    Dot; word "enable"; Star CSpace; Opt (One (CByte ")"));
                    Opt (Cat (Plus CSpace) (word "&&"))]).
  set (K := fun (n' : nat) (s' : string) =>
              run (word "!tinygo") b n' s'
                (fun n2 s2 => run rest b n2 s2 (fun n3 _ => Some n3))).
  assert (forall n' s', K n' s' <> None -> Strings.HasPrefix s' "!" = true) as HK.
  { intros n' s' Hr. apply run_word_prefix in Hr.
    destruct s' as [|x s']; [done|]. simpl in *.
    apply andb_true_iff in Hr as [-> _]. done. }
  change (matchAt stripRe b s)
    with (match
            match s with
            | String x s' => if in_class (CByte "(") x then star CSpace 1 s' K else None
            | EmptyString => None
            end
          with
          | Some e => Some e
          | None => star CSpace 0 s K
          end).
  destruct s as [|x s].
  - intros Hk. left. by apply (star_space_prefix "!" K eq_refl HK "" 0).
  - destruct (in_class (CByte "(") x).
    + destruct (star CSpace 1 s K) eqn:Hs.
      * intros _. right. exists x, s. split; [done|].
        apply (star_space_prefix "!" K eq_refl HK s 1). by rewrite Hs.
      * intros Hk. left. by apply (star_space_prefix "!" K eq_refl HK _ 0).
    + intros Hk. left. by apply (star_space_prefix "!" K eq_refl HK _ 0).
Qed.

Lemma dropSpace_no_bang q r :
  hasByte "!" q = false ->
  Strings.HasPrefix (dropSpace r) "!" = false ->
  Strings.HasPrefix (dropSpace (q +:+ r)) "!" = false.
Proof.
  intros Hq Hr. induction q as [|x q IH]; [done|].
  simpl in Hq. apply orb_false_iff in Hq as [Hx Hq].
  change (String x q +:+ r) with (String x (q +:+ r)).
  cbn [dropSpace]. destruct (is_space x); [by apply IH|].
  simpl. by rewrite Hx.
Qed.

(** In front of a clause in parentheses, a text without [!] holds no
    match of the strip pattern and is kept as it is. *)
Lemma strip_before_clause P :
  hasByte "!" P = false ->
  strip (P +:+ "(" +:+ constraint +:+ ")") = P.
Proof.
  intros HP. unfold strip, ReplaceAllString.
  assert (forall b a, replaceFrom stripRe "" b a 0 (P +:+ "(" +:+ constraint +:+ ")")
                      = P) as Hgen; [|apply Hgen].
  induction P as [|x P IH]; intros b a.
  - rewrite replaceFrom_is_strip. reflexivity.
  - simpl in HP. apply orb_false_iff in HP as [Hx HP].
    change (String x P +:+ "(" +:+ constraint +:+ ")")
      with (String x (P +:+ "(" +:+ constraint +:+ ")")).
    cbn [replaceFrom].
    destruct (matchAt stripRe b (String x (P +:+ "(" +:+ constraint +:+ ")")))
      as [e|] eqn:Hm; [|by rewrite IH].
    exfalso.
    destruct (stripRe_starts b (String x (P +:+ "(" +:+ constraint +:+ ")")))
      as [Hp | (y & s' & Heq & Hp)]; [by rewrite Hm| |].
    + change (String x (P +:+ "(" +:+ constraint +:+ ")"))
        with (String x P +:+ "(" +:+ constraint +:+ ")") in Hp.
      rewrite dropSpace_no_bang in Hp; [done| |done].
      simpl. by rewrite Hx, HP.
    + injection Heq as <- <-. rewrite dropSpace_no_bang in Hp; done.
Qed.

Lemma isTag_last t :
  isTag t = true -> exists p c, t = p +:+ String c "" /\ isTagByte c = true.
Proof.
  destruct t as [|x t]; [done|]. simpl. revert x.
  induction t as [|y t IH]; intros x Ht.
  - exists "", x. split; [done|]. simpl in Ht. by apply andb_true_iff in Ht as [? _].
  - cbn [allTagBytes] in Ht. apply andb_true_iff in Ht as [Hx Ht].
    destruct (IH y Ht) as (p & c & -> & Hc). by exists (String x p), c.
Qed.

(** The text of an expression ends in an operand. *)
Lemma expression_endsInOperand :
  (forall s x, orExpr s x -> endsInOperand s)
  /\ (forall s x, andExpr s x -> endsInOperand s)
  /\ (forall s x, notExpr s x -> endsInOperand s)
  /\ (forall s x, atomExpr s x -> endsInOperand s).
Proof.
  apply expr_mutind; try done.
  - intros s1 s2 x y _ _ _ (p & c & r & -> & Hr & Hc).
    exists (s1 +:+ "||" +:+ p), c, r. by rewrite !append_assoc.
  - intros s1 s2 x y _ _ _ (p & c & r & -> & Hr & Hc).
    exists (s1 +:+ "&&" +:+ p), c, r. by rewrite !append_assoc.
  - intros l s x Hl _ (p & c & r & -> & Hr & Hc).
    exists (l +:+ "!" +:+ p), c, r. by rewrite !append_assoc.
  - intros l t r Hl Ht Hr. destruct (isTag_last t Ht) as (p & c & -> & Hc).
    exists (l +:+ p), c, r. rewrite !append_assoc. auto.
  - intros l s r x Hl _ _ Hr.
    exists (l +:+ "(" +:+ s), ")"%char, r. rewrite !append_assoc. auto.
Qed.

Lemma isBlank_app a b : isBlank (a +:+ b) = isBlank a && isBlank b.
Proof. induction a as [|x a IH]; simpl; [done|]. by rewrite IH, andb_assoc. Qed.

Lemma last_nonblank_unique p : forall p' c c' r r',
  isBlank r = true -> isBlank r' = true ->
  is_space c = false -> is_space c' = false ->
  p +:+ String c r = p' +:+ String c' r' -> c = c'.
Proof.
  induction p as [|x p IH]; intros p' c c' r r' Hr Hr' Hc Hc' Heq.
  - destruct p' as [|y p'].
    + change (String c r = String c' r') in Heq. by injection Heq.
    + change (String c r = String y (p' +:+ String c' r')) in Heq.
      injection Heq as -> ->. rewrite isBlank_app in Hr. simpl in Hr.
      rewrite Hc' in Hr. by rewrite andb_false_r in Hr.
  - destruct p' as [|y p'].
    + change (String x (p +:+ String c r) = String c' r') in Heq.
      injection Heq as -> <-. rewrite isBlank_app in Hr'. simpl in Hr'.
      rewrite Hc in Hr'. by rewrite andb_false_r in Hr'.
    + change (String x (p +:+ String c r) = String y (p' +:+ String c' r')) in Heq.
      injection Heq as -> Heq. by apply (IH p' c c' r r').
Qed.

Lemma isTagByte_not_space c : isTagByte c = true -> is_space c = false.
Proof.
  intros Hc. destruct (is_space c) eqn:Hs; [|done]. exfalso.
  unfold is_space in Hs.
  repeat (apply orb_true_iff in Hs as [Hs | Hs]);
    apply Ascii.eqb_eq in Hs; subst c; discriminate.
Qed.

(** C5 (the code departs from it): the strip pattern takes a
    conjunction operator with the clause only when it follows the
    clause. For every expression [E] without [!], the line
    [//go:build E && (clause)] is left as [//go:build E && ], which is
    no expression; on a file with the line [//go:build linux &&
    (clause)] that is the line written back. A line that is the clause
    alone is taken out of the file as the claim says. *)
Theorem strip_keeps_leading_operator :
  (forall E, hasByte "!" E = false ->
     strip (goBuild +:+ E +:+ " && (" +:+ constraint +:+ ")") = goBuild +:+ E +:+ " && ")
  /\ (forall E e, ~ orExpr (E +:+ " && ") e)
  /\ (exists f',
        fixupAst true (DemoHost.parsed DemoHost.clauseLast) = Edited f'
        /\ map (fun cg => map Text (List cg)) (Comments f') = [["//go:build linux && "]])
  /\ (exists w',
        fixupFileConstraints LineSyntax.syntax DemoHost.host DemoHost.mainGo true false
          (DemoHost.world [(DemoHost.mainGo, DemoHost.clauseLast)])
        = Ret (true, None) w'
        /\ files w' !! DemoHost.mainGo
           = Some (LineSyntax.unlines ["//go:build linux && "; ""; "package main"]))
  /\ (exists w',
        fixupFileConstraints LineSyntax.syntax DemoHost.host DemoHost.mainGo true false
          (DemoHost.world [(DemoHost.mainGo, DemoHost.clauseOnly)])
        = Ret (true, None) w'
        /\ files w' !! DemoHost.mainGo
           = Some (LineSyntax.unlines ["// Copyright"; ""; "package main"])).
Proof.
  split; [|split; [|split; [|split]]].
  - intros E HE.
    replace (goBuild +:+ E +:+ " && (" +:+ constraint +:+ ")")
      with ((goBuild +:+ E +:+ " && ") +:+ "(" +:+ constraint +:+ ")")
      by (by rewrite !append_assoc).
    apply strip_before_clause. rewrite !hasByte_app, HE. reflexivity.
  - intros E e He.
    destruct (proj1 expression_endsInOperand _ _ He) as (p & c & r & Heq & Hr & Hc).
    assert (is_space c = false) as Hsp.
    { destruct Hc as [Hc | ->]; [by apply isTagByte_not_space | reflexivity]. }
    assert ("&"%char = c) as <-.
    { apply (last_nonblank_unique (E +:+ " &") p "&" c " " r); try done.
      rewrite <- Heq. by rewrite !append_assoc. }
    by destruct Hc.
  - eexists. split; reflexivity.
  - eexists. split; [vm_compute; reflexivity|]. vm_compute. reflexivity.
  - eexists. split; [vm_compute; reflexivity|]. vm_compute. reflexivity.
Qed.

(** ** A failing build, then a passing one *)

Lemma fixupList_newGoBuild slash :
  fixupList true [] (List (newGoBuild slash)) = Broke [].
Proof. reflexivity. Qed.

Lemma length_append a b : String.length (a +:+ b) = String.length a + String.length b.
Proof. induction a as [|x a IH]; simpl; [done | by rewrite IH]. Qed.

(** X13: insert, then strip. On a file without //go:build line the
    rewriter for a failing build adds the line in a group of its own;
    run again for a passing build on the result, it takes the line out
    and keeps the group, now empty: every comment is back in place, and
    the list of comment groups is one longer. *)
Theorem insert_then_strip_leaves_empty_group {B} (f : File B) groups1 :
  noAnnotation (Comments f) ->
  insertGoBuild (Comments f) = Some groups1 ->
  fixupAst false f = Edited {| Comments := groups1; Rest := Rest f |}
  /\ exists groups2,
       fixupAst true {| Comments := groups1; Rest := Rest f |}
       = Edited {| Comments := groups2; Rest := Rest f |}
       /\ allComments groups2 = allComments (Comments f)
       /\ length groups2 = S (length (Comments f))
       /\ In {| List := [] |} groups2.
Proof.
  intros Hno Hins. split.
  { unfold fixupAst. rewrite fixupGroups_none by done. cbn [negb andb].
    by rewrite Hins. }
  unfold fixupAst. cbn [Comments Rest negb andb].
  destruct (Comments f) as [|first rest] eqn:Hcs; simpl in Hins.
  - simplify_eq. exists [ {| List := [] |} ]. cbn [fixupGroups].
    rewrite fixupList_newGoBuild. cbn [fixupGroups].
    split; [done|]. split; [done|]. split; [done | by left].
  - destruct (List first) as [|c0 cs] eqn:Hl; [discriminate|]. simplify_eq.
    inversion Hno as [|? ? Hfirst Hrest]; subst.
    exists (first :: {| List := [] |} :: rest).
    cbn [fixupGroups]. rewrite (fixupList_none true (List first) []) by done.
    cbn [fixupGroups]. rewrite fixupList_newGoBuild, fixupGroups_none by done.
    split; [done|]. split; [|split; [done | by right; left]].
    unfold allComments. simpl. done.
Qed.

(** X14: conjoin, then strip. A //go:build line [E] without [!], the
    only such line of the file, gets the clause for a failing build;
    run again for a passing build on the result, the rewriter leaves
    [//go:build  (E)]: the expression in parentheses after two spaces,
    not the line it started from. *)
Theorem conjoin_then_strip_keeps_parentheses {B} (f : File B) before pre c post after E :
  Comments f = before ++ {| List := pre ++ c :: post |} :: after ->
  noAnnotation before ->
  Forall (fun x => isAnn x = false) pre ->
  noAnnotation after ->
  Text c = goBuild +:+ E ->
  hasByte "!" E = false ->
  let with_ t := {| Comments := before ++ {| List := pre ++ setText c t :: post |} :: after;
                    Rest := Rest f |} in
  fixupAst false f
  = Edited (with_ ("//go:build (!tinygo || tinygo.enable) && (" +:+ E +:+ ")"))
  /\ fixupAst true (with_ ("//go:build (!tinygo || tinygo.enable) && (" +:+ E +:+ ")"))
     = Edited (with_ ("//go:build  (" +:+ E +:+ ")"))
  /\ "//go:build  (" +:+ E +:+ ")" <> Text c.
Proof.
  intros Hcs Hbefore Hpre Hafter Htext HE with_.
  assert (Strings.Contains (Text c) constraint = false) as Hcontains.
  { destruct (Strings.Contains (Text c) constraint) eqn:Hc; [|done].
    apply (Contains_hasByte "!" "tinygo || tinygo.enable") in Hc.
    rewrite Htext, hasByte_app, HE in Hc. discriminate. }
  split; [|split].
  - unfold fixupAst. rewrite Hcs, fixupGroups_app by done.
    cbn [fixupGroups List].
    rewrite fixupList_first by (done || by eapply isAnn_goBuild).
    cbn zeta. rewrite Hcontains. cbn [negb andb orb].
    rewrite fixupGroups_none by done.
    rewrite Htext, from_goBuild. reflexivity.
  - unfold fixupAst, with_. cbn [Comments Rest].
    rewrite fixupGroups_app by done. cbn [fixupGroups List].
    rewrite fixupList_first; [|done|reflexivity].
    cbn zeta. cbn [Text setText].
    change ("//go:build (!tinygo || tinygo.enable) && (" +:+ E +:+ ")")
      with (goBuild +:+ "(" +:+ constraint +:+ ") && (" +:+ E +:+ ")").
    rewrite conjoined_contains. cbn [negb andb orb].
    rewrite (strip_conjoined E HE).
    change ("//go:build  (" +:+ E +:+ ")") with ("//go:build" +:+ "  (" +:+ E +:+ ")").
    rewrite bare_goBuild. cbn [isBlank is_space].
    replace (isBlank ("  (" +:+ E +:+ ")")) with false by reflexivity.
    rewrite fixupGroups_none by done. reflexivity.
  - rewrite Htext. intros Heq. apply (f_equal String.length) in Heq.
    rewrite !length_append in Heq. simpl in Heq. lia.
Qed.

Lemma insert_then_strip_leaves_empty_group_witness :
  let f := DemoHost.parsed DemoHost.source in
  let groups1 := [ {| List := [ {| Slash := 1; Text := "// Copyright" |} ] |};
                   newGoBuild 2 ] in
  fixupAst false f = Edited {| Comments := groups1; Rest := Rest f |}
  /\ exists groups2,
       fixupAst true {| Comments := groups1; Rest := Rest f |}
       = Edited {| Comments := groups2; Rest := Rest f |}
       /\ allComments groups2 = allComments (Comments f)
       /\ length groups2 = S (length (Comments f))
       /\ In {| List := [] |} groups2.
Proof.
  refine (insert_then_strip_leaves_empty_group (DemoHost.parsed DemoHost.source)
            [ {| List := [ {| Slash := 1; Text := "// Copyright" |} ] |};
              newGoBuild 2 ] _ _).
  - repeat constructor.
  - reflexivity.
Defined.

Lemma conjoin_then_strip_keeps_parentheses_witness :
  let f := DemoHost.parsed DemoHost.linuxOnly in
  let c := {| Slash := 15; Text := "//go:build linux" |} in
  let with_ t := {| Comments := [ {| List := [ {| Slash := 1; Text := "// Copyright" |} ] |} ]
                                ++ {| List := [] ++ setText c t :: [] |} :: [];
                    Rest := Rest f |} in
  fixupAst false f
  = Edited (with_ ("//go:build (!tinygo || tinygo.enable) && (" +:+ "linux" +:+ ")"))
  /\ fixupAst true (with_ ("//go:build (!tinygo || tinygo.enable) && (" +:+ "linux" +:+ ")"))
     = Edited (with_ ("//go:build  (" +:+ "linux" +:+ ")"))
  /\ "//go:build  (" +:+ "linux" +:+ ")" <> Text c.
Proof.
  refine (conjoin_then_strip_keeps_parentheses (DemoHost.parsed DemoHost.linuxOnly)
            [ {| List := [ {| Slash := 1; Text := "// Copyright" |} ] |} ] []
            {| Slash := 15; Text := "//go:build linux" |} [] [] "linux" _ _ _ _ _ _).
  - reflexivity.
  - repeat constructor.
  - constructor.
  - constructor.
  - reflexivity.
  - reflexivity.
Defined.

(** ** Check-only mode predicts write mode *)

Section Predict.
Context (G : GoSyntax) (H : Host).

Lemma fixupFile_predicts file builds w1 w2 :
  files w1 !! file = files w2 !! file ->
  writable H file = true ->
  sameAnswer (fixupFileConstraints G H file builds true w1)
             (fixupFileConstraints G H file builds false w2).
Proof.
  intros Heq Hw. unfold_rewriter. rewrite Heq.
  destruct (files w2 !! file) as [b|]; [|done].
  destruct (ParseFile G b) as [f|]; [|done].
  destruct (fixupAst builds f) as [|f'|]; [done| |done].
  destruct (Fprint G f') as [buf|]; [|done].
  destruct (String.eqb b buf); [done|]. simpl. by rewrite Hw.
Qed.

Lemma fixupFiles_predicts fs builds : forall mdw w1 w2,
  NoDup (filter isGo fs) ->
  agreeOn (filter isGo fs) (files w1) (files w2) ->
  Forall (fun f => writable H f = true) (filter isGo fs) ->
  sameAnswer (fixupFiles G H fs builds true mdw w1)
             (fixupFiles G H fs builds false mdw w2).
Proof.
  induction fs as [|f fs IH]; intros mdw w1 w2 Hnd Hag Hwr; [done|].
  cbn [fixupFiles].
  destruct (Strings.HasSuffix f ".go") eqn:Hgo; cbn [negb].
  2:{ rewrite filter_cons_False in Hnd, Hag, Hwr by (unfold isGo; congruence).
      by apply IH. }
  rewrite filter_cons_True in Hnd, Hag, Hwr by done.
  apply NoDup_cons in Hnd as [Hnotin Hnd].
  inversion Hwr as [|? ? Hwf Hwr']; subst.
  pose proof (fixupFile_predicts f builds w1 w2 (Hag f ltac:(by left)) Hwf) as Hsame.
  pose proof (fixupFile_checkOnly G H f builds w1) as Hkeep.
  pose proof (fixupFile_onlyChanges G H f builds false w2) as Honly.
  unfold bind.
  destruct (fixupFileConstraints G H f builds true w1) as [a w1'|w1'|w1'] eqn:H1;
    destruct (fixupFileConstraints G H f builds false w2) as [a' w2'|w2'|w2'] eqn:H2;
    simpl in Hsame; try done.
  subst a'. rewrite (fixupFileConstraints_err _ _ _ _ _ _ _ _ H1).
  apply IH; [done| |done].
  intros path Hin. simpl in Hkeep, Honly. rewrite Hkeep.
  destruct (Honly path) as [-> | (<- & _)]; [apply Hag; by right|].
  exfalso. apply Hnotin. by apply list_elem_of_In.
Qed.

Lemma fixupPkg_predicts dir builds w1 w2 :
  NoDup (goFiles H dir) ->
  agreeOn (goFiles H dir) (files w1) (files w2) ->
  Forall (fun f => writable H f = true) (goFiles H dir) ->
  sameAnswer (fixupPkgConstraints G H dir builds true w1)
             (fixupPkgConstraints G H dir builds false w2).
Proof.
  unfold fixupPkgConstraints, goFiles, bind, record. simpl.
  destruct (Glob H dir) as [fs|]; [|done]. simpl.
  intros Hnd Hag Hwr. by apply fixupFiles_predicts.
Qed.

Lemma worker_predicts conf dir w1 w2 :
  checkOnly conf = false ->
  NoDup (goFiles H dir) ->
  agreeOn (goFiles H dir) (files w1) (files w2) ->
  Forall (fun f => writable H f = true) (goFiles H dir) ->
  sameAnswer (worker G H (asCheck conf) dir w1) (worker G H conf dir w2).
Proof.
  intros Hck Hnd Hag Hwr. unfold worker. cbn [tinygo checkOnly asCheck]. rewrite Hck.
  destruct (build H (tinygo conf) dir) as [br err].
  destruct (bool_decide (err = None) && negb (BuildRes.excluded br)); [|done].
  pose proof (fixupPkg_predicts dir (bool_decide (BuildRes.err br = None)) w1 w2
                Hnd Hag Hwr) as Hsame.
  unfold bind.
  destruct (fixupPkgConstraints G H dir _ true w1) as [a w1'|w1'|w1'];
    destruct (fixupPkgConstraints G H dir _ false w2) as [a' w2'|w2'|w2'];
    simpl in *; try done.
  by subst.
Qed.

Lemma received_predicts conf arrival : forall w1 w2,
  checkOnly conf = false ->
  NoDup (allGoFiles H arrival) ->
  agreeOn (allGoFiles H arrival) (files w1) (files w2) ->
  Forall (fun f => writable H f = true) (allGoFiles H arrival) ->
  sameAnswer (received G H (asCheck conf) arrival w1) (received G H conf arrival w2).
Proof.
  induction arrival as [|d ds IH]; intros w1 w2 Hck Hnd Hag Hwr; [done|].
  unfold allGoFiles in Hnd, Hag, Hwr. cbn [map concat] in Hnd, Hag, Hwr.
  apply NoDup_app in Hnd as (Hnd1 & Hdisj & Hnd2).
  apply Forall_app in Hwr as [Hwr1 Hwr2].
  assert (agreeOn (goFiles H d) (files w1) (files w2)) as Hag1.
  { intros path Hin. apply Hag, in_or_app. by left. }
  pose proof (worker_predicts conf d w1 w2 Hck Hnd1 Hag1 Hwr1) as Hsame.
  destruct (worker_effect G H (asCheck conf) d w1) as (_ & Hkeep & _).
  specialize (Hkeep eq_refl).
  destruct (worker_effect G H conf d w2) as (Honly & _).
  cbn [received]. unfold bind.
  destruct (worker G H (asCheck conf) d w1) as [r w1'|w1'|w1'];
    destruct (worker G H conf d w2) as [r' w2'|w2'|w2'];
    simpl in Hsame; try done.
  subst r'. destruct (WorkerResult.err r); [done|].
  assert (sameAnswer (received G H (asCheck conf) ds w1') (received G H conf ds w2'))
    as Hrest.
  { apply IH; try done.
    intros path Hin. simpl in Hkeep, Honly. rewrite Hkeep.
    destruct (Honly path) as [-> | ((_ & Hd) & _)].
    - apply Hag, in_or_app. by right.
    - exfalso. apply (Hdisj path); by apply list_elem_of_In. }
  destruct (received G H (asCheck conf) ds w1') as [rs w1''|w1''|w1''];
    destruct (received G H conf ds w2') as [rs' w2''|w2''|w2''];
    simpl in *; try done.
  by subst.
Qed.

(** X15: when no .go file is listed twice for the directories of the
    run and every listed .go file can be written, a run with -n ends as
    the run without it: with the same status lists, [modified]
    included, the same exit status and the same report. *)
Theorem checkOnly_predicts_run P conf arrival w :
  checkOnly conf = false ->
  NoDup (allGoFiles H arrival) ->
  Forall (fun f => writable H f = true) (allGoFiles H arrival) ->
  sameAnswer (buildDirs G H (asCheck conf) arrival w) (buildDirs G H conf arrival w)
  /\ status (main G H P (asCheck conf) arrival w) = status (main G H P conf arrival w)
  /\ report (main G H P (asCheck conf) arrival w) = report (main G H P conf arrival w).
Proof.
  intros Hck Hnd Hwr.
  assert (forall w1, sameAnswer (buildDirs G H (asCheck conf) arrival w1)
                                (buildDirs G H conf arrival w1)) as Hsame.
  { intros w1.
    pose proof (received_predicts conf arrival w1 w1 Hck Hnd ltac:(by intros ? ?) Hwr)
      as Hrec.
    unfold buildDirs, bind.
    destruct (received G H (asCheck conf) arrival w1) as [rs ?|?|?];
      destruct (received G H conf arrival w1) as [rs' ?|?|?]; simpl in *; try done.
    by subst. }
  split; [exact (Hsame w)|].
  unfold main. change (toFile (asCheck conf)) with (toFile conf).
  change (created (asCheck conf)) with (created conf).
  cbn [tinygo pathMD asCheck].
  destruct (tinygoVersion H P (tinygo conf)) as [v [e|]]; [done|].
  case_match; [done|].
  specialize (Hsame {| files := created conf (files w); calls := calls w |}).
  destruct (buildDirs G H (asCheck conf) arrival _) as [[st e] ?|?|?];
    destruct (buildDirs G H conf arrival _) as [[st' e'] ?|?|?];
    simpl in Hsame; try done.
  injection Hsame as -> ->. by destruct e'.
Qed.

End Predict.

Lemma checkOnly_predicts_run_witness :
  let conf := DemoHost.conf ["cmds/ok"; "cmds/bad"] in
  sameAnswer (buildDirs LineSyntax.syntax DemoRun.host (asCheck conf)
                ["cmds/bad"; "cmds/ok"] DemoRun.tree)
             (buildDirs LineSyntax.syntax DemoRun.host conf
                ["cmds/bad"; "cmds/ok"] DemoRun.tree)
  /\ status (main LineSyntax.syntax DemoRun.host DemoRun.platform (asCheck conf)
               ["cmds/bad"; "cmds/ok"] DemoRun.tree)
     = status (main LineSyntax.syntax DemoRun.host DemoRun.platform conf
                 ["cmds/bad"; "cmds/ok"] DemoRun.tree)
  /\ report (main LineSyntax.syntax DemoRun.host DemoRun.platform (asCheck conf)
               ["cmds/bad"; "cmds/ok"] DemoRun.tree)
     = report (main LineSyntax.syntax DemoRun.host DemoRun.platform conf
                 ["cmds/bad"; "cmds/ok"] DemoRun.tree).
Proof.
  refine (checkOnly_predicts_run LineSyntax.syntax DemoRun.host DemoRun.platform
            (DemoHost.conf ["cmds/ok"; "cmds/bad"]) ["cmds/bad"; "cmds/ok"]
            DemoRun.tree _ _ _).
  - reflexivity.
  - apply (bool_decide_unpack _). vm_compute. exact I.
  - repeat constructor.
Defined.

(** ** What a returning run has read, and what the flag of a file says *)

Lemma onlyChanges_is_Some P fs fs' path :
  onlyChanges P fs fs' -> (is_Some (fs' !! path) <-> is_Some (fs !! path)).
Proof. intros Hc. destruct (Hc path) as [-> | (_ & ? & ?)]; tauto. Qed.

Section Reads.
Context (G : GoSyntax) (H : Host).

Lemma fixupFile_returns_read file builds chk w a w' :
  fixupFileConstraints G H file builds chk w = Ret a w' ->
  exists b f, files w !! file = Some b /\ ParseFile G b = Some f
              /\ fixupAst builds f <> IndexPanic.
Proof.
  unfold_rewriter.
  destruct (files w !! file) as [b|]; [|done].
  destruct (ParseFile G b) as [f|] eqn:Hf; [|done].
  destruct (fixupAst builds f) as [|f'|] eqn:He; [| |done];
    intros _; exists b, f; rewrite He; by repeat split.
Qed.

Lemma fixupFiles_returns_read fs builds chk : forall mdw w a w',
  fixupFiles G H fs builds chk mdw w = Ret a w' ->
  forall path, In path (filter isGo fs) -> is_Some (files w !! path).
Proof.
  induction fs as [|f fs IH]; intros mdw w a w' Hrun path Hin; [done|].
  cbn [fixupFiles] in Hrun.
  destruct (Strings.HasSuffix f ".go") eqn:Hgo; cbn [negb] in Hrun.
  2:{ rewrite filter_cons_False in Hin by (unfold isGo; congruence). by eapply IH. }
  rewrite filter_cons_True in Hin by done.
  unfold bind in Hrun.
  pose proof (fixupFile_onlyChanges G H f builds chk w) as Honly.
  destruct (fixupFileConstraints G H f builds chk w) as [r w1|w1|w1] eqn:Hf;
    try discriminate.
  destruct Hin as [<- | Hin].
  - destruct (fixupFile_returns_read _ _ _ _ _ _ Hf) as (b & _ & -> & _). by eexists.
  - rewrite (fixupFileConstraints_err _ _ _ _ _ _ _ _ Hf) in Hrun.
    apply (onlyChanges_is_Some _ _ _ path Honly). by eapply IH.
Qed.

Lemma worker_returns_read conf dir w r w' :
  worker G H conf dir w = Ret r w' ->
  ranBuild (outcome (build H (tinygo conf) dir)) ->
  Glob H dir <> None
  /\ forall path, In path (goFiles H dir) -> is_Some (files w !! path).
Proof.
  unfold worker, outcome, ranBuild.
  destruct (build H (tinygo conf) dir) as [br err]. simpl.
  destruct err as [e|]; simpl; [by intros _ [|]|].
  destruct (BuildRes.excluded br); simpl; [by intros _ [|]|].
  intros Hrun _. unfold fixupPkgConstraints, record, goFiles, bind in *.
  simpl in Hrun.
  destruct (Glob H dir) as [fs|]; [|done]. split; [done|]. simpl.
  destruct (fixupFiles G H fs _ (checkOnly conf) false _) as [a w1|w1|w1] eqn:Hfs;
    try discriminate.
  intros path Hin. by apply (fixupFiles_returns_read _ _ _ _ _ _ _ Hfs path Hin).
Qed.

Lemma received_returns_read conf arrival : forall w rs w',
  received G H conf arrival w = Ret rs w' ->
  forall d, In d (untilFatal H (tinygo conf) arrival) ->
  ranBuild (outcome (build H (tinygo conf) d)) ->
  Glob H d <> None
  /\ forall path, In path (goFiles H d) -> is_Some (files w !! path).
Proof.
  induction arrival as [|a ds IH]; intros w rs w' Hrun d Hin Hran; [done|].
  cbn [untilFatal] in Hin.
  destruct (decide (outcome (build H (tinygo conf) a) = Fatal)) as [|Hnf]; [done|].
  cbn [received] in Hrun. unfold bind in Hrun.
  destruct (worker_effect G H conf a w) as (Honly & _).
  destruct (worker G H conf a w) as [r w1|w1|w1] eqn:Hw; try discriminate.
  destruct Hin as [<- | Hin]; [by eapply worker_returns_read|].
  destruct (WorkerResult.err r) eqn:He.
  { exfalso. apply Hnf, outcome_Fatal_iff.
    destruct (worker_result G H conf a w r w1 Hw) as (_ & _ & Herr). congruence. }
  destruct (received G H conf ds w1) as [rs1 w2|w2|w2] eqn:Hrec; try discriminate.
  destruct (IH _ _ _ Hrec d Hin Hran) as [Hglob Hsome].
  split; [done|]. intros path Hp.
  apply (onlyChanges_is_Some _ _ _ path Honly). by apply Hsome.
Qed.

(** X16: a run that returns has found, for every directory it files as
    passing or failing, a listing of the directory and every .go file of
    the listing in the tree it started from. A listed .go path that
    cannot be read ends the process instead. *)
Theorem returning_run_read_every_go_file conf arrival w st e w' d :
  buildDirs G H conf arrival w = Ret (st, e) w' ->
  In d (passing st) \/ In d (failing st) ->
  Glob H d <> None
  /\ forall path, In path (goFiles H d) -> is_Some (files w !! path).
Proof.
  intros Hrun Hin.
  assert (In d (untilFatal H (tinygo conf) arrival)
          /\ ranBuild (outcome (build H (tinygo conf) d))) as [Hd Hran].
  { destruct Hin as [Hin | Hin].
    - change (passing st) with (bucket Success st) in Hin.
      rewrite (buildDirs_bucket G H _ _ _ _ _ _ Success Hrun) in Hin by done.
      apply list_elem_of_In, list_elem_of_filter in Hin as [Ho Hin].
      split; [by apply list_elem_of_In | by left].
    - change (failing st) with (bucket Failure st) in Hin.
      rewrite (buildDirs_bucket G H _ _ _ _ _ _ Failure Hrun) in Hin by done.
      apply list_elem_of_In, list_elem_of_filter in Hin as [Ho Hin].
      split; [by apply list_elem_of_In | by right]. }
  unfold buildDirs, bind in Hrun.
  destruct (received G H conf arrival w) as [rs w1|w1|w1] eqn:Hrec; try discriminate.
  by eapply received_returns_read.
Qed.

(** X17: in write mode the flag the rewriter returns for a file is
    true exactly when the text of the file has changed; no other file
    differs, and the error is nil. *)
Theorem changed_flag_is_truthful file builds w changed e w' :
  fixupFileConstraints G H file builds false w = Ret (changed, e) w' ->
  e = None
  /\ (changed = true <-> files w' !! file <> files w !! file)
  /\ forall path, path <> file -> files w' !! path = files w !! path.
Proof.
  intros Hrun.
  split; [exact (fixupFileConstraints_err _ _ _ _ _ _ _ _ Hrun)|].
  revert Hrun. unfold_rewriter.
  destruct (files w !! file) as [b|] eqn:Hb; [|done].
  destruct (ParseFile G b) as [f|]; [|done].
  destruct (fixupAst builds f) as [|f'|]; [| |done].
  - intros Hr. simplify_eq. simpl. rewrite ?Hb. split; [split; done | done].
  - destruct (Fprint G f') as [buf|]; [|done].
    destruct (String.eqb b buf) eqn:Heq.
    + intros Hr. simplify_eq. simpl. rewrite ?Hb. split; [split; done | done].
    + simpl. destruct (writable H file); [|done].
      intros Hr. simplify_eq. simpl. rewrite lookup_insert_eq, ?Hb. split.
      * split; [|done]. intros _ Hs. injection Hs as ->.
        by rewrite String.eqb_refl in Heq.
      * intros path Hne. by rewrite lookup_insert_ne.
Qed.

End Reads.

Lemma returning_run_read_every_go_file_witness :
  Glob DemoRun.host "cmds/bad" <> None
  /\ forall path, In path (goFiles DemoRun.host "cmds/bad") ->
                  is_Some (files DemoRun.tree !! path).
Proof.
  refine (returning_run_read_every_go_file LineSyntax.syntax DemoRun.host
            (DemoHost.conf ["cmds/ok"; "cmds/bad"]) ["cmds/bad"; "cmds/ok"]
            DemoRun.tree
            {| passing := ["cmds/ok"]; failing := ["cmds/bad"];
               excluded := []; modified := ["cmds/bad"] |}
            None
            (worldOf (buildDirs LineSyntax.syntax DemoRun.host
                        (DemoHost.conf ["cmds/ok"; "cmds/bad"]) ["cmds/bad"; "cmds/ok"]
                        DemoRun.tree))
            "cmds/bad" _ _).
  - vm_compute. reflexivity.
  - right. simpl. by left.
Defined.

Lemma changed_flag_is_truthful_witness :
  let w := DemoHost.world [(DemoHost.mainGo, DemoHost.source)] in
  let w' := worldOf (fixupFileConstraints LineSyntax.syntax DemoHost.host
                       DemoHost.mainGo false false w) in
  @None error = None
  /\ (true = true <-> files w' !! DemoHost.mainGo <> files w !! DemoHost.mainGo)
  /\ forall path, path <> DemoHost.mainGo -> files w' !! path = files w !! path.
Proof.
  refine (changed_flag_is_truthful LineSyntax.syntax DemoHost.host DemoHost.mainGo false
            (DemoHost.world [(DemoHost.mainGo, DemoHost.source)]) true None _ _).
  vm_compute. reflexivity.
Defined.
